(** * Awesome-Nano-AI: the discovery script, embedded and verified

    A shallow embedding of [scripts/discover_nano_services.py].  The script
    reads a README, queries the GitHub search API once per entry of
    [SEARCH_QUERIES], refreshes the star counts of the table rows between two
    marker comments, appends rows for newly found repositories, sorts the rows
    by stars and writes the README back.

    Python [str] values are modelled as lists of characters whose code points
    lie below 256 ([ascii]); on that range the character tables below
    ([isspace], [\w], [lower]) are the ones of CPython.  Python [int] is [Z].
    A [dict] whose iteration order matters is an association list in insertion
    order; a [dict] that is only looked up is a [gmap]; a [set] is a [gset].
    Exceptions are an explicit [result] type.  The file system and the HTTP
    API are arguments of [main]: the README text that is read, and a function
    from the query string to the response.  [main_on_file] adds the file
    around [main]: the README is opened in text mode, so that the text read
    has the line ends of the file translated, and the text written has its
    newlines written as the line separator of the platform.

    The output variables for GitHub Actions are written to a file named by
    the environment; [set_outputs] takes the environment and the files.

    Left out: what the script prints, the pause after each query and the
    request headers of [get_headers], none of which changes what is written;
    and the interpreter's configurable limit on the number of digits that
    [int] and [str] convert. *)

From Stdlib Require Import Ascii String ZArith NArith Lia DecimalString DecimalZ Sorted.
From stdpp Require Import gmap strings list fin_maps.

Local Open Scope Z_scope.

Abbreviation text := (list ascii).

(** A string literal of the source. *)
Definition lit (s : string) : text := list_ascii_of_string s.
Global Arguments lit : simpl never.

(** ** Python built-ins used by the script *)
Module Py.

Definition ord (c : ascii) : N := N_of_ascii c.

Definition in_range (lo hi : N) (c : ascii) : bool :=
  ((lo <=? ord c) && (ord c <=? hi))%N.

Definition code_is (k : N) (c : ascii) : bool := (ord c =? k)%N.

(** [str.isspace] on one character: TAB..CR, FS..US, space, NEL, NBSP. *)
Definition isspace (c : ascii) : bool :=
  in_range 9 13 c || in_range 28 32 c || code_is 133 c || code_is 160 c.

(** C's [isspace] in the C locale ([Py_ISSPACE]), used inside [int()]. *)
Definition c_isspace (c : ascii) : bool := in_range 9 13 c || code_is 32 c.

Definition isdecimal (c : ascii) : bool := in_range 48 57 c.

(** [str.isalnum] on one character (alphabetic, decimal, digit or numeric). *)
Definition isalnum (c : ascii) : bool :=
  in_range 48 57 c || in_range 65 90 c || in_range 97 122 c
  || code_is 170 c || code_is 178 c || code_is 179 c || code_is 181 c || code_is 185 c || code_is 186 c
  || in_range 188 190 c
  || in_range 192 214 c || in_range 216 246 c || in_range 248 255 c.

(** [str.lower]: below 256 every cased character has a one-character
    lowercase 32 code points above it. *)
Definition lower_char (c : ascii) : ascii :=
  if in_range 65 90 c || in_range 192 214 c || in_range 216 222 c
  then ascii_of_N (ord c + 32) else c.

Definition lower (s : text) : text := lower_char <$> s.

(** [s.lstrip()] / [s.rstrip()] / [s.strip()], generalised over the set of
    characters removed. *)
Fixpoint lstrip_with (p : ascii → bool) (s : text) : text :=
  match s with
  | c :: t => if p c then lstrip_with p t else s
  | [] => []
  end.

Definition rstrip_with (p : ascii → bool) (s : text) : text :=
  reverse (lstrip_with p (reverse s)).

Definition strip (s : text) : text :=
  rstrip_with isspace (lstrip_with isspace s).

(** [s] has no whitespace at either end. *)
Definition stripped (s : text) : Prop :=
  (∀ c, head s = Some c → isspace c = false)
  ∧ (∀ c, last s = Some c → isspace c = false).

(** [s.rstrip(ch)] for a one-character argument. *)
Definition rstrip_char (ch : ascii) (s : text) : text :=
  rstrip_with (Ascii.eqb ch) s.

Fixpoint startswith (s prefix : text) {struct prefix} : bool :=
  match prefix, s with
  | [], _ => true
  | a :: p, b :: t => Ascii.eqb a b && startswith t p
  | _ :: _, [] => false
  end.

(** Index of the first occurrence of [sub] in [s], if any. *)
Fixpoint find_nat (s sub : text) : option nat :=
  if startswith s sub then Some 0%nat
  else match s with
       | [] => None
       | _ :: t => S <$> find_nat t sub
       end.

(** [sub] occurs in [s] at index [i]. *)
Definition occurs_at (s sub : text) (i : nat) : Prop :=
  ∃ a b, s = a ++ sub ++ b ∧ length a = i.

(** [i] is the index of the first occurrence of [sub] in [s]. *)
Definition first_at (s sub : text) (i : nat) : Prop :=
  occurs_at s sub i ∧ ∀ j, occurs_at s sub j → (i ≤ j)%nat.

(** [sub in s] *)
Definition contains (s sub : text) : Prop := ∃ i, occurs_at s sub i.

(** [s.find(sub)]: the lowest index, or -1. *)
Definition find (s sub : text) : Z :=
  match find_nat s sub with
  | Some i => Z.of_nat i
  | None => -1
  end.

(** How a slice bound is read against a string of length [n]: a negative
    bound counts from the end, and every bound is clipped to [0..n]. *)
Definition clamp (n : nat) (i : Z) : nat :=
  if i <? 0 then Z.to_nat (Z.max 0 (Z.of_nat n + i))
  else Nat.min (Z.to_nat i) n.

(** [s[lo:hi]]; [None] is an omitted bound. *)
Definition slice (s : text) (lo hi : option Z) : text :=
  let n := length s in
  let l := from_option (clamp n) 0%nat lo in
  let h := from_option (clamp n) n hi in
  take (h - l) (drop l s).

(** [s.split(sep)] for a one-character separator: never empty. *)
Fixpoint split (sep : ascii) (s : text) : list text :=
  match s with
  | [] => [[]]
  | c :: t =>
      if Ascii.eqb c sep then [] :: split sep t
      else match split sep t with
           | p :: ps => (c :: p) :: ps
           | [] => [[c]]
           end
  end.

(** [sep.join(parts)] for a one-character separator. *)
Fixpoint join (sep : ascii) (parts : list text) : text :=
  match parts with
  | [] => []
  | p :: ps =>
      match ps with
      | [] => p
      | _ :: _ => p ++ sep :: join sep ps
      end
  end.

(** [s.replace(a, b)] for one-character [a] and [b]. *)
Definition replace_char (a b : ascii) (s : text) : text :=
  (λ c, if Ascii.eqb c a then b else c) <$> s.

(** [s.replace(a, "")] for a one-character [a]. *)
Definition remove_char (a : ascii) (s : text) : text :=
  filter (λ c, c ≠ a) s.

(** [str(n)] for an [int]. *)
Definition str (n : Z) : text := lit (NilZero.string_of_int (Z.to_int n)).

(** *** [int(s)]

    CPython first maps a non-ASCII string to ASCII: spaces become [" "],
    and the string is cut at the first other character from 127 up, which
    is replaced by ["?"] (below 256 no such character is a decimal digit).
    Then: C whitespace, an optional sign, decimal digits with single
    underscores between them, C whitespace, end of string. *)
Definition isascii (s : text) : bool := forallb (λ c, (ord c <? 128)%N) s.

Fixpoint transform_to_ascii (s : text) : text :=
  match s with
  | [] => []
  | c :: t =>
      if (ord c <? 127)%N then c :: transform_to_ascii t
      else if isspace c then " "%char :: transform_to_ascii t
      else ["?"%char]
  end.

(** The digit loop: [prev_us] says that the previous character was an
    underscore.  Returns the digits read and the unread rest. *)
Fixpoint scan_digits (prev_us : bool) (s : text) : option (text * text) :=
  match s with
  | [] => if prev_us then None else Some ([], [])
  | c :: t =>
      if isdecimal c then
        prod_map (cons c) id <$> scan_digits false t
      else if Ascii.eqb c "_" then
        if prev_us then None else scan_digits true t
      else if prev_us then None else Some ([], s)
  end.

Definition digits_value (ds : text) : Z :=
  fold_left (λ acc c, 10 * acc + (Z.of_N (ord c) - 48)) ds 0.

(** [int(s)]: [None] stands for [ValueError]. *)
Definition int (s : text) : option Z :=
  let a := if isascii s then s else transform_to_ascii s in
  let a := lstrip_with c_isspace a in
  let '(sign, a) :=
    match a with
    | c :: t => if Ascii.eqb c "+" then (1, t)
                else if Ascii.eqb c "-" then (-1, t) else (1, a)
    | [] => (1, a)
    end in
  if startswith a (lit "_") then None
  else match scan_digits false a with
       | Some (ds, rest) =>
           match ds, lstrip_with c_isspace rest with
           | _ :: _, [] => Some (sign * digits_value ds)
           | _, _ => None
           end
       | None => None
       end.

(** [list.sort(key=..., reverse=True)]: stable, descending.  An element is
    placed before the elements of the sorted tail whose key is not larger,
    so elements with equal keys keep their order. *)
Section Sort.
Context {A : Type} (key : A → Z).

Fixpoint insert_desc (x : A) (l : list A) : list A :=
  match l with
  | [] => [x]
  | y :: t => if key y <=? key x then x :: l else y :: insert_desc x t
  end.

Fixpoint sort_desc (l : list A) : list A :=
  match l with
  | [] => []
  | x :: t => insert_desc x (sort_desc t)
  end.

(** [a] may stand before [b] in a list sorted this way. *)
Definition desc (a b : A) : Prop := key b ≤ key a.
End Sort.

End Py.

(** ** The regular expression of the script

    [https://github\.com/[\w\-\.]+/[\w\-\.]+], as [re] matches it.  Both
    repetitions are greedy.  The character after the first repetition must be
    ["/"], which is not in the class, so backtracking into the first
    repetition never succeeds: a match is the literal, the longest non-empty
    run of class characters, ["/"], and again the longest non-empty run. *)
Module Re.

Definition url_literal : text := lit "https://github.com/".
Global Arguments url_literal : simpl never.

(** [\w]: alphanumeric or underscore. *)
Definition word (c : ascii) : bool := Py.isalnum c || Ascii.eqb c "_".

(** The class [[\w\-\.]]. *)
Definition url_class (c : ascii) : bool :=
  word c || Ascii.eqb c "-" || Ascii.eqb c ".".

(** The characters a match can be made of: the class, and the [":"] and
    ["/"] of the literal. *)
Definition url_char (c : ascii) : bool :=
  url_class c || Ascii.eqb c ":" || Ascii.eqb c "/".

(** The longest prefix of characters in [p], and what follows it. *)
Fixpoint span (p : ascii → bool) (s : text) : text * text :=
  match s with
  | c :: t => if p c then prod_map (cons c) id (span p t) else ([], s)
  | [] => ([], [])
  end.

Fixpoint strip_prefix (prefix s : text) : option text :=
  match prefix, s with
  | [], _ => Some s
  | a :: p, b :: t => if Ascii.eqb a b then strip_prefix p t else None
  | _ :: _, [] => None
  end.

(** [pattern.match(s)]: the matched text, anchored at the start of [s]. *)
Definition match_url (s : text) : option text :=
  rest ← strip_prefix url_literal s;
  let '(owner, rest) := span url_class rest in
  match owner, rest with
  | _ :: _, c :: rest =>
      if Ascii.eqb c "/" then
        match (span url_class rest).1 with
        | (_ :: _) as name => Some (url_literal ++ owner ++ "/"%char :: name)
        | [] => None
        end
      else None
  | _, _ => None
  end.

(** [re.search(pattern, s)]: the leftmost match. *)
Fixpoint search (s : text) : option text :=
  match match_url s with
  | Some m => Some m
  | None => match s with
            | [] => None
            | _ :: t => search t
            end
  end.

(** [pattern.finditer(s)]: the leftmost match, then the leftmost match
    after its end, and so on.  [skip] counts the characters of the last
    match that are still to be passed over. *)
Fixpoint finditer_from (skip : nat) (s : text) : list text :=
  match s with
  | [] => []
  | _ :: t =>
      match skip with
      | S k => finditer_from k t
      | O => match match_url s with
             | Some m => m :: finditer_from (length m - 1) t
             | None => finditer_from 0 t
             end
      end
  end.

Definition finditer (s : text) : list text := finditer_from 0 s.

End Re.

(** ** The script *)

Definition MARKER_START : text := lit "<!-- NANO_LIST_START -->".
Definition MARKER_END : text := lit "<!-- NANO_LIST_END -->".
Definition MIN_STARS : Z := 1000.
Global Arguments MARKER_START : simpl never.
Global Arguments MARKER_END : simpl never.

Definition SEARCH_QUERIES : list text :=
  [ lit "nano in:name topic:ai";
    lit "nano in:name topic:machine-learning";
    lit "nano in:name topic:llm";
    lit "nano in:name topic:deep-learning";
    lit "nano in:name topic:gpt";
    lit "nano in:name topic:chatbot";
    lit "nano in:name topic:nlp";
    lit "nano in:name topic:agent";
    lit "nano in:name topic:neural-network";
    lit "nano in:name topic:transformer";
    lit "nanoGPT";
    lit "nanochat";
    lit "nanobot";
    lit "nanobrowser";
    lit "nanocoder";
    lit "nanoflow";
    lit "nanotron" ].

(** An item of the search response: the fields the script reads.
    [description] is [None] for a JSON null; [fork] and [archived] are what
    [repo.get(...)] is tested for. *)
Record repo := Repo {
  name : text;
  full_name : text;
  html_url : text;
  description : option text;
  stargazers_count : Z;
  fork : bool;
  archived : bool
}.

Global Instance repo_eq_dec : EqDecision repo.
Proof. solve_decision. Defined.

(** *** Exceptions *)

Inductive exn :=
| HTTPError (status : Z)
| JSONDecodeError
| ValueError
| IndexError.

Inductive result (A : Type) :=
| Ok (a : A)
| Raise (e : exn).
Arguments Ok {A} a.
Arguments Raise {A} e.

Definition bind {A B} (m : result A) (k : A → result B) : result B :=
  match m with
  | Ok a => k a
  | Raise e => Raise e
  end.

Notation "x ←! m ; k" := (bind m (λ x, k))
  (at level 100, m at next level, right associativity, only parsing).

(** [try: m except ValueError: handler] *)
Definition except_ValueError {A} (m handler : result A) : result A :=
  match m with
  | Raise ValueError => handler
  | _ => m
  end.

(** [parts[i]] for a non-negative [i]. *)
Definition getitem (parts : list text) (i : nat) : result text :=
  match parts !! i with
  | Some part => Ok part
  | None => Raise IndexError
  end.

(** [int(s)], with its exception. *)
Definition int (s : text) : result Z :=
  match Py.int s with
  | Some n => Ok n
  | None => Raise ValueError
  end.

(** *** The HTTP response, as far as [search_repos] looks at it *)

(** What [resp.json()] gives: an exception for a body that is not JSON,
    otherwise an object that may or may not have an ["items"] entry. *)
Inductive json_body :=
| NotJson
| JsonObject (items : option (list repo)).

Record response := Response {
  status_code : Z;
  body : json_body
}.

(** [requests.Response.raise_for_status]: raises for a client or server
    error status, 400 to 599. *)
Definition raise_for_status (resp : response) : result unit :=
  if (400 <=? status_code resp) && (status_code resp <? 600)
  then Raise (HTTPError (status_code resp))
  else Ok ().

(** [requests.Response.ok]: [False] exactly when [raise_for_status] raises. *)
Definition ok (resp : response) : bool :=
  match raise_for_status resp with
  | Ok _ => true
  | Raise _ => false
  end.

(** [api] answers the GET request; the other parameters are constant, so it
    is a function of the [q] parameter. *)
Definition search_repos (api : text → response) (query : text)
  : result (list repo) :=
  let q := query ++ lit " stars:>=" ++ Py.str MIN_STARS in
  let resp := api q in
  if status_code resp =? 403 then Ok []
  else
    _ ←! raise_for_status resp;
    match body resp with
    | NotJson => Raise JSONDecodeError
    | JsonObject items => Ok (default [] items)
    end.

(** [url.lower().rstrip("/")] *)
Definition canonical (url : text) : text :=
  Py.rstrip_char "/" (Py.lower url).

(** The canonical URLs of the matches in a piece of text. *)
Definition urls_in (s : text) : gset text :=
  list_to_set (canonical <$> Re.finditer s).

Definition parse_existing_entries (readme_content : text) : gset text :=
  let start_idx := Py.find readme_content MARKER_START in
  let end_idx := Py.find readme_content MARKER_END in
  if (start_idx =? -1) || (end_idx =? -1) then ∅
  else
    let section := Py.slice readme_content (Some start_idx) (Some end_idx) in
    foldl (λ urls m, {[ canonical m ]} ∪ urls) ∅ (Re.finditer section).

(** The local [description] of [build_table_row] when the row is formatted. *)
Definition render_description (r : repo) : text :=
  let description :=
    Py.strip (Py.replace_char "|" "-" (default [] (description r))) in
  if (100 <? length description)%nat
  then take 97 description ++ lit "..."
  else description.

Definition build_table_row (r : repo) : text :=
  lit "| [" ++ name r ++ lit "](" ++ html_url r ++ lit ") | "
  ++ render_description r ++ lit " | "
  ++ Py.str (stargazers_count r) ++ lit " |".

(** The test of the loop in [parse_table_rows]: [false] is [continue]. *)
Definition is_table_row (line : text) : bool :=
  negb (Py.startswith line (lit "| Name")
        || Py.startswith line (lit "|---")
        || negb (Py.startswith line (lit "|"))).

Definition parse_table_rows (readme_content : text) : list text :=
  let start_idx := Py.find readme_content MARKER_START in
  let end_idx := Py.find readme_content MARKER_END in
  if (start_idx =? -1) || (end_idx =? -1) then []
  else
    let section :=
      Py.strip (Py.slice readme_content
                  (Some (start_idx + Z.of_nat (length MARKER_START)))
                  (Some end_idx)) in
    let lines := Py.split "010" section in
    List.filter is_table_row (Py.strip <$> lines).

Definition extract_stars_from_row (row : text) : result Z :=
  let parts := Py.split "|" row in
  if (4 <=? length parts)%nat then
    part ←! getitem parts 3;
    let stars_str := Py.remove_char "," (Py.strip part) in
    except_ValueError (int stars_str) (Ok 0)
  else Ok 0.

(** The key under which [main] sorts a row.  [extract_stars_from_row]
    raises for no row (proved below), so the key is the integer it
    returns. *)
Definition stars_key (row : text) : Z :=
  match extract_stars_from_row row with
  | Ok n => n
  | Raise _ => 0
  end.

Definition update_row_stars (row : text) (repos_by_url : gmap text repo)
  : text :=
  match Re.search row with
  | Some url_match =>
      let url := canonical url_match in
      match repos_by_url !! url with
      | Some r =>
          let new_stars := stargazers_count r in
          let parts := Py.split "|" row in
          if (5 <=? length parts)%nat then
            Py.join "|" (<[3%nat := lit " " ++ Py.str new_stars ++ lit " "]> parts)
          else row
      | None => row
      end
  | None => row
  end.

(** *** [main] *)

(** [all_repos]: a dict from the lowercase full name, in insertion order. *)
Abbreviation dict := (list (text * repo)).

(** The body of the inner loop: [if full_name not in all_repos: ...]. *)
Definition add_repo (all_repos : dict) (r : repo) : dict :=
  let full_name := Py.lower (full_name r) in
  if bool_decide (full_name ∈ all_repos.*1) then all_repos
  else all_repos ++ [(full_name, r)].

(** The loop over the queries; an exception of [search_repos] ends it. *)
Fixpoint search_all (api : text → response) (queries : list text)
    (all_repos : dict) : result dict :=
  match queries with
  | [] => Ok all_repos
  | query :: queries =>
      repos ←! search_repos api query;
      search_all api queries (foldl add_repo all_repos repos)
  end.

(** The body of the filter loop, on the pair ([new_repos], [repos_by_url]). *)
Definition filter_step (existing_urls : gset text)
    (st : list repo * gmap text repo) (item : text * repo)
  : list repo * gmap text repo :=
  let r := item.2 in
  let url := canonical (html_url r) in
  let repos_by_url := <[url := r]> st.2 in
  if fork r then (st.1, repos_by_url)
  else if archived r then (st.1, repos_by_url)
  else if bool_decide (url ∈ existing_urls) then (st.1, repos_by_url)
  else (st.1 ++ [r], repos_by_url).

Definition filter_repos (existing_urls : gset text) (all_repos : dict)
  : list repo * gmap text repo :=
  foldl (filter_step existing_urls) ([], ∅) all_repos.

Definition table_header : text :=
  lit "| Name | Description | Stars |" ++ "010"%char
  :: lit "|------|-------------|-------|" ++ ["010"%char].

Global Arguments table_header : simpl never.

(** [f"{MARKER_START}\n{table_header}{table_body}\n{MARKER_END}"] *)
Definition build_section (all_rows : list text) : text :=
  let table_body := Py.join "010" all_rows in
  MARKER_START ++ "010"%char :: table_header ++ table_body
  ++ "010"%char :: MARKER_END.

(** The local variables of [main] when it writes the README. *)
Record run := Run {
  existing_urls : gset text;
  existing_rows : list text;
  new_repos : list repo;
  repos_by_url : gmap text repo;
  all_rows : list text;
  new_section : text;
  new_readme : text
}.

(** [main] after the search loop. *)
Definition update_readme (readme_content : text) (all_repos : dict) : run :=
  let existing_urls := parse_existing_entries readme_content in
  let existing_rows := parse_table_rows readme_content in
  let '(new_repos, repos_by_url) := filter_repos existing_urls all_repos in
  let new_repos := Py.sort_desc stargazers_count new_repos in
  let updated_rows :=
    (λ row, update_row_stars row repos_by_url) <$> existing_rows in
  let new_rows := build_table_row <$> new_repos in
  let all_rows := Py.sort_desc stars_key (updated_rows ++ new_rows) in
  let new_section := build_section all_rows in
  let start_idx := Py.find readme_content MARKER_START in
  let end_idx :=
    Py.find readme_content MARKER_END + Z.of_nat (length MARKER_END) in
  let new_readme :=
    Py.slice readme_content None (Some start_idx) ++ new_section
    ++ Py.slice readme_content (Some end_idx) None in
  Run existing_urls existing_rows new_repos repos_by_url all_rows
    new_section new_readme.

(** [main]: [readme_content] is what is read from the README, and
    [new_readme] of the result is what is written to it; when an exception is
    raised nothing is written. *)
Definition main (readme_content : text) (api : text → response) : result run :=
  all_repos ←! search_all api SEARCH_QUERIES [];
  Ok (update_readme readme_content all_repos).

(** *** The README file

    The script opens the README in text mode with the default [newline]
    argument.  The README is taken to exist and to be readable and writable;
    the file is given as the text it holds, decoded. *)

(** [os.linesep]: ["\r\n"] on Windows, ["\n"] elsewhere. *)
Definition os_linesep (windows : bool) : text :=
  if windows then ["013"%char; "010"%char] else ["010"%char].

(** What reading in text mode does to the line ends: ["\r\n"] and a lone
    ["\r"] become ["\n"]. *)
Fixpoint universal_newlines (s : text) : text :=
  match s with
  | [] => []
  | c :: t =>
      if Ascii.eqb c "013" then
        match t with
        | d :: t' =>
            if Ascii.eqb d "010" then "010"%char :: universal_newlines t'
            else "010"%char :: universal_newlines t
        | [] => ["010"%char]
        end
      else c :: universal_newlines t
  end.

(** [with open(path, "r") as f: f.read()], for a file that holds
    [stored]. *)
Definition read_text (stored : text) : text := universal_newlines stored.

(** [with open(path, "w") as f: f.write(s)]: what the file holds afterwards;
    each ["\n"] is written as [linesep]. *)
Definition write_text (linesep s : text) : text :=
  s ≫= λ c, if Ascii.eqb c "010" then linesep else [c].

(** [main] with the README file around it: [stored] is what the file holds
    before the run, and the second component of the result is what it holds
    after the run. *)
Definition main_on_file (windows : bool) (stored : text)
    (api : text → response) : result (run * text) :=
  st ←! main (read_text stored) api;
  Ok (st, write_text (os_linesep windows) (new_readme st)).

(** ** Vocabulary of the statements *)

(** No canonical URL is found in more than one of the rows: listing, row
    after row, the canonical URLs found in each row gives no URL twice. *)
Definition no_shared_url (rows : list text) : Prop :=
  NoDup (rows ≫= λ row, elements (urls_in row)).

(** The repositories have pairwise different canonical URLs. *)
Definition distinct_urls (repos : list repo) : Prop :=
  NoDup ((λ r, canonical (html_url r)) <$> repos).

(** A repository as GitHub names it: the name is made of the characters of
    the class [[\w\-\.]], and the pattern matches the whole of [html_url]. *)
Definition github_named (r : repo) : bool :=
  forallb Re.url_class (name r)
  && bool_decide (Re.match_url (html_url r) = Some (html_url r)).

(** The row built for the repository is one line, also for a reader in
    text mode, to which a carriage return ends a line; and the end marker is
    not part of it. *)
Definition one_line_row (r : repo) : bool :=
  bool_decide ("010"%char ∉ default [] (description r))
  && bool_decide ("013"%char ∉ default [] (description r))
  && bool_decide (Py.find (build_table_row r) MARKER_END = -1).

(** No repository URL is found in the description as it is rendered. *)
Definition description_without_url (r : repo) : bool :=
  bool_decide (Re.search (render_description r) = None).

(** No repository URL is found in the stars column of the row. *)
Definition stars_without_url (row : text) : bool :=
  bool_decide (Re.search (nth 3 (Py.split "|" row) []) = None).

(** The README has its start marker, and not after its end marker. *)
Definition markers_in_order (readme_content : text) : bool :=
  (0 <=? Py.find readme_content MARKER_START)
  && (Py.find readme_content MARKER_START
      <=? Py.find readme_content MARKER_END).

(** Every repository URL found in the section is found in a table row. *)
Definition urls_in_rows (readme_content : text) : bool :=
  bool_decide (parse_existing_entries readme_content
               ⊆ ⋃ (urls_in <$> parse_table_rows readme_content)).

(** What lets a row of the section be read back as it was written: it is a
    table row, stripped, on one line, and does not contain the end marker. *)
Definition readable (row : text) : Prop :=
  is_table_row row = true ∧ Py.stripped row ∧ ("010"%char ∉ row)
  ∧ ¬ Py.contains row MARKER_END.

(** The text between the markers of a built section. *)
Definition section_body (rows : list text) : text :=
  "010"%char :: table_header ++ Py.join "010" rows ++ ["010"%char].

(** ** The outputs for GitHub Actions *)

(** The files that are written besides the README: path to content. *)
Abbreviation files := (gmap text text).

(** [with open(path, "a") as f: f.write(data)], for a file that can be
    opened: [data] is put after what the file holds, and a file that does
    not exist is created. *)
Definition append_file (path data : text) (fs : files) : files :=
  <[path := default [] (fs !! path) ++ data]> fs.

(** [environ] is [os.environ]; [value] is a [str] at both calls, so that
    [str(value)] is [value]. *)
Definition set_github_output (environ : gmap text text) (key value : text)
    (fs : files) : files :=
  let output_file := default [] (environ !! lit "GITHUB_OUTPUT") in
  match output_file with
  | _ :: _ =>
      if bool_decide ("010"%char ∈ value)
      then append_file output_file
             (key ++ lit "<<EOF" ++ "010"%char :: value
              ++ "010"%char :: lit "EOF" ++ ["010"%char]) fs
      else append_file output_file (key ++ "="%char :: value ++ ["010"%char]) fs
  | [] => fs
  end.

(** The line of [new_services_list] for one repository. *)
Definition services_line (r : repo) : text :=
  lit "- [" ++ full_name r ++ lit "](" ++ html_url r ++ lit ") ("
  ++ Py.str (stargazers_count r) ++ lit " stars)".

(** The end of [main]: the two outputs, set after the README is written. *)
Definition set_outputs (environ : gmap text text) (st : run) (fs : files)
  : files :=
  let fs :=
    set_github_output environ (lit "new_count")
      (Py.str (Z.of_nat (length (new_repos st)))) fs in
  let new_services_list := Py.join "010" (services_line <$> new_repos st) in
  set_github_output environ (lit "new_services")
    (match new_services_list with
     | _ :: _ => new_services_list
     | [] => lit "None"
     end) fs.

(** ** Concrete inputs

    Documents, repositories and API answers on which the theorems below are
    evaluated. *)
Module Examples.

Definition nl : text := ["010"%char].

Definition foo : repo :=
  Repo (lit "foo") (lit "a/foo") (lit "https://github.com/a/foo")
    (Some (lit "new desc")) 600 false false.

Definition bar : repo :=
  Repo (lit "bar") (lit "b/bar") (lit "https://github.com/b/bar")
    (Some (lit "Bar | thing")) 700 false false.

Definition foo_row : text :=
  lit "| [foo](https://github.com/a/foo) | desc | 500 |".

(** The README of the scenario of the specification: one listed row. *)
Definition readme : text :=
  lit "# Title" ++ nl ++ MARKER_START ++ nl ++ table_header
  ++ foo_row ++ nl ++ MARKER_END ++ nl ++ lit "tail".

(** The answer to one query. *)
Definition answer (items : list repo) : response :=
  Response 200 (JsonObject (Some items)).

Definition rate_limited : response := Response 403 NotJson.

Definition server_error : response := Response 500 NotJson.

Definition q_of (query : text) : text := query ++ lit " stars:>=1000".

(** An API that knows [foo] and [bar] under one query and is rate-limited
    on every other query. *)
Definition api (q : text) : response :=
  if bool_decide (q = q_of (lit "nanoGPT")) then answer [foo; bar]
  else rate_limited.

(** An API that fails on the last query. *)
Definition failing_api (q : text) : response :=
  if bool_decide (q = q_of (lit "nanotron")) then server_error
  else answer [foo].

(** A description of 101 characters: 100 letters and a trailing space. *)
Definition padded : repo :=
  Repo (lit "pad") (lit "p/pad") (lit "https://github.com/p/pad")
    (Some (replicate 100 "a"%char ++ lit " ")) 1500 false false.

(** A description of 120 characters. *)
Definition wordy : repo :=
  Repo (lit "wordy") (lit "w/wordy") (lit "https://github.com/w/wordy")
    (Some (replicate 60 "a"%char ++ lit "|" ++ replicate 59 "b"%char))
    1200 false false.

Definition a_fork : repo :=
  Repo (lit "foo") (lit "z/foo") (lit "https://github.com/z/foo")
    None 5000 true false.

Definition all_repos : list (text * repo) :=
  [(lit "a/foo", foo); (lit "b/bar", bar); (lit "z/foo", a_fork)].

Definition by_url : gmap text repo :=
  {[ lit "https://github.com/a/foo" := foo ]}.

(** A README whose section lists the same repository in two rows. *)
Definition readme_twice : text :=
  MARKER_START ++ nl ++ table_header ++ foo_row ++ nl ++ foo_row ++ nl
  ++ MARKER_END.

(** A README whose section names a repository in a line that is not a row
    of the table. *)
Definition readme_note : text :=
  MARKER_START ++ nl ++ table_header
  ++ lit "see also https://github.com/b/bar" ++ nl ++ MARKER_END.

(** An API that knows [bar] under one query and nothing else. *)
Definition bar_api (q : text) : response :=
  if bool_decide (q = q_of (lit "nanoGPT")) then answer [bar] else answer [].

(** An API that finds nothing. *)
Definition empty_api (q : text) : response := answer [].

(** What the searches of [api] and of [bar_api] aggregate to. *)
Definition found : list (text * repo) :=
  [(lit "a/foo", foo); (lit "b/bar", bar)].

Definition found_bar : list (text * repo) := [(lit "b/bar", bar)].

(** The two runs on [readme_note]. *)
Definition note_first : run := update_readme readme_note found_bar.
Definition note_second : run :=
  update_readme (new_readme note_first) found_bar.

(** A second record of [foo], under a full name that differs in case. *)
Definition foo_again : repo :=
  Repo (lit "foo") (lit "A/Foo") (lit "https://github.com/a/foo")
    (Some (lit "again")) 610 false false.

(** An archived repository under another full name whose URL has the
    canonical form of the URL of [foo]. *)
Definition foo_mirror : repo :=
  Repo (lit "foo") (lit "m/foo") (lit "https://github.com/A/Foo/")
    None 650 false true.

(** An API that answers two queries, the second with [foo_again] and
    [foo_mirror]. *)
Definition twice_api (q : text) : response :=
  if bool_decide (q = q_of (lit "nanoGPT")) then answer [foo; bar]
  else if bool_decide (q = q_of (lit "nanochat"))
       then answer [foo_again; foo_mirror]
       else answer [].

(** What the searches of [twice_api] aggregate to. *)
Definition found_twice : list (text * repo) :=
  [(lit "a/foo", foo); (lit "b/bar", bar); (lit "m/foo", foo_mirror)].

(** Fresh data in which the URL of [foo] has the record of [foo_mirror]. *)
Definition by_url_mirror : gmap text repo :=
  {[ lit "https://github.com/a/foo" := foo_mirror ]}.

(** [foo] with the star count of [foo_mirror]. *)
Definition foo_650 : repo :=
  Repo (lit "foo") (lit "a/foo") (lit "https://github.com/a/foo")
    (Some (lit "new desc")) 650 false false.

(** The file of [readme] with the line ends of Windows. *)
Definition readme_crlf : text := write_text (os_linesep true) readme.

(** An environment that names the output file. *)
Definition environ : gmap text text :=
  {[ lit "GITHUB_OUTPUT" := lit "/tmp/out" ]}.

End Examples.

(** * Properties *)

(** ** Characters *)

Ltac by_cases_on_char c :=
  destruct c as [[] [] [] [] [] [] [] []]; vm_compute; try done;
  intuition congruence.

(** Brings a concatenation into right-nested form. *)
Ltac list_norm :=
  repeat (rewrite <- app_assoc || rewrite <- app_comm_cons).

Lemma eqb_true_iff (a b : ascii) : Ascii.eqb a b = true ↔ a = b.
Proof. apply Ascii.eqb_eq. Qed.

Lemma eqb_false_iff (a b : ascii) : Ascii.eqb a b = false ↔ a ≠ b.
Proof. apply Ascii.eqb_neq. Qed.

(** ** Sorting *)
Section SortFacts.
Context {A : Type} (key : A → Z).

Lemma insert_desc_perm x l : Py.insert_desc key x l ≡ₚ x :: l.
Proof.
  induction l as [|y t IH]; simpl; [done|].
  case_match; [done|]. rewrite IH. apply Permutation_swap.
Qed.

Lemma sort_desc_perm l : Py.sort_desc key l ≡ₚ l.
Proof.
  induction l as [|x t IH]; simpl; [done|].
  by rewrite insert_desc_perm, IH.
Qed.

Lemma insert_desc_sorted x l :
  StronglySorted (Py.desc key) l → StronglySorted (Py.desc key) (Py.insert_desc key x l).
Proof.
  induction 1 as [|y t Hs IH Hy]; simpl.
  - repeat constructor.
  - case_match eqn:Hle.
    + apply Z.leb_le in Hle. constructor; [by constructor|].
      constructor; [done|].
      eapply Forall_impl; [exact Hy|]. unfold Py.desc. intros; lia.
    + apply Z.leb_gt in Hle. constructor; [done|].
      rewrite insert_desc_perm. constructor; [unfold Py.desc; lia | done].
Qed.

Lemma sort_desc_sorted l : StronglySorted (Py.desc key) (Py.sort_desc key l).
Proof.
  induction l; simpl; [constructor | by apply insert_desc_sorted].
Qed.

(** Sorting is stable, so a list already in order is left as it is. *)
Lemma sort_desc_id l : StronglySorted (Py.desc key) l → Py.sort_desc key l = l.
Proof.
  induction 1 as [|x t Hs IH Hx]; simpl; [done|].
  rewrite IH. destruct Hx as [|y t' Hy _]; simpl; [done|].
  unfold Py.desc in Hy. by rewrite (proj2 (Z.leb_le _ _) Hy).
Qed.
End SortFacts.

(** ** Strings: prefixes, [find] and slices *)
Section FindFacts.
Implicit Types s sub a b : text.

Lemma startswith_spec s sub : Py.startswith s sub = true ↔ ∃ r, s = sub ++ r.
Proof.
  revert s. induction sub as [|c sub IH]; intros s; simpl.
  - split; [eauto | done].
  - destruct s as [|d s]; [split; [done | intros [r Hr]; discriminate]|].
    rewrite andb_true_iff, eqb_true_iff, IH. split.
    + intros [-> [r ->]]. eauto.
    + intros [r Hr]. injection Hr as -> ->. eauto.
Qed.

Lemma occurs_at_0 s sub : Py.occurs_at s sub 0 ↔ Py.startswith s sub = true.
Proof.
  rewrite startswith_spec. split.
  - intros (a & b & -> & Ha). destruct a; [eauto | done].
  - intros [r ->]. by exists [], r.
Qed.

Lemma occurs_at_S c s sub i :
  Py.occurs_at (c :: s) sub (S i) ↔ Py.occurs_at s sub i.
Proof.
  split.
  - intros (a & b & Hs & Ha). destruct a as [|c' a]; [done|].
    injection Hs as -> ->. exists a, b. split; [done | by injection Ha].
  - intros (a & b & -> & <-). by exists (c :: a), b.
Qed.

Lemma occurs_at_nil sub i : Py.occurs_at [] sub i → i = 0%nat.
Proof. intros (a & b & Hs & <-). by destruct a. Qed.

Lemma find_nat_sound s sub i :
  Py.find_nat s sub = Some i → Py.first_at s sub i.
Proof.
  revert i. induction s as [|c s IH]; intros i; simpl;
    destruct (Py.startswith _ sub) eqn:Hp; try done.
  1,2: intros [= <-]; split; [by apply occurs_at_0 | intros; lia].
  destruct (Py.find_nat s sub) as [k|]; [|done].
  intros [= <-]. destruct (IH k eq_refl) as [Hocc Hmin].
  split; [by apply occurs_at_S|].
  intros [|j] Hj; [apply occurs_at_0 in Hj; congruence|].
  apply occurs_at_S, Hmin in Hj. lia.
Qed.

Lemma find_nat_None s sub i :
  Py.find_nat s sub = None → ¬ Py.occurs_at s sub i.
Proof.
  revert i. induction s as [|c s IH]; intros i; simpl;
    destruct (Py.startswith _ sub) eqn:Hp; try done.
  - intros _ Hocc. pose proof (occurs_at_nil _ _ Hocc) as ->.
    apply occurs_at_0 in Hocc. congruence.
  - destruct (Py.find_nat s sub) as [k|]; [done|]. intros _ Hocc.
    destruct i as [|i]; [apply occurs_at_0 in Hocc; congruence|].
    apply occurs_at_S in Hocc. by eapply IH.
Qed.

Lemma find_nat_complete s sub i :
  Py.first_at s sub i → Py.find_nat s sub = Some i.
Proof.
  intros [Hocc Hmin]. destruct (Py.find_nat s sub) as [k|] eqn:Hf.
  - apply find_nat_sound in Hf as [Hk Hkmin].
    f_equal. apply Hmin in Hk. apply Hkmin in Hocc. lia.
  - by apply find_nat_None with (i := i) in Hf.
Qed.

Lemma find_found s sub i :
  Py.find_nat s sub = Some i → Py.find s sub = Z.of_nat i.
Proof. unfold Py.find. by intros ->. Qed.

Lemma find_missing s sub : Py.find s sub = -1 ↔ Py.find_nat s sub = None.
Proof. unfold Py.find. destruct (Py.find_nat s sub); split; (done || lia). Qed.

Lemma find_cases s sub :
  (Py.find s sub = -1 ∧ Py.find_nat s sub = None)
  ∨ (∃ i, Py.find s sub = Z.of_nat i ∧ Py.find_nat s sub = Some i).
Proof. unfold Py.find. destruct (Py.find_nat s sub); eauto. Qed.

Lemma find_of_nat s sub i :
  Py.find s sub = Z.of_nat i → Py.first_at s sub i.
Proof.
  destruct (find_cases s sub) as [[Hm _]|(j & Hj & Hf)].
  - rewrite Hm. lia.
  - rewrite Hj. intros ->%Nat2Z.inj. by apply find_nat_sound.
Qed.

Lemma occurs_at_length s sub i :
  Py.occurs_at s sub i → (i + length sub ≤ length s)%nat.
Proof. intros (a & b & -> & <-). rewrite !length_app. lia. Qed.

Lemma occurs_at_split s sub i :
  Py.occurs_at s sub i →
  s = take i s ++ sub ++ drop (i + length sub) s.
Proof.
  intros (a & b & -> & <-).
  rewrite take_app_length, drop_app_add', drop_app_length; done.
Qed.

(** Slices with bounds that are in range. *)
Lemma clamp_of_nat n i : Py.clamp n (Z.of_nat i) = Nat.min i n.
Proof.
  unfold Py.clamp. destruct (Z.ltb_spec (Z.of_nat i) 0); [lia|].
  by rewrite Nat2Z.id.
Qed.

Lemma slice_to s i : Py.slice s None (Some (Z.of_nat i)) = take i s.
Proof.
  unfold Py.slice; simpl. rewrite clamp_of_nat, Nat.sub_0_r, drop_0.
  destruct (Nat.min_spec i (length s)) as [[_ ->]|[Hle ->]]; [done|].
  by rewrite !take_ge by lia.
Qed.

Lemma slice_from s i : Py.slice s (Some (Z.of_nat i)) None = drop i s.
Proof.
  unfold Py.slice; simpl. rewrite clamp_of_nat.
  rewrite take_ge by (rewrite length_drop; lia).
  destruct (Nat.min_spec i (length s)) as [[_ ->]|[Hle ->]]; [done|].
  by rewrite !drop_ge by lia.
Qed.

Lemma slice_between s i j :
  (i ≤ j ≤ length s)%nat →
  Py.slice s (Some (Z.of_nat i)) (Some (Z.of_nat j)) = take (j - i) (drop i s).
Proof.
  intros H. unfold Py.slice; simpl. rewrite !clamp_of_nat.
  by rewrite !Nat.min_l by lia.
Qed.

(** A slice that starts at an occurrence starts with what occurs there. *)
Lemma slice_after_prefix a m y (e : nat) :
  (length a + length m ≤ e)%nat →
  Py.slice (a ++ m ++ y) (Some (Z.of_nat (length a))) (Some (Z.of_nat e))
  = m ++ Py.slice (a ++ m ++ y)
           (Some (Z.of_nat (length a + length m))) (Some (Z.of_nat e)).
Proof.
  intros He. unfold Py.slice. cbn [from_option]. rewrite !clamp_of_nat.
  rewrite !length_app.
  set (h := Nat.min e (length a + (length m + length y))).
  rewrite !Nat.min_l by lia.
  rewrite drop_app_length.
  rewrite (app_assoc a m y), drop_app_length' by (rewrite length_app; lia).
  rewrite take_app_ge by lia. f_equal. f_equal. lia.
Qed.

(** [s[:-1]] drops the last character. *)
Lemma slice_to_minus_1 s :
  Py.slice s None (Some (-1)) = take (length s - 1) s.
Proof.
  unfold Py.slice, Py.clamp; simpl. rewrite Nat.sub_0_r, drop_0. f_equal. lia.
Qed.
End FindFacts.

(** ** [split] and [join] *)
Section SplitFacts.
Context (sep : ascii).
Implicit Types s p : text.
Implicit Types parts : list text.

Lemma split_not_nil s : Py.split sep s ≠ [].
Proof.
  destruct s as [|c s]; simpl; [done|].
  destruct (Ascii.eqb c sep); [done|]. by destruct (Py.split sep s).
Qed.

Lemma join_cons p parts :
  parts ≠ [] → Py.join sep (p :: parts) = p ++ sep :: Py.join sep parts.
Proof. by destruct parts. Qed.

Lemma split_no_sep s : sep ∉ s → Py.split sep s = [s].
Proof.
  induction s as [|c s IH]; simpl; [done|]. intros Hnot.
  apply not_elem_of_cons in Hnot as [Hc Hs].
  rewrite (proj2 (eqb_false_iff c sep)) by done. by rewrite IH.
Qed.

Lemma split_app p s :
  sep ∉ p → Py.split sep (p ++ sep :: s) = p :: Py.split sep s.
Proof.
  induction p as [|c p IH]; simpl; intros Hnot.
  - by rewrite Ascii.eqb_refl.
  - apply not_elem_of_cons in Hnot as [Hc Hp].
    rewrite (proj2 (eqb_false_iff c sep)) by done. by rewrite IH.
Qed.

(** Joining what was split gives the string back. *)
Lemma join_split s : Py.join sep (Py.split sep s) = s.
Proof.
  induction s as [|c s IH]; simpl; [done|].
  destruct (Ascii.eqb_spec c sep) as [->|Hne].
  - rewrite join_cons by apply split_not_nil. by rewrite IH.
  - pose proof (split_not_nil s) as Hnil.
    destruct (Py.split sep s) as [|p ps]; [done|].
    destruct ps; simpl in *; by rewrite <- IH.
Qed.

(** No part of a split contains the separator. *)
Lemma split_parts_no_sep s : Forall (λ p, sep ∉ p) (Py.split sep s).
Proof.
  induction s as [|c s IH]; simpl.
  - repeat constructor. apply not_elem_of_nil.
  - destruct (Ascii.eqb_spec c sep) as [->|Hne].
    + constructor; [apply not_elem_of_nil | done].
    + pose proof (split_not_nil s) as Hnil.
      destruct (Py.split sep s) as [|p ps]; [done|].
      inversion IH; subst. constructor; [|done].
      by apply not_elem_of_cons.
Qed.

(** Splitting what was joined from separator-free parts gives them back. *)
Lemma split_join parts :
  parts ≠ [] → Forall (λ p, sep ∉ p) parts →
  Py.split sep (Py.join sep parts) = parts.
Proof.
  induction parts as [|p parts IH]; [done|]. intros _ Hall.
  inversion Hall as [|? ? Hp Hparts]; subst.
  destruct parts as [|q parts].
  - simpl. by apply split_no_sep.
  - rewrite join_cons by done. rewrite split_app by done.
    by rewrite IH.
Qed.

End SplitFacts.

(** ** [str] of an integer, and stripping *)

Lemma uint_chars d :
  Forall (λ c, Py.isdecimal c = true)
    (list_ascii_of_string (NilEmpty.string_of_uint d)).
Proof. induction d; simpl; constructor; done. Qed.

Lemma str_chars n :
  Forall (λ c, Py.isdecimal c = true ∨ c = "-"%char) (Py.str n).
Proof.
  unfold Py.str, lit, NilZero.string_of_int.
  assert (∀ d, Forall (λ c, Py.isdecimal c = true ∨ c = "-"%char)
                 (list_ascii_of_string (NilZero.string_of_uint d))) as Hu.
  { intros d. unfold NilZero.string_of_uint.
    destruct d; try (eapply Forall_impl; [apply uint_chars | by left]).
    repeat constructor. }
  destruct (Z.to_int n) as [d|d]; [apply Hu|].
  simpl. constructor; [by right | apply Hu].
Qed.

Lemma str_no_pipe n : "|"%char ∉ Py.str n.
Proof.
  intros Hin. pose proof (str_chars n) as Hall.
  rewrite Forall_forall in Hall. destruct (Hall _ Hin) as [H|H]; done.
Qed.

Lemma lstrip_with_suffix p s : ∃ a, s = a ++ Py.lstrip_with p s.
Proof.
  induction s as [|c s [a IH]]; simpl; [by exists []|].
  destruct (p c); [|by exists []]. exists (c :: a). simpl. by f_equal.
Qed.

Lemma rstrip_with_prefix p s : ∃ b, s = Py.rstrip_with p s ++ b.
Proof.
  unfold Py.rstrip_with. destruct (lstrip_with_suffix p (reverse s)) as [a Ha].
  exists (reverse a). rewrite <- reverse_app, <- Ha.
  by rewrite reverse_involutive.
Qed.

(** A stripped string is a piece of the original. *)
Lemma strip_infix s : ∃ a b, s = a ++ Py.strip s ++ b.
Proof.
  unfold Py.strip. destruct (lstrip_with_suffix Py.isspace s) as [a Ha].
  destruct (rstrip_with_prefix Py.isspace (Py.lstrip_with Py.isspace s))
    as [b Hb].
  exists a, b. by rewrite <- Hb.
Qed.

Lemma elem_of_strip c s : c ∈ Py.strip s → c ∈ s.
Proof.
  destruct (strip_infix s) as (a & b & Hs). intros Hc. rewrite Hs.
  rewrite !elem_of_app. auto.
Qed.

Lemma replace_char_gone a b s : a ≠ b → a ∉ Py.replace_char a b s.
Proof.
  intros Hne. unfold Py.replace_char. rewrite list_elem_of_fmap.
  intros (c & Hc & _). destruct (Ascii.eqb_spec c a); congruence.
Qed.

Lemma lstrip_with_head p s c :
  head (Py.lstrip_with p s) = Some c → p c = false.
Proof.
  induction s as [|d s IH]; simpl; [done|].
  destruct (p d) eqn:Hd; [done|]. simpl. by intros [= <-].
Qed.

Lemma lstrip_with_fixed p s :
  (∀ c, head s = Some c → p c = false) → Py.lstrip_with p s = s.
Proof.
  destruct s as [|d s]; simpl; [done|]. intros H. by rewrite (H d).
Qed.

Lemma lstrip_with_snoc p s c :
  p c = false → Py.lstrip_with p (s ++ [c]) = Py.lstrip_with p s ++ [c].
Proof.
  intros Hc. induction s as [|d s IH]; simpl; [by rewrite Hc|].
  by destruct (p d).
Qed.

Lemma rstrip_with_last p s c :
  last (Py.rstrip_with p s) = Some c → p c = false.
Proof.
  unfold Py.rstrip_with. rewrite last_reverse. apply lstrip_with_head.
Qed.

Lemma rstrip_with_fixed p s :
  (∀ c, last s = Some c → p c = false) → Py.rstrip_with p s = s.
Proof.
  intros H. unfold Py.rstrip_with. rewrite lstrip_with_fixed.
  - apply reverse_involutive.
  - intros c. rewrite head_reverse. apply H.
Qed.

Lemma rstrip_with_head p s c :
  (∀ d, head s = Some d → p d = false) →
  head (Py.rstrip_with p s) = Some c → p c = false.
Proof.
  intros Hs. destruct s as [|d s]; [done|].
  unfold Py.rstrip_with. rewrite reverse_cons.
  rewrite lstrip_with_snoc by (by apply Hs).
  rewrite reverse_snoc. simpl. intros [= <-]. by apply Hs.
Qed.

(** What [strip] returns has no whitespace at either end, and such a string
    is left alone by [strip]. *)
Lemma strip_stripped s : Py.stripped (Py.strip s).
Proof.
  unfold Py.strip. split; intros c.
  - apply rstrip_with_head. apply lstrip_with_head.
  - apply rstrip_with_last.
Qed.

Lemma stripped_strip s : Py.stripped s → Py.strip s = s.
Proof.
  intros [Hh Hl]. unfold Py.strip.
  rewrite (lstrip_with_fixed _ _ Hh). by apply rstrip_with_fixed.
Qed.

(** Whitespace around a stripped, non-empty string is what [strip] removes. *)
Lemma strip_padded a s b :
  Forall (λ c, Py.isspace c = true) a →
  Forall (λ c, Py.isspace c = true) b →
  Py.stripped s → s ≠ [] → Py.strip (a ++ s ++ b) = s.
Proof.
  intros Ha Hb [Hh Hl] Hne. unfold Py.strip.
  assert (Py.lstrip_with Py.isspace (a ++ s ++ b) = s ++ b) as ->.
  { induction Ha as [|c a Hc _ IH]; simpl; [|by rewrite Hc].
    destruct s as [|d s]; [done|]. simpl. by rewrite (Hh d). }
  unfold Py.rstrip_with. rewrite reverse_app.
  assert (Py.lstrip_with Py.isspace (reverse b ++ reverse s) = reverse s)
    as ->; [|apply reverse_involutive].
  apply Forall_reverse in Hb.
  induction Hb as [|c b' Hc _ IH]; simpl; [|by rewrite Hc].
  apply lstrip_with_fixed. intros c. rewrite head_reverse. apply Hl.
Qed.

(** ** The regular expression *)
Section RegexFacts.
Implicit Types s x y m : text.

Lemma url_literal_chars : Forall (λ c, Re.url_char c = true) Re.url_literal.
Proof. by repeat constructor. Qed.

Lemma url_class_char c : Re.url_class c = true → Re.url_char c = true.
Proof. unfold Re.url_char. by intros ->. Qed.

Lemma strip_prefix_Some p s r : Re.strip_prefix p s = Some r ↔ s = p ++ r.
Proof.
  revert s. induction p as [|a p IH]; intros s; simpl.
  - split; [by intros [= ->] | by intros ->].
  - destruct s as [|b s]; [done|].
    destruct (Ascii.eqb_spec a b) as [->|Hne].
    + rewrite IH. split; [by intros -> | by intros [= ->]].
    + split; [done | intros [= -> _]; done].
Qed.

(** A character that no match can contain ends a match like the end of the
    string does. *)
Lemma strip_prefix_cut p x c y :
  Forall (λ a, Re.url_char a = true) p → Re.url_char c = false →
  Re.strip_prefix p (x ++ c :: y)
  = (λ r, r ++ c :: y) <$> Re.strip_prefix p x.
Proof.
  intros Hp Hc. revert x. induction Hp as [|a p Ha Hp IH]; intros x; [done|].
  destruct x as [|b x]; simpl.
  - destruct (Ascii.eqb_spec a c) as [->|_]; [congruence | done].
  - destruct (Ascii.eqb a b); [apply IH | done].
Qed.

Lemma span_app p s : (Re.span p s).1 ++ (Re.span p s).2 = s.
Proof.
  induction s as [|c s IH]; simpl; [done|].
  destruct (p c); simpl; [|done]. destruct (Re.span p s). simpl in *.
  by f_equal.
Qed.

Lemma span_fst_all p s : Forall (λ c, p c = true) (Re.span p s).1.
Proof.
  induction s as [|c s IH]; simpl; [constructor|].
  destruct (p c) eqn:Hc; simpl; [|constructor].
  destruct (Re.span p s). by constructor.
Qed.

Lemma span_cut p x c y :
  p c = false →
  Re.span p (x ++ c :: y) = ((Re.span p x).1, (Re.span p x).2 ++ c :: y).
Proof.
  intros Hc. induction x as [|b x IH]; simpl; [by rewrite Hc|].
  destruct (p b); [|done]. rewrite IH. by destruct (Re.span p x).
Qed.

Lemma match_url_cut x c y :
  Re.url_char c = false → Re.match_url (x ++ c :: y) = Re.match_url x.
Proof.
  intros Hc. unfold Re.match_url.
  rewrite (strip_prefix_cut _ _ _ _ url_literal_chars Hc).
  destruct (Re.strip_prefix Re.url_literal x) as [rest|]; simpl; [|done].
  assert (Re.url_class c = false) as Hclass.
  { destruct (Re.url_class c) eqn:E; [|done].
    apply url_class_char in E. congruence. }
  rewrite (span_cut _ _ _ _ Hclass).
  destruct (Re.span Re.url_class rest) as [owner rest'] eqn:Hspan. simpl.
  destruct owner as [|o owner]; [by destruct rest'|].
  destruct rest' as [|d rest']; simpl.
  - destruct (Ascii.eqb_spec c "/") as [->|_]; [done|done].
  - destruct (Ascii.eqb d "/"); [|done].
    by rewrite (span_cut _ _ _ _ Hclass).
Qed.

(** A match is a prefix of the text, made of URL characters, with a colon. *)
Lemma match_url_inv s m :
  Re.match_url s = Some m →
  (∃ rest, s = m ++ rest)
  ∧ Forall (λ c, Re.url_char c = true) m
  ∧ ":"%char ∈ m
  ∧ (∃ m' c, m = m' ++ [c] ∧ Re.url_class c = true).
Proof.
  unfold Re.match_url.
  destruct (Re.strip_prefix Re.url_literal s) as [rest|] eqn:Hpre; [|done].
  apply strip_prefix_Some in Hpre as ->. cbn [mbind option_bind].
  pose proof (span_app Re.url_class rest) as Hrest.
  pose proof (span_fst_all Re.url_class rest) as Howner.
  destruct (Re.span Re.url_class rest) as [owner rest1]. cbn [fst snd] in *.
  destruct owner as [|o owner]; [by destruct rest1|].
  destruct rest1 as [|d rest1]; [done|].
  destruct (Ascii.eqb_spec d "/") as [->|]; [|done].
  pose proof (span_app Re.url_class rest1) as Hrest1.
  pose proof (span_fst_all Re.url_class rest1) as Hname.
  destruct (Re.span Re.url_class rest1) as [nm rest2]. cbn [fst snd] in *.
  destruct nm as [|n nm]; [done|]. intros Hm. apply (inj Some) in Hm.
  subst m.
  split; [|split; [|split]].
  - exists rest2. rewrite <- Hrest, <- Hrest1. by list_norm.
  - apply Forall_app. split; [apply url_literal_chars|].
    apply Forall_app. split.
    + eapply Forall_impl; [exact Howner|]. apply url_class_char.
    + constructor; [done|].
      eapply Forall_impl; [exact Hname|]. apply url_class_char.
  - apply elem_of_app. left. unfold Re.url_literal, lit. cbn.
    do 5 apply list_elem_of_further. apply list_elem_of_here.
  - destruct (exists_last (l := n :: nm)) as (m' & c & Hlast); [done|].
    exists (Re.url_literal ++ (o :: owner) ++ "/"%char :: m'), c.
    split.
    + rewrite Hlast. by list_norm.
    + rewrite Hlast in Hname. apply Forall_app in Hname as [_ Hc].
      by inversion Hc.
Qed.
End RegexFacts.

(** ** Scanning a text for matches *)
Section ScanFacts.
Implicit Types s x y m : text.

Lemma match_url_length s m :
  Re.match_url s = Some m → (1 ≤ length m ≤ length s)%nat.
Proof.
  intros Hm. apply match_url_inv in Hm as ([rest ->] & _ & _ & Hlast).
  destruct Hlast as (m' & c & -> & _).
  rewrite !length_app. simpl. lia.
Qed.

Lemma match_url_non_url_char c s :
  Re.url_char c = false → Re.match_url (c :: s) = None.
Proof.
  intros Hc. destruct (Re.match_url (c :: s)) as [m|] eqn:Hm; [|done].
  apply match_url_inv in Hm as ([rest Hs] & Hall & _ & (m' & d & -> & _)).
  destruct m' as [|e m']; simpl in Hs; injection Hs as -> _;
    apply Forall_cons in Hall as [Hall _]; congruence.
Qed.

Lemma finditer_from_short k s :
  (length s ≤ k)%nat → Re.finditer_from k s = [].
Proof.
  revert k. induction s as [|c s IH]; intros k Hk; simpl; [done|].
  destruct k as [|k]; simpl in Hk; [lia|]. apply IH. lia.
Qed.

(** A character that no match can contain separates the matches before it
    from the matches after it. *)
Lemma finditer_from_cut k x c y :
  Re.url_char c = false → (k ≤ length x)%nat →
  Re.finditer_from k (x ++ c :: y) = Re.finditer_from k x ++ Re.finditer y.
Proof.
  intros Hc. revert k. induction x as [|b x IH]; intros k Hk.
  - destruct k; [|simpl in Hk; lia]. simpl app.
    unfold Re.finditer. cbn [Re.finditer_from].
    by rewrite match_url_non_url_char.
  - cbn [app Re.finditer_from]. destruct k as [|k].
    + change (b :: x ++ c :: y) with ((b :: x) ++ c :: y).
      rewrite match_url_cut by done.
      destruct (Re.match_url (b :: x)) as [m|] eqn:Hm.
      * apply match_url_length in Hm. simpl in Hm.
        rewrite IH by lia. done.
      * apply IH. lia.
    + apply IH. simpl in Hk. lia.
Qed.

Lemma finditer_cut x c y :
  Re.url_char c = false →
  Re.finditer (x ++ c :: y) = Re.finditer x ++ Re.finditer y.
Proof. intros Hc. apply finditer_from_cut; [done | lia]. Qed.

Lemma finditer_nil : Re.finditer [] = [].
Proof. reflexivity. Qed.

Lemma finditer_skip c s :
  Re.url_char c = false → Re.finditer (c :: s) = Re.finditer s.
Proof. intros Hc. apply (finditer_cut [] c s Hc). Qed.

Lemma finditer_snoc s c :
  Re.url_char c = false → Re.finditer (s ++ [c]) = Re.finditer s.
Proof.
  intros Hc. rewrite finditer_cut by done. by rewrite finditer_nil, app_nil_r.
Qed.

(** Matches in a text joined from parts lie within the parts. *)
Lemma finditer_join c parts :
  Re.url_char c = false →
  Re.finditer (Py.join c parts) = concat (Re.finditer <$> parts).
Proof.
  intros Hc. induction parts as [|p parts IH]; [done|].
  destruct parts as [|q parts].
  - simpl. by rewrite app_nil_r.
  - rewrite join_cons by done. rewrite finditer_cut by done.
    by rewrite IH.
Qed.

(** A text without a colon has no match. *)
Lemma finditer_from_no_colon k s :
  ":"%char ∉ s → Re.finditer_from k s = [].
Proof.
  revert k. induction s as [|c s IH]; intros k Hs; [done|].
  cbn [Re.finditer_from]. apply not_elem_of_cons in Hs as [Hc Hs].
  destruct k; [|by apply IH].
  destruct (Re.match_url (c :: s)) as [m|] eqn:Hm; [|by apply IH].
  apply match_url_inv in Hm as ([rest Heq] & _ & Hcolon & _).
  exfalso. assert (":"%char ∈ c :: s) as Hin.
  { rewrite Heq. apply elem_of_app. by left. }
  apply elem_of_cons in Hin as [?|?]; done.
Qed.

Lemma finditer_no_colon s : ":"%char ∉ s → Re.finditer s = [].
Proof. apply finditer_from_no_colon. Qed.

(** A text that is one match from start to end. *)
Lemma finditer_whole s : Re.match_url s = Some s → Re.finditer s = [s].
Proof.
  intros Hm. pose proof (match_url_length _ _ Hm) as Hlen.
  destruct s as [|c s]; [simpl in Hlen; lia|].
  unfold Re.finditer. cbn [Re.finditer_from]. rewrite Hm. f_equal.
  apply finditer_from_short. simpl. lia.
Qed.

(** [search] finds the first match of [finditer]. *)
Lemma search_head s : Re.search s = head (Re.finditer s).
Proof.
  unfold Re.finditer. induction s as [|c s IH]; [done|].
  cbn [Re.search Re.finditer_from].
  destruct (Re.match_url (c :: s)); [done | exact IH].
Qed.

Lemma search_None s : Re.search s = None ↔ Re.finditer s = [].
Proof. rewrite search_head. by destruct (Re.finditer s). Qed.

(** Stripping whitespace loses no match. *)
Lemma finditer_lstrip s :
  Re.finditer (Py.lstrip_with Py.isspace s) = Re.finditer s.
Proof.
  induction s as [|c s IH]; [done|]. simpl.
  destruct (Py.isspace c) eqn:Hc; [|done].
  rewrite IH. symmetry. apply finditer_skip. revert Hc. by_cases_on_char c.
Qed.

Lemma finditer_rstrip s :
  Re.finditer (Py.rstrip_with Py.isspace s) = Re.finditer s.
Proof.
  unfold Py.rstrip_with. rewrite <- (reverse_involutive s) at 2.
  induction (reverse s) as [|c t IH]; [done|]. simpl.
  destruct (Py.isspace c) eqn:Hc; [|done].
  rewrite IH, reverse_cons. symmetry. apply finditer_snoc.
  revert Hc. by_cases_on_char c.
Qed.

Lemma finditer_strip s : Re.finditer (Py.strip s) = Re.finditer s.
Proof. unfold Py.strip. by rewrite finditer_rstrip, finditer_lstrip. Qed.
End ScanFacts.

(** ** The URLs of a text *)

Lemma urls_in_cut x c y :
  Re.url_char c = false → urls_in (x ++ c :: y) = urls_in x ∪ urls_in y.
Proof.
  intros Hc. unfold urls_in. rewrite finditer_cut by done.
  by rewrite fmap_app, list_to_set_app_L.
Qed.

Lemma urls_in_join c parts :
  Re.url_char c = false →
  urls_in (Py.join c parts) = ⋃ (urls_in <$> parts).
Proof.
  intros Hc. unfold urls_in. rewrite finditer_join by done.
  induction parts as [|p parts IH]; [done|].
  rewrite !fmap_cons. cbn [concat]. rewrite fmap_app, list_to_set_app_L, IH.
  done.
Qed.

Lemma urls_in_strip s : urls_in (Py.strip s) = urls_in s.
Proof. unfold urls_in. by rewrite finditer_strip. Qed.

Lemma foldl_add_urls (l : list text) (acc : gset text) :
  foldl (λ urls m, {[ canonical m ]} ∪ urls) acc l
  = list_to_set (canonical <$> l) ∪ acc.
Proof.
  revert acc. induction l as [|m l IH]; intros acc; simpl.
  - by rewrite union_empty_l_L.
  - rewrite IH.
    by rewrite (comm_L (∪) {[canonical m]} (list_to_set _)), (assoc_L (∪)).
Qed.

(** What [parse_existing_entries] returns when both markers are found. *)
Lemma parse_existing_entries_found readme_content s e :
  Py.find readme_content MARKER_START = Z.of_nat s →
  Py.find readme_content MARKER_END = Z.of_nat e →
  parse_existing_entries readme_content
  = urls_in (Py.slice readme_content (Some (Z.of_nat s)) (Some (Z.of_nat e))).
Proof.
  intros Hs He. unfold parse_existing_entries. rewrite Hs, He.
  destruct (Z.eqb_spec (Z.of_nat s) (-1)); [lia|].
  destruct (Z.eqb_spec (Z.of_nat e) (-1)); [lia|].
  cbn [orb]. rewrite foldl_add_urls. unfold urls_in.
  by rewrite union_empty_r_L.
Qed.

(** ** Occurrences of a substring *)
Section OccursFacts.
Implicit Types s sub a b x y : text.

Lemma contains_app_l a s sub : Py.contains s sub → Py.contains (a ++ s) sub.
Proof.
  intros (i & u & v & -> & _). exists (length (a ++ u)), (a ++ u), v.
  split; [by list_norm | done].
Qed.

Lemma contains_app_r s b sub : Py.contains s sub → Py.contains (s ++ b) sub.
Proof.
  intros (i & u & v & -> & _). exists (length u), u, (v ++ b).
  split; [by list_norm | done].
Qed.

Lemma contains_infix a s b sub :
  Py.contains s sub → Py.contains (a ++ s ++ b) sub.
Proof. intros H. by apply contains_app_l, contains_app_r. Qed.

Lemma contains_elem s sub c : Py.contains s sub → c ∈ sub → c ∈ s.
Proof.
  intros (i & u & v & -> & _) Hc. rewrite !elem_of_app. auto.
Qed.

Lemma contains_strip s sub : Py.contains (Py.strip s) sub → Py.contains s sub.
Proof.
  destruct (strip_infix s) as (a & b & Hs). intros H. rewrite Hs.
  by apply contains_infix.
Qed.

(** A character that is not in [sub] separates its occurrences. *)
Lemma contains_cut x c y sub :
  c ∉ sub → Py.contains (x ++ c :: y) sub →
  Py.contains x sub ∨ Py.contains y sub.
Proof.
  intros Hc (i & u & v & Heq & _).
  apply app_eq_inv in Heq as [(k & -> & Hv)|(k & -> & Hk)].
  - left. apply app_eq_inv in Hv as [(k' & -> & Hk')|(k' & -> & _)].
    + destruct k' as [|d k'].
      * exists (length u), u, []. by rewrite !app_nil_r.
      * simpl in Hk'. injection Hk' as <- _. exfalso. apply Hc.
        apply elem_of_app. right. left.
    + exists (length u), u, k'. split; [by list_norm | done].
  - destruct k as [|d k].
    + simpl in Hk. destruct sub as [|d sub].
      * left. by exists 0%nat, [], x.
      * simpl in Hk. injection Hk as -> _. exfalso. apply Hc. left.
    + simpl in Hk. injection Hk as <- ->. right.
      by exists (length k), k, v.
Qed.

Lemma contains_join c parts sub :
  c ∉ sub → sub ≠ [] → Py.contains (Py.join c parts) sub →
  ∃ p, p ∈ parts ∧ Py.contains p sub.
Proof.
  intros Hc Hne. induction parts as [|p parts IH].
  - intros (i & u & v & Heq & _). simpl in Heq.
    destruct u, sub; done.
  - destruct parts as [|q parts].
    + simpl. intros H. exists p. split; [left | done].
    + rewrite join_cons by done. intros H.
      apply contains_cut in H as [H|H]; [| |done].
      * exists p. split; [left | done].
      * destruct (IH H) as (p' & Hp' & Hsub). exists p'.
        split; [by right | done].
Qed.

Lemma contains_part c parts p sub :
  p ∈ parts → Py.contains p sub → Py.contains (Py.join c parts) sub.
Proof.
  intros Hp Hsub. induction parts as [|q parts IH];
    [by apply elem_of_nil in Hp|].
  destruct parts as [|q' parts].
  - apply elem_of_cons in Hp as [->|Hp]; [done|].
    by apply elem_of_nil in Hp.
  - rewrite join_cons by done.
    apply elem_of_cons in Hp as [->|Hp].
    + by apply contains_app_r.
    + apply contains_app_l, (contains_app_l [c]). by apply IH.
Qed.

Lemma occurs_at_app_r p y sub j :
  Py.occurs_at p sub j → Py.occurs_at (p ++ y) sub j.
Proof.
  intros (u & v & -> & <-). exists u, (v ++ y). split; [by list_norm | done].
Qed.

(** An occurrence that starts after a prefix is an occurrence in the rest. *)
Lemma occurs_at_suffix p y sub j :
  Py.occurs_at (p ++ y) sub j → (length p ≤ j)%nat →
  Py.occurs_at y sub (j - length p).
Proof.
  intros (u & v & Heq & <-) Hlen.
  apply app_eq_inv in Heq as [(k & Hp & Hy)|(k & -> & ->)].
  - assert (k = []) as ->.
    { apply (f_equal length) in Hp. rewrite !length_app in Hp.
      destruct k; [done | simpl in Hp; lia]. }
    rewrite app_nil_r in Hp. subst p. rewrite Nat.sub_diag.
    simpl in Hy. by exists [], v.
  - exists k, v. split; [done|]. rewrite length_app. lia.
Qed.

(** When the first character of [sub] does not occur again in [sub], an
    occurrence of [sub] that starts before another occurrence of that
    character ends before it. *)
Lemma occurs_at_before c sub' a b j :
  c ∉ sub' → Py.occurs_at (a ++ c :: b) (c :: sub') j → (j < length a)%nat →
  Py.occurs_at a (c :: sub') j.
Proof.
  intros Hc (u & v & Heq & <-) Hlt.
  apply app_eq_inv in Heq as [(k & -> & Hv)|(k & -> & _)];
    [|rewrite length_app in Hlt; lia].
  destruct k as [|d k]; [rewrite app_nil_r in Hlt; lia|].
  simpl in Hv. injection Hv as <- Hv.
  apply app_eq_inv in Hv as [(k' & Hsub & Hb)|(k' & -> & _)].
  - destruct k' as [|d' k'].
    + rewrite app_nil_r in Hsub. subst sub'.
      exists u, []. by rewrite app_nil_r.
    + simpl in Hb. injection Hb as <- _. exfalso. apply Hc.
      rewrite Hsub. apply elem_of_app. right. left.
  - exists u, k'. split; [by list_norm | done].
Qed.
End OccursFacts.

(** ** The search loop and its errors *)

Lemma search_all_raises api query queries all_repos e :
  query ∈ queries → search_repos api query = Raise e →
  ∃ e', search_all api queries all_repos = Raise e'.
Proof.
  intros Hin Hraise. revert all_repos.
  induction queries as [|q queries IH]; intros all_repos;
    [by apply elem_of_nil in Hin|].
  simpl. destruct (search_repos api q) as [repos|e'] eqn:Hq; simpl; [|eauto].
  apply elem_of_cons in Hin as [->|Hin]; [congruence | by apply IH].
Qed.

Lemma ok_false (resp : response) :
  ok resp = false ↔ 400 ≤ status_code resp < 600.
Proof.
  unfold ok, raise_for_status.
  destruct (Z.leb_spec 400 (status_code resp)),
    (Z.ltb_spec (status_code resp) 600); cbn; split; (done || lia).
Qed.

(** C4.  A response with status 403 makes [search_repos] return the empty
    list, and the loop of [main] goes on with the remaining queries as if the
    query had not been made.  Any other response that is not a success, in
    the sense of [requests]: one that is not [ok], which is a response with a
    client or server error status, 400 to 599, makes [search_repos] raise
    [HTTPError], and [main] ends with an exception without writing the
    README. *)
Theorem search_repos_failures (api : text → response) (query : text) :
  let resp := api (query ++ lit " stars:>=" ++ Py.str MIN_STARS) in
  (status_code resp = 403 →
     search_repos api query = Ok []
     ∧ ∀ queries all_repos,
         search_all api (query :: queries) all_repos
         = search_all api queries all_repos)
  ∧ (status_code resp ≠ 403 → ok resp = false →
     search_repos api query = Raise (HTTPError (status_code resp))
     ∧ ∀ readme_content,
         query ∈ SEARCH_QUERIES → ∃ e, main readme_content api = Raise e).
Proof.
  intros resp.
  assert (status_code resp = 403 → search_repos api query = Ok []) as H403.
  { intros Hs. unfold search_repos. fold resp. by rewrite Hs. }
  assert (status_code resp ≠ 403 → ok resp = false →
          search_repos api query = Raise (HTTPError (status_code resp)))
    as Herr.
  { intros Hne Hrange%ok_false. unfold search_repos, raise_for_status.
    fold resp. rewrite (proj2 (Z.eqb_neq _ _) Hne).
    rewrite (proj2 (Z.leb_le _ _) (proj1 Hrange)).
    by rewrite (proj2 (Z.ltb_lt _ _) (proj2 Hrange)). }
  split.
  - intros Hs. split; [auto|]. intros queries all_repos. simpl.
    by rewrite (H403 Hs).
  - intros Hne Hrange. split; [auto|]. intros readme_content Hin.
    destruct (search_all_raises api query SEARCH_QUERIES [] _ Hin
                (Herr Hne Hrange)) as [e He].
    exists e. unfold main. by rewrite He.
Qed.

Lemma search_repos_failures_witness :
  (search_repos Examples.api (lit "nanochat") = Ok []
   ∧ ∃ st, main Examples.readme Examples.api = Ok st)
  ∧ (search_repos Examples.failing_api (lit "nanotron")
     = Raise (HTTPError 500)
     ∧ ∃ e, main Examples.readme Examples.failing_api = Raise e).
Proof.
  split.
  - split.
    + apply (search_repos_failures Examples.api (lit "nanochat")).
      reflexivity.
    + eexists. unfold main, SEARCH_QUERIES.
      repeat (rewrite (proj2 (proj1 (search_repos_failures Examples.api _)
                                eq_refl))).
      reflexivity.
  - pose proof (proj2 (search_repos_failures Examples.failing_api
                         (lit "nanotron"))) as H.
    destruct H as [Hraise Hmain]; [by vm_compute | by vm_compute |].
    split; [exact Hraise|]. apply Hmain. vm_compute.
    repeat (apply list_elem_of_here || apply list_elem_of_further).
Defined.

(** ** Rendering and reading a row *)

Lemma render_description_no_pipe (r : repo) : "|"%char ∉ render_description r.
Proof.
  unfold render_description. set (sanitized := Py.strip _).
  assert ("|"%char ∉ sanitized) as Hpipe.
  { intros Hin%elem_of_strip. by apply replace_char_gone in Hin. }
  destruct (100 <? length sanitized)%nat; [|done].
  intros [Hin|Hin]%elem_of_app.
  - apply Hpipe. rewrite <- (take_drop 97 sanitized).
    apply elem_of_app. by left.
  - vm_compute in Hin.
    repeat (apply elem_of_cons in Hin as [Hin|Hin]; [done|]).
    by apply elem_of_nil in Hin.
Qed.

(** C5 (as amended).  The description that [build_table_row] puts into the
    row has at most 100 characters and contains no pipe.  Whether it is cut
    is decided on the description after pipes are replaced and surrounding
    whitespace is stripped: if that has more than 100 characters, the
    rendered description is its first 97 characters followed by three dots;
    otherwise it is rendered whole. *)
Theorem render_description_bound (r : repo) :
  let sanitized :=
    Py.strip (Py.replace_char "|" "-" (default [] (description r))) in
  (length (render_description r) ≤ 100)%nat
  ∧ ("|"%char ∉ render_description r)
  ∧ (render_description r
     = if (100 <? length sanitized)%nat
       then take 97 sanitized ++ lit "..." else sanitized)
  ∧ ((100 < length sanitized)%nat → length (render_description r) = 100%nat)
  ∧ (build_table_row r
     = lit "| [" ++ name r ++ lit "](" ++ html_url r ++ lit ") | "
       ++ render_description r ++ lit " | "
       ++ Py.str (stargazers_count r) ++ lit " |").
Proof.
  intros sanitized. pose proof (render_description_no_pipe r) as Hpipe.
  unfold build_table_row. revert Hpipe.
  unfold render_description. fold sanitized.
  destruct (Nat.ltb_spec 100 (length sanitized)) as [Hlong|Hshort];
    intros Hpipe.
  - assert (length (take 97 sanitized ++ lit "...") = 100%nat) as Hlen.
    { rewrite length_app, length_take.
      change (length (lit "...")) with 3%nat. lia. }
    refine (conj _ (conj Hpipe (conj eq_refl (conj (λ _, Hlen) eq_refl)))).
    lia.
  - refine (conj Hshort (conj Hpipe (conj eq_refl (conj _ eq_refl)))). lia.
Qed.

Lemma render_description_bound_witness :
  length (render_description Examples.wordy) = 100%nat.
Proof.
  apply (render_description_bound Examples.wordy). vm_compute. lia.
Defined.

(** C5, as the specification words it, fails: a description of 101
    characters (100 letters and a trailing space) is longer than 100
    characters, yet it is rendered as its 100 letters, without an ellipsis. *)
Lemma long_description_not_cut :
  (100 < length (default [] (description Examples.padded)))%nat
  ∧ render_description Examples.padded = replicate 100 "a"%char
  ∧ ¬ ∃ kept, length kept = 97%nat
              ∧ render_description Examples.padded = kept ++ lit "...".
Proof.
  split; [vm_compute; lia|]. split; [by vm_compute|].
  intros (kept & Hlen & Heq).
  assert (render_description Examples.padded !! 99%nat = Some "."%char) as H.
  { rewrite Heq. rewrite lookup_app_r by lia. rewrite Hlen. done. }
  vm_compute in H. done.
Qed.

(** C9.  [extract_stars_from_row] raises for no row: the row has a fourth
    part whenever it is read, and the [ValueError] of [int] is caught.  With
    fewer than four parts the result is 0; with a fourth part that, stripped
    and with its commas removed, [int] does not parse, the result is 0;
    otherwise it is the integer that [int] parses. *)
Theorem extract_stars_from_row_total (row : text) :
  let parts := Py.split "|" row in
  let stars_str := Py.remove_char "," (Py.strip (nth 3 parts [])) in
  extract_stars_from_row row = Ok (stars_key row)
  ∧ ((length parts < 4)%nat → extract_stars_from_row row = Ok 0)
  ∧ ((4 ≤ length parts)%nat → Py.int stars_str = None →
     extract_stars_from_row row = Ok 0)
  ∧ (∀ n, (4 ≤ length parts)%nat → Py.int stars_str = Some n →
     extract_stars_from_row row = Ok n).
Proof.
  intros parts stars_str.
  assert ((4 ≤ length parts)%nat →
          extract_stars_from_row row
          = Ok (default 0 (Py.int stars_str))) as Hlong.
  { intros Hge. unfold extract_stars_from_row. fold parts.
    rewrite (proj2 (Nat.leb_le _ _) Hge). unfold getitem.
    destruct (parts !! 3%nat) as [part|] eqn:Hpart.
    - subst stars_str. rewrite (nth_lookup_Some _ _ _ _ Hpart).
      cbn [bind]. unfold int. by destruct (Py.int _).
    - apply lookup_ge_None in Hpart. lia. }
  assert ((length parts < 4)%nat → extract_stars_from_row row = Ok 0)
    as Hshort.
  { intros Hlt. unfold extract_stars_from_row. fold parts.
    by rewrite (proj2 (Nat.leb_gt _ _) Hlt). }
  split; [|split; [done|split]].
  - unfold stars_key.
    destruct (Nat.lt_ge_cases (length parts) 4) as [Hlt|Hge].
    + by rewrite (Hshort Hlt).
    + by rewrite (Hlong Hge).
  - intros Hge Hnone. by rewrite (Hlong Hge), Hnone.
  - intros n Hge Hsome. by rewrite (Hlong Hge), Hsome.
Qed.

Lemma extract_stars_from_row_total_witness :
  extract_stars_from_row (lit "| no stars |") = Ok 0
  ∧ extract_stars_from_row (lit "| [a](u) | text | many |") = Ok 0
  ∧ extract_stars_from_row (lit "| [a](u) | text | 12,345 |") = Ok 12345.
Proof.
  split; [|split].
  - apply (proj1 (proj2 (extract_stars_from_row_total (lit "| no stars |")))).
    vm_compute. lia.
  - apply (proj1 (proj2 (proj2 (extract_stars_from_row_total
                                  (lit "| [a](u) | text | many |")))));
      [vm_compute; lia | reflexivity].
  - apply (proj2 (proj2 (proj2 (extract_stars_from_row_total
                                  (lit "| [a](u) | text | 12,345 |")))));
      [vm_compute; lia | reflexivity].
Defined.

(** ** The filter loop *)

Lemma filter_repos_spec (existing : gset text) (all_repos : dict) :
  filter_repos existing all_repos
  = (List.filter
       (λ r, negb (fork r || archived r
                   || bool_decide (canonical (html_url r) ∈ existing)))
       all_repos.*2,
     foldl (λ m item, <[canonical (html_url item.2) := item.2]> m) ∅ all_repos).
Proof.
  unfold filter_repos. generalize (∅ : gmap text repo).
  rewrite <- (app_nil_l (List.filter _ _)). generalize (@nil repo).
  induction all_repos as [|[k r] d IH]; intros acc m; simpl.
  - by rewrite app_nil_r.
  - unfold filter_step at 2; simpl.
    destruct (fork r); simpl; [apply IH|].
    destruct (archived r); simpl; [apply IH|].
    destruct (bool_decide _); simpl; [apply IH|].
    rewrite IH. by rewrite <- app_assoc.
Qed.

Lemma repos_by_url_lookup (all_repos : dict) (m : gmap text repo) k r :
  (k, r) ∈ all_repos →
  ∃ r', foldl (λ m item, <[canonical (html_url item.2) := item.2]> m) m
          all_repos !! canonical (html_url r) = Some r'
        ∧ r' ∈ all_repos.*2
        ∧ canonical (html_url r') = canonical (html_url r).
Proof.
  revert m. induction all_repos as [|item d IH] using rev_ind; intros m Hin;
    [by apply elem_of_nil in Hin|].
  rewrite foldl_app, fmap_app. simpl.
  destruct (decide (canonical (html_url item.2) = canonical (html_url r)))
    as [Heq|Hne].
  - exists item.2. rewrite Heq, lookup_insert_eq. split; [done|].
    split; [|done]. apply elem_of_app. right. apply list_elem_of_here.
  - rewrite lookup_insert_ne by done.
    apply elem_of_app in Hin as [Hin|Hin].
    + destruct (IH m Hin) as (r' & Hl & Hr' & Hc). exists r'.
      split; [done|]. split; [|done]. apply elem_of_app. by left.
    + apply elem_of_cons in Hin as [Heq|Hin]; [by subst item|].
      by apply elem_of_nil in Hin.
Qed.

(** The local variables of [main], one equation each. *)
Lemma update_readme_fields (readme_content : text) (all_repos : dict) :
  let st := update_readme readme_content all_repos in
  let selected :=
    filter_repos (parse_existing_entries readme_content) all_repos in
  existing_urls st = parse_existing_entries readme_content
  ∧ existing_rows st = parse_table_rows readme_content
  ∧ new_repos st = Py.sort_desc stargazers_count selected.1
  ∧ repos_by_url st = selected.2
  ∧ all_rows st
    = Py.sort_desc stars_key
        (((λ row, update_row_stars row (repos_by_url st)) <$> existing_rows st)
         ++ (build_table_row <$> new_repos st))
  ∧ new_section st = build_section (all_rows st)
  ∧ new_readme st
    = Py.slice readme_content None
        (Some (Py.find readme_content MARKER_START))
      ++ new_section st
      ++ Py.slice readme_content
           (Some (Py.find readme_content MARKER_END
                  + Z.of_nat (length MARKER_END))) None.
Proof.
  intros st selected. subst st selected. unfold update_readme.
  destruct (filter_repos _ _) as [news by_url]. repeat split.
Qed.

(** C1.  A repository of the aggregated mapping is left out of [new_repos]
    exactly when it is a fork, is archived, or has its canonical URL in the
    set read from the README section.  Left out or not, its canonical URL is
    a key of [repos_by_url], whose entry is a repository of the mapping with
    that canonical URL. *)
Theorem new_repos_exclusion (readme_content : text) (all_repos : dict)
    (k : text) (r : repo) :
  (k, r) ∈ all_repos →
  let st := update_readme readme_content all_repos in
  (r ∉ new_repos st ↔
     fork r = true ∨ archived r = true
     ∨ canonical (html_url r) ∈ parse_existing_entries readme_content)
  ∧ ∃ r', repos_by_url st !! canonical (html_url r) = Some r'
          ∧ r' ∈ all_repos.*2
          ∧ canonical (html_url r') = canonical (html_url r).
Proof.
  intros Hin st.
  destruct (update_readme_fields readme_content all_repos)
    as (_ & _ & Hnew & Hby & _).
  fold st in Hnew, Hby. rewrite Hnew, Hby, filter_repos_spec.
  cbn [fst snd]. split.
  - rewrite sort_desc_perm, list_elem_of_In, filter_In, <- list_elem_of_In.
    rewrite negb_true_iff, !orb_false_iff, bool_decide_eq_false.
    assert (r ∈ all_repos.*2) as Hr.
    { apply list_elem_of_fmap. by exists (k, r). }
    destruct (fork r), (archived r),
      (decide (canonical (html_url r)
               ∈ parse_existing_entries readme_content));
      intuition congruence.
  - by eapply repos_by_url_lookup.
Qed.

Lemma new_repos_exclusion_witness :
  (Examples.a_fork
   ∉ new_repos (update_readme Examples.readme Examples.all_repos))
  ∧ (Examples.foo
     ∉ new_repos (update_readme Examples.readme Examples.all_repos))
  ∧ ¬ (Examples.bar
       ∉ new_repos (update_readme Examples.readme Examples.all_repos)).
Proof.
  split; [|split].
  - apply (new_repos_exclusion Examples.readme Examples.all_repos
             (lit "z/foo") Examples.a_fork).
    + apply (bool_decide_unpack _). by vm_compute.
    + by left.
  - apply (new_repos_exclusion Examples.readme Examples.all_repos
             (lit "a/foo") Examples.foo).
    + apply (bool_decide_unpack _). by vm_compute.
    + right; right. apply (bool_decide_unpack _). by vm_compute.
  - intros Hout.
    apply (new_repos_exclusion Examples.readme Examples.all_repos
             (lit "b/bar") Examples.bar) in Hout.
    + destruct Hout as [H|[H|H]]; [done | done |].
      apply (bool_decide_pack _) in H. by vm_compute in H.
    + apply (bool_decide_unpack _). by vm_compute.
Defined.

(** ** The merged rows *)

(** C2.  The rows written into the section are the refreshed existing rows
    and the rows built for the new repositories, in an order in which the
    value that [extract_stars_from_row] returns never increases
    ([stars_key] is that value). *)
Theorem all_rows_sorted (readme_content : text) (all_repos : dict) :
  let st := update_readme readme_content all_repos in
  StronglySorted (Py.desc stars_key) (all_rows st)
  ∧ all_rows st
    ≡ₚ ((λ row, update_row_stars row (repos_by_url st)) <$> existing_rows st)
       ++ (build_table_row <$> new_repos st)
  ∧ new_section st = build_section (all_rows st)
  ∧ ∃ before after,
      new_readme st
      = before ++ MARKER_START ++ "010"%char :: table_header
        ++ Py.join "010" (all_rows st) ++ "010"%char :: MARKER_END ++ after.
Proof.
  intros st.
  destruct (update_readme_fields readme_content all_repos)
    as (_ & _ & _ & _ & Hrows & Hsec & Hnew).
  fold st in Hrows, Hsec, Hnew.
  split; [rewrite Hrows; apply sort_desc_sorted|].
  split; [rewrite Hrows at 1; apply sort_desc_perm|].
  split; [done|]. rewrite Hnew, Hsec. unfold build_section. cbv zeta.
  rewrite <- !app_assoc, <- !app_comm_cons, <- !app_assoc.
  rewrite <- !app_comm_cons. eexists _, _. reflexivity.
Qed.

(** ** Refreshing a row *)

Lemma stars_field_no_pipe n : "|"%char ∉ lit " " ++ Py.str n ++ lit " ".
Proof.
  rewrite !not_elem_of_app. split; [|split]; try apply str_no_pipe;
    intros [?|[]%elem_of_nil]%elem_of_cons; done.
Qed.

(** What [update_row_stars] returns, in terms of the parts of the row. *)
Lemma update_row_stars_parts (row : text) (by_url : gmap text repo) :
  Py.split "|" (update_row_stars row by_url) = Py.split "|" row
  ∨ ∃ url_match r,
      Re.search row = Some url_match
      ∧ by_url !! canonical url_match = Some r
      ∧ (5 ≤ length (Py.split "|" row))%nat
      ∧ Py.split "|" (update_row_stars row by_url)
        = <[3%nat := lit " " ++ Py.str (stargazers_count r) ++ lit " "]>
            (Py.split "|" row).
Proof.
  unfold update_row_stars.
  destruct (Re.search row) as [url_match|]; [|by left].
  destruct (by_url !! canonical url_match) as [r|] eqn:Hr; [|by left].
  destruct (Nat.leb_spec 5 (length (Py.split "|" row))) as [Hlen|Hlen];
    [|by left].
  right. exists url_match, r. repeat split; try done.
  apply split_join.
  - intros Hnil. apply (f_equal length) in Hnil.
    rewrite length_insert in Hnil. simpl in Hnil. lia.
  - apply Forall_insert; [apply split_parts_no_sep|].
    apply stars_field_no_pipe.
Qed.

(** C3.  For a row that contains a repository URL whose canonical form is a
    key of the map of fetched repositories, [update_row_stars] changes
    nothing but the fourth part of the row (the stars column): the row has as
    many parts as before and every other part, the name link (second part)
    and the description (third part) among them, is unchanged.  When that
    URL is the first one in the row and the row has at least five parts, the
    stars column becomes the fetched count. *)
Theorem update_row_stars_frame (row : text) (by_url : gmap text repo)
    (url : text) (r : repo) :
  url ∈ Re.finditer row →
  by_url !! canonical url = Some r →
  let parts := Py.split "|" row in
  let parts' := Py.split "|" (update_row_stars row by_url) in
  length parts' = length parts
  ∧ (∀ i, i ≠ 3%nat → parts' !! i = parts !! i)
  ∧ parts' !! 1%nat = parts !! 1%nat
  ∧ parts' !! 2%nat = parts !! 2%nat
  ∧ (Re.search row = Some url → (5 ≤ length parts)%nat →
     parts' !! 3%nat
     = Some (lit " " ++ Py.str (stargazers_count r) ++ lit " ")).
Proof.
  intros _ Hlookup parts parts'. subst parts parts'.
  assert (Re.search row = Some url → (5 ≤ length (Py.split "|" row))%nat →
          Py.split "|" (update_row_stars row by_url) !! 3%nat
          = Some (lit " " ++ Py.str (stargazers_count r) ++ lit " "))
    as Hstars.
  { intros Hsearch Hlen. unfold update_row_stars.
    rewrite Hsearch, Hlookup, (proj2 (Nat.leb_le _ _) Hlen).
    rewrite split_join.
    - apply list_lookup_insert_eq. lia.
    - intros Hnil. apply (f_equal length) in Hnil.
      rewrite length_insert in Hnil. simpl in Hnil. lia.
    - apply Forall_insert; [apply split_parts_no_sep|].
      apply stars_field_no_pipe. }
  destruct (update_row_stars_parts row by_url)
    as [Hsame|(m & r' & _ & _ & _ & Hparts)].
  - by rewrite Hsame in *.
  - rewrite Hparts in *. rewrite length_insert.
    assert (∀ i, i ≠ 3%nat →
              <[3%nat := lit " " ++ Py.str (stargazers_count r') ++ lit " "]>
                (Py.split "|" row) !! i = Py.split "|" row !! i) as Hother.
    { intros i Hi. by rewrite list_lookup_insert_ne. }
    split; [done|]. split; [done|].
    split; [apply Hother; lia|]. split; [apply Hother; lia | done].
Qed.

Lemma update_row_stars_frame_witness :
  Py.split "|" (update_row_stars Examples.foo_row Examples.by_url) !! 2%nat
  = Py.split "|" Examples.foo_row !! 2%nat
  ∧ update_row_stars Examples.foo_row Examples.by_url
    = lit "| [foo](https://github.com/a/foo) | desc | 600 |".
Proof.
  split; [|reflexivity].
  apply (update_row_stars_frame Examples.foo_row Examples.by_url
           (lit "https://github.com/a/foo") Examples.foo);
    [|reflexivity].
  apply (bool_decide_unpack _). by vm_compute.
Defined.

(** ** Writing the section back *)



(** ** Missing markers *)

Lemma build_section_markers rows :
  ∃ middle, build_section rows = MARKER_START ++ middle ++ MARKER_END.
Proof.
  unfold build_section. cbv zeta.
  exists ("010"%char :: table_header ++ Py.join "010" rows ++ ["010"%char]).
  rewrite <- !app_comm_cons, <- !app_assoc. done.
Qed.

(** C10.  If a marker is missing, both extraction functions return empty
    containers, and [main] (unless the search raises) still writes the
    README.  [find] has returned -1 for the missing marker: for a missing
    start marker the new section is put after all but the last character of
    the text, for a missing end marker it is followed by the text from index
    21 on.  What is written always differs from what was read. *)
Theorem missing_marker_overwrites (readme_content : text) (all_repos : dict) :
  Py.find readme_content MARKER_START = -1
  ∨ Py.find readme_content MARKER_END = -1 →
  let st := update_readme readme_content all_repos in
  parse_existing_entries readme_content = ∅
  ∧ parse_table_rows readme_content = []
  ∧ (∀ api, search_all api SEARCH_QUERIES [] = Ok all_repos →
            main readme_content api = Ok st)
  ∧ (∃ before after,
       new_readme st = before ++ new_section st ++ after
       ∧ (Py.find readme_content MARKER_START = -1 →
          before = take (length readme_content - 1) readme_content)
       ∧ (Py.find readme_content MARKER_END = -1 →
          after = drop 21 readme_content))
  ∧ new_readme st ≠ readme_content.
Proof.
  intros Hmiss st.
  destruct (update_readme_fields readme_content all_repos)
    as (_ & _ & _ & _ & _ & Hsec & Hnew).
  fold st in Hsec, Hnew.
  assert ((Py.find readme_content MARKER_START =? -1)
          || (Py.find readme_content MARKER_END =? -1) = true) as Htest.
  { apply orb_true_iff. rewrite !Z.eqb_eq. done. }
  split; [unfold parse_existing_entries; by rewrite Htest|].
  split; [unfold parse_table_rows; by rewrite Htest|].
  split; [intros api Hsearch; unfold main; by rewrite Hsearch|].
  split.
  - eexists _, _. split; [exact Hnew|]. split; intros Hm; rewrite Hm.
    + apply slice_to_minus_1.
    + change (-1 + Z.of_nat (length MARKER_END)) with (Z.of_nat 21).
      apply slice_from.
  - intros Heq. rewrite Hnew, Hsec in Heq.
    destruct (build_section_markers (all_rows st)) as [middle Hmid].
    rewrite Hmid in Heq. clear Hmid Hnew Hsec.
    set (before := Py.slice readme_content None _) in Heq.
    set (after := Py.slice readme_content (Some _) None) in Heq.
    destruct Hmiss as [Hm|Hm]; apply find_missing in Hm.
    + apply (find_nat_None _ _ (length before) Hm).
      exists before, (middle ++ MARKER_END ++ after). split; [|done].
      rewrite <- Heq. by rewrite <- !app_assoc.
    + apply (find_nat_None _ _ (length (before ++ MARKER_START ++ middle)) Hm).
      exists (before ++ MARKER_START ++ middle), after. split; [|done].
      rewrite <- Heq. by rewrite <- !app_assoc.
Qed.

Lemma missing_marker_overwrites_witness :
  new_readme (update_readme (lit "no markers in this text") [])
  ≠ lit "no markers in this text".
Proof.
  apply (missing_marker_overwrites (lit "no markers in this text") []).
  left. reflexivity.
Defined.

(** ** The rows read from the README *)
Section ExistingRows.
Context (readme_content : text) (s e : nat).
Hypothesis Hstart : Py.find readme_content MARKER_START = Z.of_nat s.
Hypothesis Hend : Py.find readme_content MARKER_END = Z.of_nat e.

Lemma parse_table_rows_found :
  parse_table_rows readme_content
  = List.filter is_table_row
      (Py.strip <$>
         Py.split "010"
           (Py.strip
              (Py.slice readme_content
                 (Some (Z.of_nat (s + length MARKER_START)))
                 (Some (Z.of_nat e))))).
Proof.
  unfold parse_table_rows. rewrite Hstart, Hend.
  destruct (Z.eqb_spec (Z.of_nat s) (-1)); [lia|].
  destruct (Z.eqb_spec (Z.of_nat e) (-1)); [lia|].
  cbn [orb]. by rewrite <- Nat2Z.inj_add.
Qed.

Lemma existing_row_line row :
  row ∈ parse_table_rows readme_content →
  is_table_row row = true
  ∧ ∃ line,
      row = Py.strip line
      ∧ line ∈ Py.split "010"
                 (Py.strip
                    (Py.slice readme_content
                       (Some (Z.of_nat (s + length MARKER_START)))
                       (Some (Z.of_nat e)))).
Proof.
  rewrite parse_table_rows_found, list_elem_of_In, filter_In.
  rewrite <- list_elem_of_In, list_elem_of_fmap. intros [Hin Hrow].
  split; [done|]. destruct Hin as (line & -> & Hline). eauto.
Qed.

Lemma existing_row_stripped row :
  row ∈ parse_table_rows readme_content → Py.stripped row.
Proof.
  intros (_ & line & -> & _)%existing_row_line. apply strip_stripped.
Qed.

Lemma existing_row_one_line row :
  row ∈ parse_table_rows readme_content → "010"%char ∉ row.
Proof.
  intros (_ & line & -> & Hline)%existing_row_line Hin%elem_of_strip.
  match type of Hline with
  | _ ∈ Py.split _ ?x => pose proof (split_parts_no_sep "010" x) as Hall
  end.
  rewrite Forall_forall in Hall. by apply (Hall line).
Qed.

(** A row is a piece of the text between the markers. *)
Lemma existing_row_contains row sub :
  row ∈ parse_table_rows readme_content → Py.contains row sub →
  Py.contains
    (Py.slice readme_content (Some (Z.of_nat (s + length MARKER_START)))
       (Some (Z.of_nat e))) sub.
Proof.
  intros (_ & line & -> & Hline)%existing_row_line Hsub.
  apply contains_strip. rewrite <- (join_split "010" (Py.strip _)).
  eapply contains_part; [exact Hline|]. by apply contains_strip.
Qed.

Lemma existing_row_urls row :
  row ∈ parse_table_rows readme_content →
  urls_in row
  ⊆ urls_in (Py.slice readme_content
               (Some (Z.of_nat (s + length MARKER_START)))
               (Some (Z.of_nat e))).
Proof.
  intros (_ & line & -> & Hline)%existing_row_line.
  rewrite urls_in_strip, <- (urls_in_strip (Py.slice _ _ _)).
  rewrite <- (join_split "010" (Py.strip _)) at 1.
  rewrite urls_in_join by done. intros u Hu.
  apply elem_of_union_list. exists (urls_in line). split; [|done].
  apply list_elem_of_fmap. eauto.
Qed.
End ExistingRows.

(** An occurrence inside a slice is an occurrence in the text that ends
    before the upper bound of the slice. *)
Lemma contains_slice (text_ : text) (a b : nat) (sub : text) :
  sub ≠ [] →
  Py.contains (Py.slice text_ (Some (Z.of_nat a)) (Some (Z.of_nat b))) sub →
  ∃ j, Py.occurs_at text_ sub j ∧ (j + length sub ≤ b)%nat.
Proof.
  intros Hne. unfold Py.slice. cbn [from_option]. rewrite !clamp_of_nat.
  set (l := Nat.min a (length text_)). set (h := Nat.min b (length text_)).
  intros (i & u & v & Heq & _).
  exists (length (take l text_ ++ u)). split.
  - exists (take l text_ ++ u), (v ++ drop (h - l) (drop l text_)).
    split; [|done].
    rewrite <- (take_drop l text_) at 1.
    rewrite <- (take_drop (h - l) (drop l text_)) at 1. rewrite Heq.
    by list_norm.
  - assert (length (u ++ sub) ≤ h - l)%nat as Hlen.
    { transitivity (length (take (h - l) (drop l text_))).
      - rewrite Heq, !length_app. lia.
      - rewrite length_take. lia. }
    rewrite length_app in Hlen. rewrite length_app, length_take.
    destruct sub; [done|]. simpl in *. lia.
Qed.

(** The rows read from a README do not contain the end marker. *)
Lemma existing_row_no_end readme_content s e row :
  Py.find readme_content MARKER_START = Z.of_nat s →
  Py.find readme_content MARKER_END = Z.of_nat e →
  row ∈ parse_table_rows readme_content →
  ¬ Py.contains row MARKER_END.
Proof.
  intros Hs He Hrow Hsub.
  eapply existing_row_contains in Hsub; [|exact Hs|exact He|exact Hrow].
  apply contains_slice in Hsub as (j & Hj & Hlen); [|done].
  apply find_of_nat in He as [_ Hmin]. apply Hmin in Hj.
  change (length MARKER_END) with 22%nat in Hlen. lia.
Qed.

Lemma urls_in_after_start x : urls_in x ⊆ urls_in (MARKER_START ++ x).
Proof.
  change MARKER_START with (lit "<!-- NANO_LIST_START --" ++ [">"%char]).
  rewrite <- app_assoc. cbn [app]. rewrite urls_in_cut by done.
  apply union_subseteq_r.
Qed.

(** The URLs found in the rows are among the URLs found in the section. *)
Lemma existing_rows_urls readme_content row :
  row ∈ parse_table_rows readme_content →
  urls_in row ⊆ parse_existing_entries readme_content.
Proof.
  intros Hrow.
  destruct (find_cases readme_content MARKER_START) as [[Hs _]|(s & Hs & _)].
  { unfold parse_table_rows in Hrow. rewrite Hs in Hrow.
    by apply elem_of_nil in Hrow. }
  destruct (find_cases readme_content MARKER_END) as [[He _]|(e & He & _)].
  { unfold parse_table_rows in Hrow. rewrite He, orb_true_r in Hrow.
    by apply elem_of_nil in Hrow. }
  rewrite (parse_existing_entries_found _ s e) by done.
  etransitivity; [by eapply existing_row_urls|].
  pose proof (find_of_nat _ _ _ Hs) as [(a & y & -> & <-) _].
  destruct (decide (length a + length MARKER_START ≤ e)%nat) as [Hle|Hgt].
  - rewrite slice_after_prefix by done. apply urls_in_after_start.
  - assert (Py.slice (a ++ MARKER_START ++ y)
              (Some (Z.of_nat (length a + length MARKER_START)))
              (Some (Z.of_nat e)) = []) as ->; [|done].
    unfold Py.slice. cbn [from_option]. rewrite !clamp_of_nat.
    rewrite (Nat.min_l (length a + _)) by (rewrite !length_app; lia).
    replace (_ - _)%nat with 0%nat by lia. done.
Qed.

(** ** Refreshed rows *)

Lemma startswith_cut p c y pre :
  c ∉ pre → Py.startswith (p ++ c :: y) pre = Py.startswith p pre.
Proof.
  revert p. induction pre as [|a pre IH]; intros p Hc; [done|].
  apply not_elem_of_cons in Hc as [Hne Hc].
  destruct p as [|b p]; simpl.
  - by rewrite (proj2 (eqb_false_iff a c)).
  - by rewrite IH.
Qed.

(** Whether a line is a table row is decided by its first two parts. *)
Lemma is_table_row_tail p0 p1 t t' :
  "|"%char ∉ p1 →
  is_table_row (p0 ++ "|"%char :: p1 ++ "|"%char :: t)
  = is_table_row (p0 ++ "|"%char :: p1 ++ "|"%char :: t').
Proof.
  intros Hp1. unfold is_table_row.
  change (lit "| Name") with ("|"%char :: lit " Name").
  change (lit "|---") with ("|"%char :: lit "---").
  change (lit "|") with ("|"%char :: []).
  assert (∀ pre, pre = lit " Name" ∨ pre = lit "---" ∨ pre = [] →
                 "|"%char ∉ pre) as Hpre.
  { intros pre [-> | [-> | ->]]; vm_compute; intros H;
      repeat (apply elem_of_cons in H as [H|H]; [done|]);
      by apply elem_of_nil in H. }
  destruct p0 as [|d p0]; cbn [app Py.startswith];
    rewrite !startswith_cut by (apply Hpre; auto); done.
Qed.

Lemma update_row_stars_cases (row : text) (by_url : gmap text repo) :
  update_row_stars row by_url = row
  ∨ ∃ url_match r,
      Re.search row = Some url_match
      ∧ by_url !! canonical url_match = Some r
      ∧ (5 ≤ length (Py.split "|" row))%nat
      ∧ update_row_stars row by_url
        = Py.join "|"
            (<[3%nat := lit " " ++ Py.str (stargazers_count r) ++ lit " "]>
               (Py.split "|" row)).
Proof.
  unfold update_row_stars.
  destruct (Re.search row) as [url_match|]; [|by left].
  destruct (by_url !! canonical url_match) as [r|] eqn:Hr; [|by left].
  destruct (Nat.leb_spec 5 (length (Py.split "|" row))) as [Hlen|Hlen];
    [|by left].
  right. by exists url_match, r.
Qed.

Section Refresh.
Context (row : text) (n : Z).
Hypothesis Hlen : (5 ≤ length (Py.split "|" row))%nat.

Let field : text := lit " " ++ Py.str n ++ lit " ".
Let row' : text := Py.join "|" (<[3%nat := field]> (Py.split "|" row)).

(** The row and the refreshed row, cut at their first four pipes. *)
Lemma refreshed_shape :
  ∃ p0 p1 p2 p3 rest,
    row = p0 ++ "|"%char :: p1 ++ "|"%char :: p2 ++ "|"%char :: p3
          ++ "|"%char :: rest
    ∧ row' = p0 ++ "|"%char :: p1 ++ "|"%char :: p2 ++ "|"%char :: field
             ++ "|"%char :: rest
    ∧ ("|"%char ∉ p0) ∧ ("|"%char ∉ p1)
    ∧ Py.split "|" row !! 3%nat = Some p3.
Proof.
  subst row'. pose proof (join_split "|" row) as Hjoin.
  pose proof (split_parts_no_sep "|" row) as Hall.
  destruct (Py.split "|" row) as [|p0 [|p1 [|p2 [|p3 [|p4 rest]]]]];
    simpl in Hlen; try lia.
  exists p0, p1, p2, p3, (Py.join "|" (p4 :: rest)).
  apply Forall_cons in Hall as [H0 Hall].
  apply Forall_cons in Hall as [H1 _].
  split; [by rewrite <- Hjoin|]. done.
Qed.

Lemma field_chars c : c ∈ field → Py.isdecimal c = true ∨ c = "-"%char ∨ c = " "%char.
Proof.
  subst field. rewrite !elem_of_app. intros [Hc|[Hc|Hc]].
  - apply elem_of_cons in Hc as [->|[]%elem_of_nil]. auto.
  - pose proof (str_chars n) as Hall. rewrite Forall_forall in Hall.
    destruct (Hall _ Hc); auto.
  - apply elem_of_cons in Hc as [->|[]%elem_of_nil]. auto.
Qed.

Lemma field_without c :
  Py.isdecimal c = false → c ≠ "-"%char → c ≠ " "%char → c ∉ field.
Proof. intros Hd Hm Hs [?|[?|?]]%field_chars; congruence. Qed.

Lemma refreshed_split : Py.split "|" row' = <[3%nat := field]> (Py.split "|" row).
Proof.
  subst row'. apply split_join.
  - intros Hnil. apply (f_equal length) in Hnil.
    rewrite length_insert in Hnil. simpl in Hnil. lia.
  - apply Forall_insert; [apply split_parts_no_sep|]. by apply field_without.
Qed.

Lemma refreshed_is_table_row : is_table_row row' = is_table_row row.
Proof.
  destruct refreshed_shape as (p0 & p1 & p2 & p3 & rest & -> & -> & _ & H1 & _).
  by apply is_table_row_tail.
Qed.

Lemma refreshed_stripped : Py.stripped row → Py.stripped row'.
Proof.
  destruct refreshed_shape as (p0 & p1 & p2 & p3 & rest & Hrow & -> & _).
  rewrite Hrow. intros [Hh Hl]. split; intros c Hc.
  - apply Hh. by destruct p0.
  - apply Hl. revert Hc.
    rewrite !(app_comm_cons _ _ "|"%char), !app_assoc.
    by rewrite !(last_app_cons _ rest).
Qed.

Lemma refreshed_elem c :
  c ∈ row' → c ∈ row ∨ c ∈ field.
Proof.
  destruct refreshed_shape as (p0 & p1 & p2 & p3 & rest & Hrow & -> & _).
  rewrite Hrow. rewrite !elem_of_app, !elem_of_cons, !elem_of_app,
    !elem_of_cons, !elem_of_app, !elem_of_cons, !elem_of_app, !elem_of_cons.
  tauto.
Qed.

Lemma refreshed_contains sub :
  "|"%char ∉ sub → Py.contains row' sub →
  Py.contains row sub ∨ Py.contains field sub.
Proof.
  intros Hpipe.
  destruct refreshed_shape as (p0 & p1 & p2 & p3 & rest & Hrow & -> & _).
  intros H.
  apply contains_cut in H as [H|H]; [| |done].
  { left. rewrite Hrow. by apply contains_app_r. }
  apply contains_cut in H as [H|H]; [| |done].
  { left. rewrite Hrow. apply contains_app_l, (contains_app_l [_]).
    by apply contains_app_r. }
  apply contains_cut in H as [H|H]; [| |done].
  { left. rewrite Hrow.
    do 2 apply contains_app_l, (contains_app_l [_]).
    by apply contains_app_r. }
  apply contains_cut in H as [H|H]; [| |done].
  { by right. }
  left. rewrite Hrow. by do 4 apply contains_app_l, (contains_app_l [_]).
Qed.

Lemma field_no_url : Re.finditer field = [].
Proof.
  apply finditer_no_colon, field_without; done.
Qed.

(** The URLs found in the refreshed row are found in the row. *)
Lemma refreshed_urls : urls_in row' ⊆ urls_in row.
Proof.
  destruct refreshed_shape as (p0 & p1 & p2 & p3 & rest & Hrow & -> & _).
  rewrite Hrow. rewrite !urls_in_cut by done.
  unfold urls_in at 4. rewrite field_no_url.
  intros u. rewrite !elem_of_union. cbn. rewrite elem_of_empty. tauto.
Qed.

(** With no URL in the stars column, the matches are the same. *)
Lemma refreshed_finditer :
  Re.search (nth 3 (Py.split "|" row) []) = None →
  Re.finditer row' = Re.finditer row.
Proof.
  destruct refreshed_shape
    as (p0 & p1 & p2 & p3 & rest & Hrow & -> & _ & _ & Hp3).
  rewrite (nth_lookup_Some _ _ _ _ Hp3). intros Hnone%search_None.
  rewrite Hrow. rewrite !finditer_cut by done.
  by rewrite field_no_url, Hnone.
Qed.
End Refresh.

(** ** Rows built for new repositories *)

Lemma render_description_elem c r :
  c ∈ render_description r →
  c ∈ default [] (description r) ∨ c = "-"%char ∨ c = "."%char.
Proof.
  unfold render_description.
  set (d := Py.strip _).
  assert (c ∈ d → c ∈ default [] (description r) ∨ c = "-"%char) as Hd.
  { intros Hc%elem_of_strip. unfold Py.replace_char in Hc.
    apply list_elem_of_fmap in Hc as (c' & -> & Hc').
    destruct (Ascii.eqb_spec c' "|"); [by right | by left]. }
  destruct (100 <? length d)%nat; [|intros H; destruct (Hd H); auto].
  intros [Hc|Hc]%elem_of_app.
  - assert (c ∈ d) as H.
    { rewrite <- (take_drop 97 d). apply elem_of_app. by left. }
    destruct (Hd H); auto.
  - right; right. vm_compute in Hc.
    repeat (apply elem_of_cons in Hc as [Hc|Hc]; [done|]).
    by apply elem_of_nil in Hc.
Qed.

Lemma NoDup_fmap_eq {A B} (f : A → B) (l : list A) x y :
  NoDup (f <$> l) → x ∈ l → y ∈ l → f x = f y → x = y.
Proof.
  induction l as [|a l IH]; [by intros _ ?%elem_of_nil|].
  rewrite fmap_cons, NoDup_cons. intros [Ha Hl] Hx Hy Hf.
  apply elem_of_cons in Hx as [->|Hx]; apply elem_of_cons in Hy as [->|Hy];
    try done.
  - exfalso. apply Ha. rewrite Hf. by apply list_elem_of_fmap_2.
  - exfalso. apply Ha. rewrite <- Hf. by apply list_elem_of_fmap_2.
  - by apply IH.
Qed.

(** With pairwise different canonical URLs, the entry of [repos_by_url] for
    the URL of a repository is that repository. *)
Lemma repos_by_url_distinct (all_repos : dict) k r :
  distinct_urls all_repos.*2 → (k, r) ∈ all_repos →
  (filter_repos ∅ all_repos).2 !! canonical (html_url r) = Some r.
Proof.
  intros Hdistinct Hin. rewrite filter_repos_spec. cbn [snd].
  destruct (repos_by_url_lookup all_repos ∅ k r Hin) as (r' & -> & Hr' & Hc).
  f_equal. eapply (NoDup_fmap_eq _ _ _ _ Hdistinct); [done| |done].
  apply list_elem_of_fmap. by exists (k, r).
Qed.

Section NewRow.
Context (r : repo).
Hypothesis Hnamed : github_named r = true.

Lemma github_named_name : Forall (λ c, Re.url_class c = true) (name r).
Proof.
  apply andb_true_iff in Hnamed as [Hname _].
  rewrite forallb_forall in Hname. rewrite Forall_forall.
  intros c Hc. apply Hname. by apply list_elem_of_In.
Qed.

Lemma github_named_url : Re.match_url (html_url r) = Some (html_url r).
Proof.
  apply andb_true_iff in Hnamed as [_ Hurl].
  by apply bool_decide_eq_true in Hurl.
Qed.

Lemma name_without c :
  Re.url_class c = false → c ∉ name r.
Proof.
  intros Hc Hin. pose proof github_named_name as Hall.
  rewrite Forall_forall in Hall. apply Hall in Hin. congruence.
Qed.

Lemma url_without c :
  Re.url_char c = false → c ∉ html_url r.
Proof.
  intros Hc Hin.
  destruct (match_url_inv _ _ github_named_url) as (_ & Hall & _).
  rewrite Forall_forall in Hall. apply Hall in Hin. congruence.
Qed.

Let link : text :=
  lit " [" ++ name r ++ lit "](" ++ html_url r ++ lit ") ".
Let about : text := lit " " ++ render_description r ++ lit " ".
Let stars : text := lit " " ++ Py.str (stargazers_count r) ++ lit " ".

(** The row, as its five parts joined. *)
Lemma build_table_row_join :
  build_table_row r = Py.join "|" [[]; link; about; stars; []].
Proof.
  subst link about stars. unfold build_table_row, lit.
  cbn [list_ascii_of_string Py.join app]. by list_norm.
Qed.

Lemma link_no_pipe : "|"%char ∉ link.
Proof.
  subst link. unfold lit. cbn [list_ascii_of_string].
  rewrite !not_elem_of_app, !not_elem_of_cons.
  pose proof (name_without "|" eq_refl).
  pose proof (url_without "|" eq_refl).
  repeat split; try done; apply not_elem_of_nil.
Qed.

Lemma about_no_pipe : "|"%char ∉ about.
Proof.
  subst about. unfold lit. cbn [list_ascii_of_string].
  rewrite !not_elem_of_app, !not_elem_of_cons.
  pose proof (render_description_no_pipe r).
  repeat split; try done; apply not_elem_of_nil.
Qed.

Lemma build_table_row_split :
  Py.split "|" (build_table_row r) = [[]; link; about; stars; []].
Proof.
  rewrite build_table_row_join. apply split_join; [done|].
  repeat constructor; try apply not_elem_of_nil.
  - apply link_no_pipe.
  - apply about_no_pipe.
  - by apply field_without.
Qed.

Lemma build_table_row_is_table_row : is_table_row (build_table_row r) = true.
Proof. reflexivity. Qed.

Lemma build_table_row_stripped : Py.stripped (build_table_row r).
Proof.
  split; intros c.
  - unfold build_table_row, lit. cbn [list_ascii_of_string app head].
    by intros [= <-].
  - unfold build_table_row. rewrite !app_assoc.
    change (lit " |") with ([" "%char] ++ ["|"%char]).
    rewrite app_assoc, last_snoc. by intros [= <-].
Qed.

Lemma build_table_row_one_line :
  "010"%char ∉ default [] (description r) → "010"%char ∉ build_table_row r.
Proof.
  intros Hd. unfold build_table_row, lit. cbn [list_ascii_of_string].
  rewrite !not_elem_of_app, !not_elem_of_cons.
  pose proof (name_without "010" eq_refl).
  pose proof (url_without "010" eq_refl).
  assert ("010"%char ∉ render_description r).
  { intros [?|[?|?]]%render_description_elem; done. }
  assert ("010"%char ∉ Py.str (stargazers_count r)).
  { intros Hin. pose proof (str_chars (stargazers_count r)) as Hall.
    rewrite Forall_forall in Hall. by destruct (Hall _ Hin). }
  repeat split; try done; apply not_elem_of_nil.
Qed.

(** The first match in the row is the URL of the repository; the other
    matches are those of the description. *)
Lemma build_table_row_finditer :
  Re.finditer (build_table_row r)
  = html_url r :: Re.finditer (render_description r).
Proof.
  rewrite build_table_row_join, finditer_join by done.
  cbn [fmap list_fmap concat]. rewrite finditer_nil, app_nil_r. cbn [app].
  subst stars. rewrite field_no_url, app_nil_r.
  subst link about.
  change (lit "](") with ([ "]"%char ] ++ "("%char :: []).
  change (lit ") ") with (")"%char :: lit " ").
  change (lit " ") with [" "%char].
  rewrite !app_assoc, <- (app_assoc _ ["("%char]).
  rewrite <- (app_assoc _ (_ ++ html_url r)), <- (app_assoc _ (html_url r)).
  cbn [app]. rewrite !finditer_cut by done.
  rewrite (finditer_no_colon (lit " [" ++ name r)).
  - rewrite (finditer_whole _ github_named_url), finditer_nil.
    rewrite (finditer_skip " " []), finditer_nil by done. cbn [app].
    by rewrite finditer_skip, finditer_snoc by done.
  - unfold lit. cbn [list_ascii_of_string].
    rewrite !not_elem_of_app, !not_elem_of_cons.
    pose proof (name_without ":" eq_refl).
    repeat split; try done; apply not_elem_of_nil.
Qed.

Lemma build_table_row_search :
  Re.search (build_table_row r) = Some (html_url r).
Proof. by rewrite search_head, build_table_row_finditer. Qed.

(** Refreshing the row from the repository it was built for changes
    nothing. *)
Lemma build_table_row_refreshed (by_url : gmap text repo) :
  by_url !! canonical (html_url r) = Some r →
  update_row_stars (build_table_row r) by_url = build_table_row r.
Proof.
  intros Hr. unfold update_row_stars.
  rewrite build_table_row_search, Hr, build_table_row_split.
  cbn [length Nat.leb]. by rewrite build_table_row_join.
Qed.
End NewRow.

(** ** The section that is written *)

Lemma slice_middle (p m q : text) :
  Py.slice (p ++ m ++ q) (Some (Z.of_nat (length p)))
    (Some (Z.of_nat (length p + length m))) = m.
Proof.
  rewrite slice_between by (rewrite !length_app; lia).
  rewrite drop_app_length. replace (_ - _)%nat with (length m) by lia.
  apply take_app_length.
Qed.

Lemma not_contains_find s sub :
  Py.find_nat s sub = None → ¬ Py.contains s sub.
Proof. intros Hf [i Hi]. by eapply find_nat_None. Qed.

Lemma filter_all {A} (f : A → bool) (l : list A) :
  (∀ x, x ∈ l → f x = true) → List.filter f l = l.
Proof.
  induction l as [|x l IH]; intros H; simpl; [done|].
  rewrite (H x) by left. f_equal. apply IH. intros y Hy. apply H. by right.
Qed.

Lemma filter_none {A} (f : A → bool) (l : list A) :
  (∀ x, x ∈ l → f x = false) → List.filter f l = [].
Proof.
  induction l as [|x l IH]; intros H; simpl; [done|].
  rewrite (H x) by left. apply IH. intros y Hy. apply H. by right.
Qed.

Lemma fmap_fixed {A} (f : A → A) (l : list A) :
  (∀ x, x ∈ l → f x = x) → f <$> l = l.
Proof.
  induction l as [|x l IH]; intros H; [done|]. rewrite fmap_cons.
  rewrite (H x) by left. f_equal. apply IH. intros y Hy. apply H. by right.
Qed.

(** Joining stripped, non-empty lines gives a stripped, non-empty text. *)
Lemma join_stripped c lines :
  lines ≠ [] → (∀ l, l ∈ lines → Py.stripped l ∧ l ≠ []) →
  Py.stripped (Py.join c lines) ∧ Py.join c lines ≠ [].
Proof.
  induction lines as [|l lines IH]; [done|]. intros _ Hall.
  destruct (Hall l) as [[Hh Hl] Hne]; [left|].
  destruct lines as [|l' lines]; [done|].
  rewrite join_cons by done.
  destruct IH as [[_ Hl'] Hne']; [done | intros x Hx; apply Hall; by right|].
  split; [|by destruct l]. split; intros d Hd.
  - apply Hh. by destruct l.
  - apply Hl'. rewrite last_app_cons in Hd.
    destruct (Py.join c (l' :: lines)); done.
Qed.

Lemma table_header_lines :
  table_header
  = lit "| Name | Description | Stars |" ++ "010"%char
    :: lit "|------|-------------|-------|" ++ ["010"%char].
Proof. reflexivity. Qed.

(** The text between the markers of a built section, and what [strip]
    leaves of it: the two header lines and the rows, joined. *)
Lemma section_body_strip rows :
  (∀ row, row ∈ rows → Py.stripped row ∧ row ≠ []) →
  Py.strip ("010"%char :: table_header ++ Py.join "010" rows ++ ["010"%char])
  = Py.join "010"
      (lit "| Name | Description | Stars |"
       :: lit "|------|-------------|-------|" :: rows).
Proof.
  intros Hrows.
  set (h1 := lit "| Name | Description | Stars |").
  set (h2 := lit "|------|-------------|-------|").
  destruct (join_stripped "010" (h1 :: h2 :: rows)) as [Hs Hne]; [done| |].
  { intros l [->|[->|Hl]%elem_of_cons]%elem_of_cons; [| |by apply Hrows];
      (split; [split; intros c; by intros [= <-] | done]). }
  assert (∃ pad, Forall (λ c, Py.isspace c = true) pad
                 ∧ table_header ++ Py.join "010" rows ++ ["010"%char]
                   = Py.join "010" (h1 :: h2 :: rows) ++ pad)
    as (pad & Hpad & ->).
  { rewrite table_header_lines. fold h1 h2. destruct rows as [|row rows].
    - exists ["010"%char; "010"%char]. split; [by repeat constructor|].
      cbn [Py.join]. by list_norm.
    - exists ["010"%char]. split; [by repeat constructor|].
      rewrite (join_cons _ h1), (join_cons _ h2) by done. by list_norm. }
  apply (strip_padded ["010"%char]); try done. by repeat constructor.
Qed.

Lemma header_line_1_not_row :
  is_table_row (lit "| Name | Description | Stars |") = false.
Proof. reflexivity. Qed.

Lemma header_line_2_not_row :
  is_table_row (lit "|------|-------------|-------|") = false.
Proof. reflexivity. Qed.

(** Reading back the rows of a section that was built from rows that are
    table rows, stripped, and one line each. *)
Lemma section_body_rows rows :
  (∀ row, row ∈ rows →
     is_table_row row = true ∧ Py.stripped row ∧ "010"%char ∉ row) →
  List.filter is_table_row
    (Py.strip <$>
       Py.split "010"
         (Py.strip
            ("010"%char :: table_header ++ Py.join "010" rows ++ ["010"%char])))
  = rows.
Proof.
  intros Hrows.
  assert (∀ row, row ∈ rows → row ≠ []) as Hne.
  { intros row Hrow ->. by destruct (Hrows [] Hrow) as [? _]. }
  rewrite section_body_strip
    by (intros row Hrow; split; [by apply Hrows | by apply Hne]).
  rewrite split_join; [|done|].
  - rewrite !fmap_cons. cbn [List.filter].
    rewrite !stripped_strip
      by (split; intros c; by intros [= <-]).
    rewrite header_line_1_not_row, header_line_2_not_row.
    rewrite fmap_fixed
      by (intros row Hrow; apply stripped_strip; by apply Hrows).
    apply filter_all. intros row Hrow. by apply Hrows.
  - repeat apply Forall_cons_2.
    + by vm_compute; intros H; repeat (apply elem_of_cons in H as [H|H];
        [done|]); apply elem_of_nil in H.
    + by vm_compute; intros H; repeat (apply elem_of_cons in H as [H|H];
        [done|]); apply elem_of_nil in H.
    + apply Forall_forall. intros row Hrow. by apply Hrows.
Qed.

(** The URLs of the rows are found in the text between the markers. *)
Lemma section_body_urls rows row :
  (∀ row, row ∈ rows → Py.stripped row ∧ row ≠ []) →
  row ∈ rows →
  urls_in row
  ⊆ urls_in ("010"%char :: table_header ++ Py.join "010" rows
             ++ ["010"%char]).
Proof.
  intros Hrows Hrow.
  rewrite <- (urls_in_strip (_ :: _)), section_body_strip by done.
  rewrite urls_in_join by done. intros u Hu.
  apply elem_of_union_list. exists (urls_in row). split; [|done].
  apply list_elem_of_fmap. exists row. split; [done|]. by do 2 right.
Qed.

(** The end marker is in the text between the markers only if it is in a
    row. *)
Lemma section_body_end rows :
  Py.contains
    (MARKER_START ++ "010"%char :: table_header ++ Py.join "010" rows
     ++ ["010"%char]) MARKER_END →
  ∃ row, row ∈ rows ∧ Py.contains row MARKER_END.
Proof.
  assert ("010"%char ∉ MARKER_END) as Hnl.
  { by vm_compute; intros H; repeat (apply elem_of_cons in H as [H|H];
      [done|]); apply elem_of_nil in H. }
  rewrite table_header_lines. list_norm. intros H.
  apply contains_cut in H as [H|H]; [| |done].
  { exfalso. revert H. by apply not_contains_find. }
  apply contains_cut in H as [H|H]; [| |done].
  { exfalso. revert H. by apply not_contains_find. }
  apply contains_cut in H as [H|H]; [| |done].
  { exfalso. revert H. by apply not_contains_find. }
  apply contains_cut in H as [H|H]; [| |done].
  - by apply contains_join in H.
  - exfalso. revert H. by apply not_contains_find.
Qed.

(** ** The rows of a run *)
Section Rows.
Context (readme_content : text) (all_repos : dict).

Let st : run := update_readme readme_content all_repos.
Let by_url : gmap text repo := (filter_repos ∅ all_repos).2.

Lemma repos_by_url_any (existing : gset text) :
  (filter_repos existing all_repos).2 = by_url.
Proof. subst by_url. by rewrite !filter_repos_spec. Qed.

Lemma run_repos_by_url : repos_by_url st = by_url.
Proof.
  destruct (update_readme_fields readme_content all_repos)
    as (_ & _ & _ & Hby & _).
  fold st in Hby. rewrite Hby. apply repos_by_url_any.
Qed.

Lemma new_repos_elem r :
  r ∈ new_repos st ↔
  r ∈ all_repos.*2 ∧ fork r = false ∧ archived r = false
  ∧ canonical (html_url r) ∉ parse_existing_entries readme_content.
Proof.
  destruct (update_readme_fields readme_content all_repos)
    as (_ & _ & Hnew & _).
  fold st in Hnew. rewrite Hnew, filter_repos_spec. cbn [fst].
  rewrite sort_desc_perm, list_elem_of_In, filter_In, <- list_elem_of_In.
  rewrite negb_true_iff, !orb_false_iff, bool_decide_eq_false. tauto.
Qed.

Lemma all_rows_elem row :
  row ∈ all_rows st ↔
  (∃ row0, row0 ∈ parse_table_rows readme_content
           ∧ row = update_row_stars row0 by_url)
  ∨ (∃ r, r ∈ new_repos st ∧ row = build_table_row r).
Proof.
  destruct (update_readme_fields readme_content all_repos)
    as (_ & Hex & _ & _ & Hrows & _).
  fold st in Hex, Hrows. rewrite Hrows, sort_desc_perm, elem_of_app.
  rewrite !list_elem_of_fmap, Hex, run_repos_by_url.
  split; (intros [(x & ? & ?)|(x & ? & ?)]; [left | right]; eauto).
Qed.

Lemma all_rows_desc :
  StronglySorted (Py.desc stars_key) (all_rows st).
Proof.
  destruct (update_readme_fields readme_content all_repos)
    as (_ & _ & _ & _ & Hrows & _).
  fold st in Hrows. rewrite Hrows. apply sort_desc_sorted.
Qed.
End Rows.

(** ** Rows of a run on well-formed input *)
Section RowFacts.
Context (readme_content : text) (all_repos : dict) (s e : nat).
Hypothesis Hs : Py.find readme_content MARKER_START = Z.of_nat s.
Hypothesis He : Py.find readme_content MARKER_END = Z.of_nat e.
Hypothesis Hnamed : ∀ r, r ∈ all_repos.*2 → github_named r = true.
Hypothesis Hline : ∀ r, r ∈ all_repos.*2 → one_line_row r = true.

Let st : run := update_readme readme_content all_repos.
Let by_url : gmap text repo := (filter_repos ∅ all_repos).2.

Lemma existing_row_readable row0 :
  row0 ∈ parse_table_rows readme_content → readable row0.
Proof.
  intros Hrow. split; [|split; [|split]].
  - by eapply (existing_row_line _ s e).
  - by eapply (existing_row_stripped _ s e).
  - by eapply (existing_row_one_line _ s e).
  - by eapply existing_row_no_end.
Qed.

Lemma marker_end_chars :
  ("|"%char ∉ MARKER_END) ∧ ("<"%char ∈ MARKER_END).
Proof.
  split; [|by left]. by vm_compute; intros H;
    repeat (apply elem_of_cons in H as [H|H]; [done|]);
    apply elem_of_nil in H.
Qed.

Lemma updated_row_readable row0 :
  row0 ∈ parse_table_rows readme_content →
  readable (update_row_stars row0 by_url).
Proof.
  intros Hrow. pose proof (existing_row_readable _ Hrow) as Hfacts.
  destruct (update_row_stars_cases row0 by_url)
    as [->|(m & r & _ & _ & Hlen & ->)]; [done|].
  destruct Hfacts as (Htable & Hstripped & Hnl & Hend).
  split; [|split; [|split]].
  - by rewrite refreshed_is_table_row.
  - by apply refreshed_stripped.
  - intros [Hin|Hin]%refreshed_elem; [done | | done].
    revert Hin. by apply field_without.
  - intros [Hin|Hin]%refreshed_contains;
      [done | | done | apply marker_end_chars].
    apply (contains_elem _ _ "<"%char) in Hin; [|apply marker_end_chars].
    revert Hin. by apply field_without.
Qed.

Lemma new_row_readable r :
  r ∈ all_repos.*2 → readable (build_table_row r).
Proof.
  intros Hr. specialize (Hnamed r Hr). specialize (Hline r Hr).
  apply andb_true_iff in Hline as [[Hnl _]%andb_true_iff Hend].
  apply bool_decide_eq_true in Hnl, Hend.
  split; [|split; [|split]].
  - by apply build_table_row_is_table_row.
  - by apply build_table_row_stripped.
  - by apply build_table_row_one_line.
  - apply not_contains_find. by apply find_missing.
Qed.

Lemma all_rows_readable row : row ∈ all_rows st → readable row.
Proof.
  intros [(row0 & Hrow0 & ->)|(r & Hr & ->)]%all_rows_elem.
  - by apply updated_row_readable.
  - apply new_row_readable. by apply new_repos_elem in Hr as [Hr _].
Qed.

Lemma readable_not_nil row : readable row → row ≠ [].
Proof. by intros [Htable _] ->. Qed.
End RowFacts.

(** ** The second run *)
Section SecondRun.
Context (readme_content : text) (all_repos : dict) (s e : nat).
Hypothesis Hs : Py.find readme_content MARKER_START = Z.of_nat s.
Hypothesis He : Py.find readme_content MARKER_END = Z.of_nat e.
Hypothesis Hle : (s ≤ e)%nat.
Hypothesis Hstars :
  ∀ row, row ∈ parse_table_rows readme_content → stars_without_url row = true.
Hypothesis Hurls :
  parse_existing_entries readme_content
  ⊆ ⋃ (urls_in <$> parse_table_rows readme_content).
Hypothesis Hnamed : ∀ r, r ∈ all_repos.*2 → github_named r = true.
Hypothesis Hline : ∀ r, r ∈ all_repos.*2 → one_line_row r = true.
Hypothesis Hdistinct : distinct_urls all_repos.*2.

Let st : run := update_readme readme_content all_repos.
Let by_url : gmap text repo := (filter_repos ∅ all_repos).2.
Let rows : list text := all_rows st.
Let before : text := take s readme_content.
Let after : text := drop (e + length MARKER_END) readme_content.
Let st2 : run := update_readme (new_readme st) all_repos.

Lemma rows_readable row : row ∈ rows → readable row.
Proof. by apply (all_rows_readable readme_content all_repos s e). Qed.

Lemma rows_stripped row : row ∈ rows → Py.stripped row ∧ row ≠ [].
Proof.
  intros Hrow%rows_readable. split; [apply Hrow|].
  by eapply readable_not_nil.
Qed.

Lemma build_section_body rs :
  build_section rs = MARKER_START ++ section_body rs ++ MARKER_END.
Proof. unfold build_section, section_body. cbv zeta. by list_norm. Qed.

Lemma before_length : length before = s.
Proof.
  subst before. apply find_of_nat in Hs as [Hocc _].
  apply occurs_at_length in Hocc. rewrite length_take. lia.
Qed.

Lemma first_readme : ∃ y, readme_content = before ++ MARKER_START ++ y.
Proof.
  subst before. pose proof (find_of_nat _ _ _ Hs) as [Hocc _].
  apply occurs_at_split in Hocc. eauto.
Qed.

Lemma second_readme :
  new_readme st
  = before ++ MARKER_START ++ section_body rows ++ MARKER_END ++ after.
Proof.
  destruct (update_readme_fields readme_content all_repos)
    as (_ & _ & _ & _ & _ & Hsec & Hnew).
  fold st in Hsec, Hnew. rewrite Hnew, Hsec, build_section_body.
  rewrite Hs, He, <- Nat2Z.inj_add, slice_to, slice_from.
  subst before after rows. by list_norm.
Qed.

Lemma second_find_start :
  Py.find (new_readme st) MARKER_START = Z.of_nat s.
Proof.
  apply find_found, find_nat_complete. rewrite second_readme. split.
  - eexists before, _. split; [done | apply before_length].
  - intros j Hj. destruct (decide (s ≤ j)%nat) as [|Hlt]; [done|].
    exfalso. revert Hj.
    change MARKER_START with ("<"%char :: lit "!-- NANO_LIST_START -->").
    cbn [app]. intros Hj.
    apply occurs_at_before in Hj; [| |rewrite before_length; lia].
    + destruct first_readme as [y Hy].
      pose proof (find_of_nat _ _ _ Hs) as [_ Hmin].
      apply Hlt, Hmin. rewrite Hy. by apply occurs_at_app_r.
    + by vm_compute; intros H;
        repeat (apply elem_of_cons in H as [H|H]; [done|]);
        apply elem_of_nil in H.
Qed.

Lemma marker_end_head :
  MARKER_END = "<"%char :: lit "!-- NANO_LIST_END -->"
  ∧ ("<"%char ∉ lit "!-- NANO_LIST_END -->").
Proof.
  split; [done|]. by vm_compute; intros H;
    repeat (apply elem_of_cons in H as [H|H]; [done|]);
    apply elem_of_nil in H.
Qed.

Lemma second_find_end :
  Py.find (new_readme st) MARKER_END
  = Z.of_nat (s + length MARKER_START + length (section_body rows)).
Proof.
  apply find_found, find_nat_complete. rewrite second_readme. split.
  - exists (before ++ MARKER_START ++ section_body rows), after.
    split; [by list_norm|]. rewrite !length_app, before_length. lia.
  - intros j Hj.
    destruct (decide (s + length MARKER_START + length (section_body rows)
                      ≤ j)%nat) as [|Hlt]; [done|].
    exfalso. destruct marker_end_head as [Hhead Htail].
    rewrite !app_assoc, <- (app_assoc _ MARKER_END) in Hj.
    rewrite Hhead in Hj. cbn [app] in Hj.
    apply occurs_at_before in Hj;
      [|done|rewrite !length_app, before_length; lia].
    rewrite <- Hhead in Hj.
    destruct (decide (j < s)%nat) as [Hjs|Hjs].
    + rewrite <- app_assoc in Hj.
      change MARKER_START with ("<"%char :: lit "!-- NANO_LIST_START -->")
        in Hj.
      cbn [app] in Hj. rewrite Hhead in Hj.
      apply occurs_at_before in Hj; [|done|rewrite before_length; lia].
      rewrite <- Hhead in Hj.
      destruct first_readme as [y Hy].
      pose proof (find_of_nat _ _ _ He) as [_ Hmin].
      assert (e ≤ j)%nat; [|lia].
      apply Hmin. rewrite Hy. by apply occurs_at_app_r.
    + rewrite <- app_assoc in Hj. apply occurs_at_suffix in Hj;
        [|rewrite before_length; lia].
      assert (Py.contains (MARKER_START ++ section_body rows) MARKER_END)
        as Hc by (eexists; exact Hj).
      apply section_body_end in Hc as (row & Hrow & Hc).
      by apply rows_readable in Hrow as (_ & _ & _ & Hno).
Qed.

(** The second run reads back the rows that the first run wrote. *)
Lemma second_rows : parse_table_rows (new_readme st) = rows.
Proof.
  rewrite (parse_table_rows_found _ _ _ second_find_start second_find_end).
  rewrite second_readme.
  replace (s + length MARKER_START)%nat
    with (length (before ++ MARKER_START))
    by (rewrite length_app, before_length; lia).
  rewrite (app_assoc before), slice_middle.
  apply section_body_rows. intros row Hrow%rows_readable.
  split; [apply Hrow | split; apply Hrow].
Qed.

Lemma second_existing row :
  row ∈ rows → urls_in row ⊆ parse_existing_entries (new_readme st).
Proof.
  intros Hrow.
  rewrite (parse_existing_entries_found _ _ _ second_find_start
             second_find_end).
  rewrite second_readme, <- before_length, <- Nat.add_assoc.
  rewrite <- length_app.
  rewrite (app_assoc MARKER_START (section_body rows)), slice_middle.
  etransitivity; [|apply urls_in_after_start].
  apply section_body_urls; [apply rows_stripped | done].
Qed.

(** Refreshing a refreshed row changes nothing, and loses none of its
    URLs. *)
Lemma updated_row_again row0 :
  row0 ∈ parse_table_rows readme_content →
  update_row_stars (update_row_stars row0 by_url) by_url
  = update_row_stars row0 by_url
  ∧ urls_in (update_row_stars row0 by_url) = urls_in row0.
Proof.
  intros Hrow. specialize (Hstars _ Hrow).
  apply bool_decide_eq_true in Hstars.
  destruct (update_row_stars_cases row0 by_url)
    as [Heq|(m & r & Hm & Hr & Hlen & Heq)]; rewrite Heq; [by rewrite Heq|].
  pose proof (refreshed_finditer row0 (stargazers_count r) Hlen Hstars)
    as Hfind.
  cbv zeta in Hfind. split; [|unfold urls_in; by rewrite Hfind].
  unfold update_row_stars at 1.
  rewrite search_head, Hfind, <- search_head, Hm, Hr.
  pose proof (refreshed_split row0 (stargazers_count r) Hlen) as Hsplit.
  cbv zeta in Hsplit. rewrite Hsplit, length_insert.
  rewrite (proj2 (Nat.leb_le _ _) Hlen). by rewrite list_insert_insert_eq.
Qed.

Lemma new_row_again r :
  r ∈ all_repos.*2 →
  update_row_stars (build_table_row r) by_url = build_table_row r.
Proof.
  intros Hr. apply build_table_row_refreshed; [by apply Hnamed|].
  apply list_elem_of_fmap in Hr as ([k r'] & -> & Hin).
  by eapply repos_by_url_distinct.
Qed.

Lemma rows_again row : row ∈ rows → update_row_stars row by_url = row.
Proof.
  intros [(row0 & Hrow0 & ->)|(r & Hr & ->)]%all_rows_elem.
  - by apply updated_row_again.
  - apply new_row_again. by apply new_repos_elem in Hr as [Hr _].
Qed.

(** Every repository is left out of the new repositories of the second
    run. *)
Lemma second_excluded r :
  r ∈ all_repos.*2 →
  fork r || archived r
  || bool_decide (canonical (html_url r)
                  ∈ parse_existing_entries (new_readme st)) = true.
Proof.
  intros Hr. destruct (fork r) eqn:Hfork; [done|].
  destruct (archived r) eqn:Harch; [done|]. cbn [orb].
  apply bool_decide_eq_true.
  destruct (decide (canonical (html_url r)
                    ∈ parse_existing_entries readme_content)) as [Hold|Hnew].
  - apply Hurls, elem_of_union_list in Hold as (X & HX & Hu).
    apply list_elem_of_fmap in HX as (row0 & -> & Hrow0).
    apply (second_existing (update_row_stars row0 by_url)).
    + apply all_rows_elem. left. eauto.
    + by rewrite (proj2 (updated_row_again _ Hrow0)).
  - apply (second_existing (build_table_row r)).
    + apply all_rows_elem. right. exists r. split; [|done].
      by apply new_repos_elem.
    + unfold urls_in. rewrite build_table_row_finditer by (by apply Hnamed).
      rewrite fmap_cons. cbn [list_to_set foldr]. apply elem_of_union.
      left. by apply elem_of_singleton.
Qed.

Lemma second_new_repos : new_repos st2 = [].
Proof.
  destruct (update_readme_fields (new_readme st) all_repos)
    as (_ & _ & Hnew & _).
  fold st2 in Hnew. rewrite Hnew, filter_repos_spec. cbn [fst].
  rewrite filter_none; [done|]. intros r Hr.
  by rewrite (second_excluded r Hr).
Qed.

Lemma second_all_rows : all_rows st2 = rows.
Proof.
  destruct (update_readme_fields (new_readme st) all_repos)
    as (_ & Hex & _ & Hby & Hrows & _).
  fold st2 in Hex, Hby, Hrows.
  rewrite Hrows, second_new_repos, Hex, second_rows, Hby.
  rewrite repos_by_url_any. fold by_url.
  rewrite fmap_nil, app_nil_r, (fmap_fixed _ rows) by apply rows_again.
  apply sort_desc_id, all_rows_desc.
Qed.

(** The second run builds the section of the first run, writes the README
    of the first run, and adds nothing. *)
Lemma second_run_same :
  new_section st2 = new_section st
  ∧ all_rows st2 = all_rows st
  ∧ new_readme st2 = new_readme st
  ∧ new_repos st2 = [].
Proof.
  destruct (update_readme_fields (new_readme st) all_repos)
    as (_ & _ & _ & _ & _ & Hsec2 & Hnew2).
  destruct (update_readme_fields readme_content all_repos)
    as (_ & _ & _ & _ & _ & Hsec & _).
  fold st2 in Hsec2, Hnew2. fold st in Hsec, Hnew2.
  assert (new_section st2 = new_section st) as Hsame.
  { rewrite Hsec2, Hsec, second_all_rows. done. }
  split; [done|]. split; [apply second_all_rows|].
  split; [|apply second_new_repos].
  rewrite Hnew2, Hsame, second_find_start, second_find_end.
  rewrite <- Nat2Z.inj_add, slice_to, slice_from.
  rewrite Hsec, build_section_body. fold rows.
  rewrite second_readme.
  rewrite take_app_length' by (by rewrite before_length).
  f_equal. rewrite <- !app_assoc. do 3 f_equal.
  rewrite !app_assoc. apply drop_app_length'.
  rewrite !length_app, before_length. lia.
Qed.
End SecondRun.

(** ** The README as it is read from the file *)

Lemma universal_newlines_no_cr (s : text) :
  "013"%char ∉ universal_newlines s.
Proof.
  assert (∀ n (t : text), (length t ≤ n)%nat
          → "013"%char ∉ universal_newlines t) as Hall.
  { induction n as [|n IH]; intros [|c t] Hlen; cbn [length] in Hlen;
      try apply not_elem_of_nil; [lia|].
    cbn [universal_newlines].
    destruct (Ascii.eqb c "013") eqn:Hc.
    - destruct t as [|d t'].
      + by intros [?|?%elem_of_nil]%elem_of_cons.
      + destruct (Ascii.eqb d "010");
          apply not_elem_of_cons; (split; [done|]); apply IH;
          cbn [length] in *; lia.
    - apply eqb_false_iff in Hc. apply not_elem_of_cons.
      split; [done|]. apply IH. lia. }
  by apply (Hall (length s)).
Qed.

Lemma read_text_no_cr (stored : text) : "013"%char ∉ read_text stored.
Proof. apply universal_newlines_no_cr. Qed.

Lemma write_text_cons (linesep : text) (c : ascii) (s : text) :
  write_text linesep (c :: s)
  = (if Ascii.eqb c "010" then linesep else [c]) ++ write_text linesep s.
Proof. done. Qed.

(** A text without carriage returns is read as it was written, whatever
    the line separator of the platform. *)
Lemma read_write_text (windows : bool) (s : text) :
  "013"%char ∉ s → read_text (write_text (os_linesep windows) s) = s.
Proof.
  unfold read_text.
  assert (∀ t, universal_newlines (os_linesep windows ++ t)
               = "010"%char :: universal_newlines t) as Hsep
    by (by destruct windows).
  induction s as [|c s IH]; [done|]. intros [Hc Hs]%not_elem_of_cons.
  rewrite write_text_cons. destruct (Ascii.eqb c "010") eqn:Hnl.
  - apply eqb_true_iff in Hnl as ->. by rewrite Hsep, IH.
  - cbn [app universal_newlines].
    rewrite (proj2 (eqb_false_iff c "013")) by done. by rewrite IH.
Qed.

Lemma elem_contains (c : ascii) (s : text) : c ∈ s ↔ Py.contains s [c].
Proof.
  split.
  - intros (a & b & ->)%list_elem_of_split. by exists (length a), a, b.
  - intros (i & a & b & -> & _). apply elem_of_app. right. by left.
Qed.

(** A run on a README without carriage returns writes none, when the
    descriptions of the repositories have none. *)
Section NoCarriageReturn.
Context (readme_content : text) (all_repos : dict) (s e : nat).
Hypothesis Hs : Py.find readme_content MARKER_START = Z.of_nat s.
Hypothesis He : Py.find readme_content MARKER_END = Z.of_nat e.
Hypothesis Hnamed : ∀ r, r ∈ all_repos.*2 → github_named r = true.
Hypothesis Hline : ∀ r, r ∈ all_repos.*2 → one_line_row r = true.
Hypothesis Hcr : "013"%char ∉ readme_content.

Let st : run := update_readme readme_content all_repos.
Let by_url : gmap text repo := (filter_repos ∅ all_repos).2.

Lemma existing_row_no_cr row0 :
  row0 ∈ parse_table_rows readme_content → "013"%char ∉ row0.
Proof.
  intros Hrow Hin%elem_contains.
  eapply existing_row_contains in Hin; [|exact Hs|exact He|exact Hrow].
  apply contains_slice in Hin as (j & (a & b & Heq & _) & _); [|done].
  apply Hcr. rewrite Heq. apply elem_of_app. right. by left.
Qed.

Lemma updated_row_no_cr row0 :
  row0 ∈ parse_table_rows readme_content →
  "013"%char ∉ update_row_stars row0 by_url.
Proof.
  intros Hrow. pose proof (existing_row_no_cr _ Hrow) as Hno.
  destruct (update_row_stars_cases row0 by_url)
    as [->|(m & r & _ & _ & Hlen & ->)]; [done|].
  intros [Hin|Hin]%refreshed_elem; [done | | done].
  revert Hin. by apply field_without.
Qed.

Lemma new_row_no_cr r :
  r ∈ all_repos.*2 → "013"%char ∉ build_table_row r.
Proof.
  intros Hr. specialize (Hnamed r Hr). specialize (Hline r Hr).
  apply andb_true_iff in Hline as [[_ Hd]%andb_true_iff _].
  apply bool_decide_eq_true in Hd.
  unfold build_table_row, lit. cbn [list_ascii_of_string].
  rewrite !not_elem_of_app, !not_elem_of_cons.
  pose proof (name_without r Hnamed "013" eq_refl).
  pose proof (url_without r Hnamed "013" eq_refl).
  assert ("013"%char ∉ render_description r).
  { intros [?|[?|?]]%render_description_elem; done. }
  assert ("013"%char ∉ Py.str (stargazers_count r)).
  { intros Hin. pose proof (str_chars (stargazers_count r)) as Hall.
    rewrite Forall_forall in Hall. by destruct (Hall _ Hin). }
  repeat split; try done; apply not_elem_of_nil.
Qed.

Lemma all_rows_no_cr row : row ∈ all_rows st → "013"%char ∉ row.
Proof.
  intros [(row0 & Hrow0 & ->)|(r & Hr & ->)]%all_rows_elem.
  - by apply updated_row_no_cr.
  - apply new_row_no_cr. by apply new_repos_elem in Hr as [Hr _].
Qed.

Lemma new_readme_no_cr : "013"%char ∉ new_readme st.
Proof.
  destruct (update_readme_fields readme_content all_repos)
    as (_ & _ & _ & _ & _ & Hsec & Hnew).
  fold st in Hsec, Hnew.
  rewrite Hs, He, <- Nat2Z.inj_add, slice_to, slice_from, Hsec in Hnew.
  rewrite Hnew, build_section_body. unfold section_body. intros Hin.
  assert (∀ piece : text, "013"%char ∈ piece
          → bool_decide ("013"%char ∉ piece) = true → False) as Hclosed
    by (intros piece Hp Hd%bool_decide_eq_true; done).
  apply elem_of_app in Hin as [Hin|Hin].
  { apply Hcr. rewrite <- (take_drop s readme_content).
    apply elem_of_app. by left. }
  apply elem_of_app in Hin as [Hin|Hin].
  - apply elem_of_app in Hin as [Hin|Hin];
      [by apply (Hclosed _ Hin)|].
    apply elem_of_app in Hin as [Hin|Hin];
      [|by apply (Hclosed _ Hin)].
    apply elem_of_cons in Hin as [?|Hin]; [done|].
    apply elem_of_app in Hin as [Hin|Hin];
      [by apply (Hclosed _ Hin)|].
    apply elem_of_app in Hin as [Hin|Hin].
    + apply elem_contains in Hin.
      apply contains_join in Hin as (row & Hrow & Hin%elem_contains);
        [|by apply (bool_decide_unpack _)|done].
      by apply (all_rows_no_cr row).
    + by apply elem_of_cons in Hin as [?|?%elem_of_nil].
  - apply Hcr.
    rewrite <- (take_drop (e + length MARKER_END) readme_content).
    apply elem_of_app. by right.
Qed.
End NoCarriageReturn.

(** ** Idempotence *)

Lemma markers_in_order_found readme_content :
  markers_in_order readme_content = true →
  ∃ s e, Py.find readme_content MARKER_START = Z.of_nat s
         ∧ Py.find readme_content MARKER_END = Z.of_nat e
         ∧ (s ≤ e)%nat.
Proof.
  unfold markers_in_order. rewrite andb_true_iff, !Z.leb_le.
  destruct (find_cases readme_content MARKER_START)
    as [[-> _]|(s & -> & _)]; [lia|].
  destruct (find_cases readme_content MARKER_END)
    as [[-> _]|(e & -> & _)]; [lia|].
  intros [_ Hle]. exists s, e. split; [done|]. split; [done | lia].
Qed.

Lemma forallb_elem {A} (f : A → bool) (l : list A) x :
  forallb f l = true → x ∈ l → f x = true.
Proof.
  rewrite forallb_forall. intros H Hx. apply H. by apply list_elem_of_In.
Qed.

(** C8 (as amended).  Let the search raise no exception, and let the input
    be well formed: in the README, as it is read from its file in text
    mode, the start marker is present and not after the end marker, every
    repository URL found in the section is found in one of its table rows,
    and no table row has a repository URL in its stars column; the
    repositories that the search aggregates have pairwise different
    canonical URLs, names made of the characters [[\w\-\.]], an [html_url]
    that the URL pattern matches as a whole, a description without a newline
    and without a carriage return, and a built row that does not contain
    the end marker.  Then the second run reads from the file the README
    that the first run wrote, and, with the same answers of the API, it
    builds the same rows and the same section, writes the same README,
    leaves the file as the first run left it, and adds no new repository. *)
Theorem run_twice_same (windows : bool) (stored : text)
    (api : text → response) (all_repos : dict) :
  let readme_content := read_text stored in
  search_all api SEARCH_QUERIES [] = Ok all_repos →
  markers_in_order readme_content = true →
  urls_in_rows readme_content = true →
  forallb stars_without_url (parse_table_rows readme_content) = true →
  distinct_urls all_repos.*2 →
  forallb github_named all_repos.*2 = true →
  forallb one_line_row all_repos.*2 = true →
  ∃ st1 stored1 st2 stored2,
    main readme_content api = Ok st1
    ∧ main_on_file windows stored api = Ok (st1, stored1)
    ∧ read_text stored1 = new_readme st1
    ∧ main_on_file windows stored1 api = Ok (st2, stored2)
    ∧ stored2 = stored1
    ∧ all_rows st2 = all_rows st1
    ∧ new_section st2 = new_section st1
    ∧ new_readme st2 = new_readme st1
    ∧ new_repos st2 = [].
Proof.
  intros readme_content Hsearch Hmarkers Hurls%bool_decide_eq_true Hstars
    Hdistinct Hnamed Hline.
  destruct (markers_in_order_found _ Hmarkers) as (s & e & Hs & He & Hle).
  set (st1 := update_readme readme_content all_repos).
  set (st2 := update_readme (new_readme st1) all_repos).
  assert (∀ r, r ∈ all_repos.*2 → github_named r = true) as Hnamed'
    by (intros r; apply forallb_elem, Hnamed).
  assert (∀ r, r ∈ all_repos.*2 → one_line_row r = true) as Hline'
    by (intros r; apply forallb_elem, Hline).
  assert (read_text (write_text (os_linesep windows) (new_readme st1))
          = new_readme st1) as Hread.
  { apply read_write_text.
    apply (new_readme_no_cr readme_content all_repos s e Hs He Hnamed' Hline').
    apply read_text_no_cr. }
  destruct (second_run_same readme_content all_repos s e Hs He Hle)
    as (Hsec & Hrows & Hreadme & Hnew); try done.
  { intros row. apply forallb_elem, Hstars. }
  fold st1 st2 in Hsec, Hrows, Hreadme, Hnew.
  exists st1, (write_text (os_linesep windows) (new_readme st1)),
    st2, (write_text (os_linesep windows) (new_readme st2)).
  assert (main readme_content api = Ok st1) as Hmain
    by (unfold main; by rewrite Hsearch).
  split; [done|].
  split; [unfold main_on_file; fold readme_content; by rewrite Hmain|].
  split; [done|].
  split; [unfold main_on_file, main; by rewrite Hread, Hsearch|].
  split; [by rewrite Hreadme|]. done.
Qed.

Lemma run_twice_same_witness :
  ∃ st1 stored1 st2 stored2,
    main (read_text Examples.readme_crlf) Examples.api = Ok st1
    ∧ main_on_file true Examples.readme_crlf Examples.api = Ok (st1, stored1)
    ∧ read_text stored1 = new_readme st1
    ∧ main_on_file true stored1 Examples.api = Ok (st2, stored2)
    ∧ stored2 = stored1
    ∧ all_rows st2 = all_rows st1
    ∧ new_section st2 = new_section st1
    ∧ new_readme st2 = new_readme st1
    ∧ new_repos st2 = [].
Proof.
  apply (run_twice_same true Examples.readme_crlf Examples.api
           Examples.found);
    try (by vm_compute).
  apply (bool_decide_unpack _). by vm_compute.
Defined.

(** C8, as the specification words it, fails.  The section of the README
    names a repository in a line that is not a table row: the first run takes
    the repository as listed and drops the line, so the second run, with the
    same answers of the API, adds the repository and builds another
    section.  The README has no carriage return, and the runs are the runs
    on its file: the second run reads what the first run wrote. *)
Lemma note_line_breaks_idempotence :
  main Examples.readme_note Examples.bar_api = Ok Examples.note_first
  ∧ main (new_readme Examples.note_first) Examples.bar_api
    = Ok Examples.note_second
  ∧ new_section Examples.note_second ≠ new_section Examples.note_first
  ∧ new_repos Examples.note_first = []
  ∧ new_repos Examples.note_second = [Examples.bar]
  ∧ main_on_file false Examples.readme_note Examples.bar_api
    = Ok (Examples.note_first, new_readme Examples.note_first)
  ∧ main_on_file false (new_readme Examples.note_first) Examples.bar_api
    = Ok (Examples.note_second, new_readme Examples.note_second)
  ∧ new_readme Examples.note_second ≠ new_readme Examples.note_first.
Proof.
  split; [by vm_compute|]. split; [by vm_compute|].
  split; [by vm_compute|]. split; [by vm_compute|].
  split; [by vm_compute|]. split; [by vm_compute|].
  split; by vm_compute.
Qed.

(** ** Duplicates *)

Lemma no_shared_url_cons row rows :
  no_shared_url (row :: rows) ↔
  (∀ u, u ∈ urls_in row → ∀ row', row' ∈ rows → u ∉ urls_in row')
  ∧ no_shared_url rows.
Proof.
  unfold no_shared_url. rewrite bind_cons, NoDup_app. split.
  - intros (_ & Hdisj & Hrows). split; [|done].
    intros u Hu row' Hrow' Hu'. apply (Hdisj u); [by apply elem_of_elements|].
    apply list_elem_of_bind. exists row'. by rewrite elem_of_elements.
  - intros [Hdisj Hrows]. split; [apply NoDup_elements|]. split; [|done].
    intros u Hu%elem_of_elements (row' & Hu'%elem_of_elements & Hrow')
      %list_elem_of_bind.
    by apply (Hdisj u Hu row').
Qed.

(** [no_shared_url] in words: a URL found in two rows is found in the same
    row. *)
Lemma no_shared_url_spec rows :
  no_shared_url rows ↔
  ∀ i j row_i row_j u,
    rows !! i = Some row_i → rows !! j = Some row_j →
    u ∈ urls_in row_i → u ∈ urls_in row_j → i = j.
Proof.
  induction rows as [|row rows IH].
  - split; [|constructor]. intros _ i j ri rj u Hi. by destruct i.
  - rewrite no_shared_url_cons, IH. split.
    + intros [Hdisj Hrows] [|i] [|j] ri rj u Hi Hj Hui Huj; [done| | |].
      * injection Hi as <-. exfalso.
        apply (Hdisj u Hui rj); [|done]. by eapply list_elem_of_lookup_2.
      * injection Hj as <-. exfalso.
        apply (Hdisj u Huj ri); [|done]. by eapply list_elem_of_lookup_2.
      * f_equal. by eapply Hrows.
    + intros H. split.
      * intros u Hu row' [j Hj]%list_elem_of_lookup Hu'.
        by specialize (H 0%nat (S j) row row' u eq_refl Hj Hu Hu').
      * intros i j ri rj u Hi Hj Hui Huj.
        by specialize (H (S i) (S j) ri rj u Hi Hj Hui Huj) as [= ->].
Qed.

Lemma no_shared_url_perm rows rows' :
  rows ≡ₚ rows' → no_shared_url rows → no_shared_url rows'.
Proof. unfold no_shared_url. by intros ->. Qed.

Lemma no_shared_url_app rows rows' :
  no_shared_url (rows ++ rows') ↔
  no_shared_url rows
  ∧ (∀ u row row', row ∈ rows → row' ∈ rows' →
       u ∈ urls_in row → u ∉ urls_in row')
  ∧ no_shared_url rows'.
Proof.
  induction rows as [|r rows IH]; cbn [app].
  - split; [|by intros (_ & _ & ?)]. intros H.
    split; [constructor|]. split; [|done].
    by intros u row row' ?%elem_of_nil.
  - rewrite !no_shared_url_cons, IH. split.
    + intros (Hr & Hrows & Hcross & Hrows').
      split; [split; [|done]|split; [|done]].
      * intros u Hu row' Hrow'. apply Hr; [done|]. apply elem_of_app. by left.
      * intros u row row' [->|Hrow]%elem_of_cons Hrow' Hu.
        -- apply (Hr u Hu). apply elem_of_app. by right.
        -- by apply (Hcross u row).
    + intros ([Hr Hrows] & Hcross & Hrows').
      split; [|split; [done|split; [|done]]].
      * intros u Hu row' [Hrow'|Hrow']%elem_of_app; [by apply Hr|].
        apply (Hcross u r row'); [left | done | done].
      * intros u row row' Hrow. apply Hcross. by right.
Qed.

(** Rows that lose URLs do not come to share one. *)
Lemma no_shared_url_fmap (f : text → text) rows :
  (∀ row, row ∈ rows → urls_in (f row) ⊆ urls_in row) →
  no_shared_url rows → no_shared_url (f <$> rows).
Proof.
  induction rows as [|row rows IH]; intros Hsub; [done|].
  rewrite fmap_cons, !no_shared_url_cons. intros [Hdisj Hrows]. split.
  - intros u Hu row' (row0 & -> & Hrow0)%list_elem_of_fmap Hu'.
    assert (u ∈ urls_in row) as Hrow by (apply Hsub; [left | done]).
    apply (Hdisj u Hrow row0 Hrow0). apply Hsub; [by right | done].
  - apply IH; [|done]. intros r Hr. apply Hsub. by right.
Qed.

Lemma NoDup_fmap_filter {A B} (g : A → B) (p : A → bool) (l : list A) :
  NoDup (g <$> l) → NoDup (g <$> List.filter p l).
Proof.
  induction l as [|x l IH]; [done|]. rewrite fmap_cons, NoDup_cons.
  intros [Hx Hl]. cbn [List.filter]. destruct (p x); [|by apply IH].
  rewrite fmap_cons, NoDup_cons. split; [|by apply IH].
  intros (y & Hy & Hin)%list_elem_of_fmap. apply Hx.
  apply list_elem_of_fmap. exists y. split; [done|].
  by apply list_elem_of_In, filter_In in Hin as [Hin%list_elem_of_In _].
Qed.

Lemma update_row_stars_urls (row : text) (by_url : gmap text repo) :
  urls_in (update_row_stars row by_url) ⊆ urls_in row.
Proof.
  destruct (update_row_stars_cases row by_url)
    as [->|(m & r & _ & _ & Hlen & ->)]; [done|].
  by apply refreshed_urls.
Qed.

Section Duplicates.
Context (readme_content : text) (all_repos : dict).
Hypothesis Hrows : no_shared_url (parse_table_rows readme_content).
Hypothesis Hdistinct : distinct_urls all_repos.*2.
Hypothesis Hnamed : ∀ r, r ∈ all_repos.*2 → github_named r = true.
Hypothesis Hplain : ∀ r, r ∈ all_repos.*2 → description_without_url r = true.

Let st : run := update_readme readme_content all_repos.

Lemma new_row_urls r :
  r ∈ all_repos.*2 →
  urls_in (build_table_row r) = {[ canonical (html_url r) ]}.
Proof.
  intros Hr. unfold urls_in.
  rewrite build_table_row_finditer by (by apply Hnamed).
  specialize (Hplain r Hr). apply bool_decide_eq_true, search_None in Hplain.
  rewrite Hplain. cbn. by rewrite union_empty_r_L.
Qed.

Lemma new_rows_no_shared_url :
  no_shared_url (build_table_row <$> new_repos st).
Proof.
  unfold no_shared_url.
  assert ((build_table_row <$> new_repos st)
          ≫= (λ row, elements (urls_in row))
          = (λ r, canonical (html_url r)) <$> new_repos st) as ->.
  { assert (∀ r, r ∈ new_repos st → r ∈ all_repos.*2) as Hall.
    { intros r Hr. by apply new_repos_elem in Hr as [Hr _]. }
    induction (new_repos st) as [|r rs IH]; [done|].
    rewrite !fmap_cons, bind_cons, IH by (intros; apply Hall; by right).
    rewrite new_row_urls by (apply Hall; left).
    by rewrite elements_singleton. }
  destruct (update_readme_fields readme_content all_repos)
    as (_ & _ & Hnew & _).
  fold st in Hnew. rewrite Hnew, sort_desc_perm, filter_repos_spec.
  cbn [fst]. by apply NoDup_fmap_filter.
Qed.

(** A run leaves the rows without a shared URL. *)
Lemma all_rows_no_shared_url : no_shared_url (all_rows st).
Proof.
  destruct (update_readme_fields readme_content all_repos)
    as (_ & Hex & _ & _ & Hall & _).
  fold st in Hex, Hall. rewrite Hall.
  eapply no_shared_url_perm; [symmetry; apply sort_desc_perm|].
  apply no_shared_url_app. split; [|split].
  - rewrite Hex. apply no_shared_url_fmap; [|done].
    intros row _. apply update_row_stars_urls.
  - intros u row row' (row0 & -> & Hrow0)%list_elem_of_fmap
      (r & -> & Hr)%list_elem_of_fmap Hu.
    apply update_row_stars_urls in Hu. rewrite Hex in Hrow0.
    apply (existing_rows_urls _ _ Hrow0) in Hu.
    apply new_repos_elem in Hr as (Hr & _ & _ & Hnot).
    rewrite new_row_urls by done. by intros ->%elem_of_singleton.
  - apply new_rows_no_shared_url.
Qed.
End Duplicates.

(** C7 (as amended).  If in the README that is read no canonical URL is
    found in more than one table row, and the repositories that the search
    aggregates have pairwise different canonical URLs, names made of the
    characters [[\w\-\.]], an [html_url] that the URL pattern matches as a
    whole, and a rendered description in which no repository URL is found,
    then in the final section no canonical URL is found in more than one
    row.  (The script removes no duplicate that is already there: it keeps
    the URLs of the new rows apart from the set of URLs it has read.) *)
Theorem final_rows_share_no_url (readme_content : text) (all_repos : dict) :
  no_shared_url (parse_table_rows readme_content) →
  distinct_urls all_repos.*2 →
  forallb github_named all_repos.*2 = true →
  forallb description_without_url all_repos.*2 = true →
  let st := update_readme readme_content all_repos in
  no_shared_url (all_rows st)
  ∧ (∀ i j row_i row_j u,
       all_rows st !! i = Some row_i → all_rows st !! j = Some row_j →
       u ∈ urls_in row_i → u ∈ urls_in row_j → i = j)
  ∧ (∀ r, r ∈ new_repos st →
       canonical (html_url r) ∉ parse_existing_entries readme_content).
Proof.
  intros Hrows Hdistinct Hnamed Hplain st.
  assert (no_shared_url (all_rows st)) as Hfinal.
  { apply all_rows_no_shared_url; try done.
    - intros r. apply forallb_elem, Hnamed.
    - intros r. apply forallb_elem, Hplain. }
  split; [done|]. split; [by apply no_shared_url_spec|].
  intros r Hr. by apply new_repos_elem in Hr as (_ & _ & _ & Hnot).
Qed.

Lemma final_rows_share_no_url_witness :
  no_shared_url (all_rows (update_readme Examples.readme Examples.found)).
Proof.
  apply (final_rows_share_no_url Examples.readme Examples.found);
    try reflexivity; apply (bool_decide_unpack _); by vm_compute.
Defined.

(** C7, as the specification words it, fails: a section that lists a
    repository twice is written back with both rows, whatever the search
    finds. *)
Lemma duplicate_rows_are_kept :
  main Examples.readme_twice Examples.empty_api
  = Ok (update_readme Examples.readme_twice [])
  ∧ all_rows (update_readme Examples.readme_twice []) !! 0%nat
    = Some Examples.foo_row
  ∧ all_rows (update_readme Examples.readme_twice []) !! 1%nat
    = Some Examples.foo_row
  ∧ canonical (html_url Examples.foo) ∈ urls_in Examples.foo_row
  ∧ ¬ no_shared_url (all_rows (update_readme Examples.readme_twice [])).
Proof.
  split; [by vm_compute|]. split; [by vm_compute|]. split; [by vm_compute|].
  split; [apply (bool_decide_unpack _); by vm_compute|].
  apply (bool_decide_unpack _). by vm_compute.
Qed.

(** ** The scenario of the specification

    The README lists [foo] with 500 stars; the search finds [foo] with 600
    stars and the new repository [bar] with 700 stars.  The section written
    has [bar] first, and [foo] with its stars refreshed and its description
    as it was. *)
Lemma scenario_two_rows :
  ∃ st,
    main Examples.readme Examples.api = Ok st
    ∧ new_repos st = [Examples.bar]
    ∧ all_rows st
      = [ lit "| [bar](https://github.com/b/bar) | Bar - thing | 700 |";
          lit "| [foo](https://github.com/a/foo) | desc | 600 |" ].
Proof.
  exists (update_readme Examples.readme Examples.found).
  split; [by vm_compute|]. split; by vm_compute.
Qed.

(** ** The search loop *)

Lemma add_repo_keys (d : dict) (r : repo) :
  NoDup d.*1 → NoDup (add_repo d r).*1.
Proof.
  intros Hd. unfold add_repo. case_bool_decide as Hin; [done|].
  rewrite fmap_app. apply NoDup_app. split; [done|]. split.
  - intros k Hk [->|[]%elem_of_nil]%elem_of_cons. done.
  - apply NoDup_singleton.
Qed.

Lemma foldl_add_repo_keys (repos : list repo) (d : dict) :
  NoDup d.*1 → NoDup (foldl add_repo d repos).*1.
Proof.
  revert d. induction repos as [|r repos IH]; intros d Hd; [done|].
  cbn [foldl]. by apply IH, add_repo_keys.
Qed.

(** The first repository of a list with a given lowercase full name. *)
Lemma first_with_key (repos : list repo) (r : repo) :
  r ∈ repos →
  ∃ pre r0 post,
    repos = pre ++ r0 :: post
    ∧ Py.lower (full_name r0) = Py.lower (full_name r)
    ∧ ∀ x, x ∈ pre → Py.lower (full_name x) ≠ Py.lower (full_name r).
Proof.
  induction repos as [|y repos IH]; [by intros ?%elem_of_nil|].
  intros Hin.
  destruct (decide (Py.lower (full_name y) = Py.lower (full_name r)))
    as [Heq|Hne].
  - exists [], y, repos. split; [done|]. split; [done|].
    by intros x ?%elem_of_nil.
  - apply elem_of_cons in Hin as [->|Hin]; [done|].
    destruct (IH Hin) as (pre & r0 & post & -> & Hkey & Hpre).
    exists (y :: pre), r0, post. split; [done|]. split; [done|].
    intros x [->|Hx]%elem_of_cons; [done|by apply Hpre].
Qed.

(** Started from the empty dict, the inner loop keeps under each key the
    first repository that has it. *)
Lemma foldl_add_repo_first (repos : list repo) (k : text) (r0 : repo) :
  (k, r0) ∈ foldl add_repo [] repos ↔
  ∃ pre post,
    repos = pre ++ r0 :: post
    ∧ k = Py.lower (full_name r0)
    ∧ ∀ x, x ∈ pre → Py.lower (full_name x) ≠ k.
Proof.
  revert k r0. induction repos as [|y repos IH] using rev_ind; intros k r0.
  { cbn [foldl]. split; [by intros ?%elem_of_nil|].
    intros (pre & post & Heq & _). by destruct pre. }
  rewrite foldl_app. cbn [foldl].
  assert (Py.lower (full_name y) ∈ (foldl add_repo [] repos).*1
          ↔ ∃ x, x ∈ repos ∧ Py.lower (full_name x) = Py.lower (full_name y))
    as Hkeys.
  { split.
    - intros ([k' r'] & Hk & Hin)%list_elem_of_fmap. cbn [fst] in Hk.
      apply IH in Hin as (pre & post & -> & -> & _).
      exists r'. split; [|done]. apply elem_of_app. right. by left.
    - intros (x & Hx & Hkey).
      destruct (first_with_key repos x Hx) as (pre & x0 & post & Heq & Hk0 & Hpre).
      apply list_elem_of_fmap. exists (Py.lower (full_name x0), x0).
      split; [cbn [fst]; congruence|].
      apply IH. exists pre, post. split; [done|]. split; [done|].
      intros z Hz. rewrite Hk0. by apply Hpre. }
  unfold add_repo at 1. case_bool_decide as Hin.
  - rewrite IH. split.
    + intros (pre & post & -> & -> & Hpre).
      exists pre, (post ++ [y]). split; [by list_norm|]. done.
    + intros (pre & post & Heq & -> & Hpre).
      induction post as [|z post' _] using rev_ind.
      * apply (app_inj_tail repos pre y r0) in Heq as [-> ->].
        apply Hkeys in Hin as (x & Hx & Hkey). by destruct (Hpre x Hx).
      * rewrite app_comm_cons, app_assoc in Heq.
        apply app_inj_tail in Heq as [-> ->]. eauto.
  - rewrite elem_of_app, IH, list_elem_of_singleton. split.
    + intros [(pre & post & -> & -> & Hpre)|[= -> ->]].
      * exists pre, (post ++ [y]). split; [by list_norm|]. done.
      * exists repos, []. split; [done|]. split; [done|].
        intros x Hx Hkey. apply Hin, Hkeys. eauto.
    + intros (pre & post & Heq & -> & Hpre).
      induction post as [|z post' _] using rev_ind.
      * apply (app_inj_tail repos pre y r0) in Heq as [-> ->]. by right.
      * rewrite app_comm_cons, app_assoc in Heq.
        apply app_inj_tail in Heq as [-> ->]. left. eauto.
Qed.

(** The search loop succeeds when every query does, and then aggregates
    the answers in the order of the queries. *)
Lemma search_all_fetched api (queries : list text) (d0 d : dict) :
  search_all api queries d0 = Ok d ↔
  ∃ answers : list (list repo),
    Forall2 (λ query items, search_repos api query = Ok items) queries answers
    ∧ d = foldl add_repo d0 (concat answers).
Proof.
  revert d0. induction queries as [|q queries IH]; intros d0; cbn [search_all].
  - split.
    + intros [= <-]. exists []. by split; [constructor|].
    + intros (answers & ->%Forall2_nil_inv_l & ->). done.
  - unfold bind. destruct (search_repos api q) as [items|e] eqn:Hq.
    + rewrite IH. split.
      * intros (answers & Hall & ->). exists (items :: answers).
        split; [by constructor|]. cbn [concat]. by rewrite foldl_app.
      * intros (answers & Hall & ->).
        apply Forall2_cons_inv_l in Hall as (items' & answers' & Hq' & Hall & ->).
        assert (items' = items) as -> by congruence.
        exists answers'. split; [done|]. cbn [concat]. by rewrite foldl_app.
    + split; [done|]. intros (answers & Hall & _).
      apply Forall2_cons_inv_l in Hall as (items' & answers' & Hq' & _).
      congruence.
Qed.

Lemma elem_of_concat {A} (x : A) (ls : list (list A)) :
  x ∈ concat ls ↔ ∃ l, l ∈ ls ∧ x ∈ l.
Proof.
  rewrite list_elem_of_In, in_concat. split.
  - intros (l & Hl & Hx). exists l. by rewrite !list_elem_of_In.
  - intros (l & Hl & Hx). exists l. by rewrite <- !list_elem_of_In.
Qed.

Lemma fetched_from_query api (queries : list text) answers (r : repo) :
  Forall2 (λ query items, search_repos api query = Ok items) queries answers →
  r ∈ concat answers →
  ∃ query items,
    query ∈ queries ∧ search_repos api query = Ok items ∧ r ∈ items.
Proof.
  intros Hall (items & Hitems & Hr)%elem_of_concat.
  apply list_elem_of_lookup in Hitems as [i Hi].
  destruct (Forall2_lookup_r _ _ _ _ _ Hall Hi) as (query & Hq & Hok).
  exists query, items. split; [by eapply list_elem_of_lookup_2|done].
Qed.

Lemma foldl_add_repo_names (repos : list repo) :
  NoDup ((λ r, Py.lower (full_name r)) <$> (foldl add_repo [] repos).*2).
Proof.
  rewrite <- list_fmap_compose.
  replace ((λ r, Py.lower (full_name r)) ∘ snd <$> foldl add_repo [] repos)
    with ((foldl add_repo [] repos).*1).
  - apply foldl_add_repo_keys. constructor.
  - apply Forall_fmap_ext, Forall_forall. intros [k r] Hin.
    by apply foldl_add_repo_first in Hin as (pre & post & _ & -> & _).
Qed.

(** X1.  The keys of the aggregated dict are pairwise different, each is
    the lowercase full name of its repository, and each repository was
    returned by a query. *)
Theorem all_repos_keys api (queries : list text) (all_repos : dict) :
  search_all api queries [] = Ok all_repos →
  NoDup all_repos.*1
  ∧ NoDup ((λ r, Py.lower (full_name r)) <$> all_repos.*2)
  ∧ ∀ k r, (k, r) ∈ all_repos →
      k = Py.lower (full_name r)
      ∧ ∃ query items,
          query ∈ queries ∧ search_repos api query = Ok items ∧ r ∈ items.
Proof.
  intros (answers & Hall & ->)%search_all_fetched.
  assert (NoDup (foldl add_repo [] (concat answers)).*1) as Hnodup
    by (apply foldl_add_repo_keys; constructor).
  split; [done|]. split.
  - apply foldl_add_repo_names.
  - intros k r (pre & post & Heq & -> & _)%foldl_add_repo_first.
    split; [done|]. apply (fetched_from_query api queries answers r Hall).
    rewrite Heq. apply elem_of_app. right. by left.
Qed.

Lemma all_repos_keys_witness :
  NoDup Examples.found_twice.*1
  ∧ NoDup ((λ r, Py.lower (full_name r)) <$> Examples.found_twice.*2)
  ∧ ∀ k r, (k, r) ∈ Examples.found_twice →
      k = Py.lower (full_name r)
      ∧ ∃ query items,
          query ∈ SEARCH_QUERIES
          ∧ search_repos Examples.twice_api query = Ok items ∧ r ∈ items.
Proof.
  apply (all_repos_keys Examples.twice_api SEARCH_QUERIES
           Examples.found_twice).
  by vm_compute.
Defined.

(** X2.  When every query succeeds, the repository kept under a key is the
    first one with that lowercase full name among the answers, taken in the
    order of the queries and, within an answer, in the order of its items;
    a later one with the same name is dropped. *)
Theorem first_found_is_kept api (queries : list text) (all_repos : dict) :
  search_all api queries [] = Ok all_repos →
  ∃ answers : list (list repo),
    Forall2 (λ query items, search_repos api query = Ok items) queries answers
    ∧ ∀ k r,
        (k, r) ∈ all_repos ↔
        ∃ pre post,
          concat answers = pre ++ r :: post
          ∧ k = Py.lower (full_name r)
          ∧ ∀ x, x ∈ pre → Py.lower (full_name x) ≠ k.
Proof.
  intros (answers & Hall & ->)%search_all_fetched.
  exists answers. split; [done|]. intros k r. apply foldl_add_repo_first.
Qed.

Lemma first_found_is_kept_witness :
  ∃ answers : list (list repo),
    Forall2 (λ query items, search_repos Examples.twice_api query = Ok items)
      SEARCH_QUERIES answers
    ∧ ∀ k r,
        (k, r) ∈ Examples.found_twice ↔
        ∃ pre post,
          concat answers = pre ++ r :: post
          ∧ k = Py.lower (full_name r)
          ∧ ∀ x, x ∈ pre → Py.lower (full_name x) ≠ k.
Proof. apply (first_found_is_kept Examples.twice_api). by vm_compute. Defined.

(** ** The sort is stable *)
Section Stable.
Context {A : Type} (key : A → Z).

Lemma insert_desc_same_key (k : Z) (x : A) (l : list A) :
  List.filter (λ y, key y =? k) (Py.insert_desc key x l)
  = List.filter (λ y, key y =? k) (x :: l).
Proof.
  induction l as [|y t IH]; [done|]. cbn [Py.insert_desc].
  destruct (key y <=? key x) eqn:Hle; [done|]. apply Z.leb_gt in Hle.
  cbn [List.filter] in IH |- *. rewrite IH.
  destruct (key y =? k) eqn:Hy, (key x =? k) eqn:Hx; try done.
  apply Z.eqb_eq in Hy, Hx. lia.
Qed.

(** Elements with the same key leave the sort in the order in which they
    entered it. *)
Lemma sort_desc_stable (k : Z) (l : list A) :
  List.filter (λ y, key y =? k) (Py.sort_desc key l)
  = List.filter (λ y, key y =? k) l.
Proof.
  induction l as [|x t IH]; [done|]. cbn [Py.sort_desc].
  rewrite insert_desc_same_key. cbn [List.filter]. by rewrite IH.
Qed.
End Stable.

(** X4.  The new repositories are in the order of their star counts, from the
    highest down; they are the aggregated repositories that pass the filter,
    and those with the same count are in the order in which the search found
    them. *)
Theorem new_repos_sorted (readme_content : text) (all_repos : dict) :
  let st := update_readme readme_content all_repos in
  let selected :=
    List.filter
      (λ r, negb (fork r || archived r
                  || bool_decide (canonical (html_url r)
                                  ∈ parse_existing_entries readme_content)))
      all_repos.*2 in
  StronglySorted (Py.desc stargazers_count) (new_repos st)
  ∧ new_repos st ≡ₚ selected
  ∧ ∀ n, List.filter (λ r, stargazers_count r =? n) (new_repos st)
         = List.filter (λ r, stargazers_count r =? n) selected.
Proof.
  intros st selected.
  destruct (update_readme_fields readme_content all_repos)
    as (_ & _ & Hnew & _).
  fold st in Hnew. rewrite Hnew, filter_repos_spec. cbn [fst]. fold selected.
  split; [apply sort_desc_sorted|]. split; [apply sort_desc_perm|].
  intros n. apply sort_desc_stable.
Qed.

(** X5.  Among the rows with the same star value, the rows that were in the
    README come first, in the order in which they were read, and the rows
    of the new repositories follow, in the order of [new_repos]. *)
Theorem all_rows_stable (readme_content : text) (all_repos : dict) (n : Z) :
  let st := update_readme readme_content all_repos in
  List.filter (λ row, stars_key row =? n) (all_rows st)
  = List.filter (λ row, stars_key row =? n)
      ((λ row, update_row_stars row (repos_by_url st))
         <$> parse_table_rows readme_content)
    ++ List.filter (λ row, stars_key row =? n)
         (build_table_row <$> new_repos st).
Proof.
  intros st.
  destruct (update_readme_fields readme_content all_repos)
    as (_ & Hex & _ & _ & Hrows & _).
  fold st in Hex, Hrows. rewrite Hrows, Hex, sort_desc_stable.
  apply List.filter_app.
Qed.

(** X18.  The new repositories of a run have pairwise different lowercase
    full names, so that none is added twice under one name. *)
Theorem new_repos_distinct_names (readme_content : text) api (st : run) :
  main readme_content api = Ok st →
  NoDup ((λ r, Py.lower (full_name r)) <$> new_repos st)
  ∧ NoDup (new_repos st).
Proof.
  unfold main, bind.
  destruct (search_all api SEARCH_QUERIES []) as [d|] eqn:Hsearch; [|done].
  intros [= <-]. apply search_all_fetched in Hsearch as (answers & _ & ->).
  destruct (update_readme_fields readme_content
              (foldl add_repo [] (concat answers))) as (_ & _ & Hnew & _).
  assert (NoDup ((λ r, Py.lower (full_name r))
                   <$> new_repos (update_readme readme_content
                                    (foldl add_repo [] (concat answers)))))
    as Hnames.
  { rewrite Hnew, filter_repos_spec. cbn [fst]. rewrite sort_desc_perm.
    apply NoDup_fmap_filter, foldl_add_repo_names. }
  split; [done|]. by eapply NoDup_fmap_1.
Qed.

Lemma new_repos_distinct_names_witness :
  NoDup ((λ r, Py.lower (full_name r))
           <$> new_repos (update_readme Examples.readme Examples.found_twice))
  ∧ NoDup (new_repos (update_readme Examples.readme Examples.found_twice)).
Proof.
  apply (new_repos_distinct_names Examples.readme Examples.twice_api).
  by vm_compute.
Defined.

(** ** The fresh data by URL *)

Lemma foldl_insert_other (d : dict) (m : gmap text repo) (u : text) :
  (∀ item, item ∈ d → canonical (html_url item.2) ≠ u) →
  foldl (λ m item, <[canonical (html_url item.2) := item.2]> m) m d !! u
  = m !! u.
Proof.
  revert m. induction d as [|item d IH]; intros m Hd; [done|].
  cbn [foldl]. rewrite IH.
  - apply lookup_insert_ne, Hd. by left.
  - intros item' Hin. apply Hd. by right.
Qed.

Lemma foldl_insert_dom (d : dict) (m : gmap text repo) (u : text) :
  is_Some
    (foldl (λ m item, <[canonical (html_url item.2) := item.2]> m) m d !! u)
  ↔ is_Some (m !! u) ∨ ∃ item, item ∈ d ∧ canonical (html_url item.2) = u.
Proof.
  revert m. induction d as [|item d IH]; intros m; cbn [foldl].
  - split; [by left|]. by intros [?|(? & ?%elem_of_nil & _)].
  - rewrite IH, lookup_insert_is_Some. split.
    + intros [[Heq|[_ Hm]]|(item' & Hin & Heq)].
      * right. exists item. split; [by left|done].
      * by left.
      * right. exists item'. split; [by right|done].
    + intros [Hm|(item' & [->|Hin]%elem_of_cons & Heq)].
      * destruct (decide (canonical (html_url item.2) = u)); [by left; left|].
        left. by right.
      * left. by left.
      * right. eauto.
Qed.

(** X6.  The star counts that refresh the rows come from every aggregated
    repository, forks and archived ones included; of the repositories with
    the same canonical URL, the last one in the order of aggregation is
    kept. *)
Theorem repos_by_url_last_wins (readme_content : text) (all_repos : dict)
    (d1 d2 : dict) (k : text) (r : repo) :
  all_repos = d1 ++ (k, r) :: d2 →
  (∀ item, item ∈ d2 →
     canonical (html_url item.2) ≠ canonical (html_url r)) →
  let st := update_readme readme_content all_repos in
  repos_by_url st !! canonical (html_url r) = Some r
  ∧ ∀ u, is_Some (repos_by_url st !! u)
         ↔ ∃ item, item ∈ all_repos ∧ canonical (html_url item.2) = u.
Proof.
  intros Hall Hlast st.
  destruct (update_readme_fields readme_content all_repos)
    as (_ & _ & _ & Hby & _).
  fold st in Hby. rewrite Hby, filter_repos_spec. cbn [snd]. split.
  - rewrite Hall, foldl_app. cbn [foldl].
    rewrite foldl_insert_other by done. cbn [snd]. apply lookup_insert_eq.
  - intros u. rewrite foldl_insert_dom, lookup_empty. split.
    + by intros [[? [=]]|?].
    + by right.
Qed.

Lemma repos_by_url_last_wins_witness :
  repos_by_url (update_readme Examples.readme Examples.found_twice)
    !! canonical (html_url Examples.foo_mirror)
  = Some Examples.foo_mirror
  ∧ ∀ u, is_Some (repos_by_url
                     (update_readme Examples.readme Examples.found_twice)
                   !! u)
         ↔ ∃ item, item ∈ Examples.found_twice
                   ∧ canonical (html_url item.2) = u.
Proof.
  apply (repos_by_url_last_wins Examples.readme Examples.found_twice
           [(lit "a/foo", Examples.foo); (lit "b/bar", Examples.bar)] []
           (lit "m/foo") Examples.foo_mirror); [done|].
  by intros item ?%elem_of_nil.
Defined.

(** ** Canonical URLs *)

Lemma lower_char_idem (c : ascii) :
  Py.lower_char (Py.lower_char c) = Py.lower_char c.
Proof. by_cases_on_char c. Qed.

Lemma lower_char_slash (c : ascii) :
  Ascii.eqb "/" (Py.lower_char c) = Ascii.eqb "/" c.
Proof. by_cases_on_char c. Qed.

Lemma lower_idem (s : text) : Py.lower (Py.lower s) = Py.lower s.
Proof.
  unfold Py.lower. rewrite <- list_fmap_compose.
  apply list_fmap_ext. intros _ c _. apply lower_char_idem.
Qed.

Lemma lower_lstrip_slash (s : text) :
  Py.lstrip_with (Ascii.eqb "/") (Py.lower s)
  = Py.lower (Py.lstrip_with (Ascii.eqb "/") s).
Proof.
  induction s as [|c s IH]; [done|]. unfold Py.lower in *.
  rewrite fmap_cons. cbn [Py.lstrip_with]. rewrite lower_char_slash.
  by destruct (Ascii.eqb "/" c).
Qed.

Lemma lower_rstrip_slash (s : text) :
  Py.rstrip_char "/" (Py.lower s) = Py.lower (Py.rstrip_char "/" s).
Proof.
  unfold Py.rstrip_char, Py.rstrip_with.
  unfold Py.lower at 1. rewrite <- fmap_reverse. fold (Py.lower (reverse s)).
  rewrite lower_lstrip_slash. unfold Py.lower. by rewrite fmap_reverse.
Qed.

Lemma rstrip_with_idem p (s : text) :
  Py.rstrip_with p (Py.rstrip_with p s) = Py.rstrip_with p s.
Proof. apply rstrip_with_fixed. intros c. apply rstrip_with_last. Qed.

(** X7.  Taking the canonical form of a canonical form changes nothing: a
    canonical form is in lower case and does not end with a slash. *)
Theorem canonical_idempotent (url : text) :
  canonical (canonical url) = canonical url
  ∧ Py.lower (canonical url) = canonical url
  ∧ last (canonical url) ≠ Some "/"%char.
Proof.
  assert (Py.lower (canonical url) = canonical url) as Hlower.
  { unfold canonical. by rewrite <- lower_rstrip_slash, lower_idem. }
  split; [|split; [done|]].
  - unfold canonical at 1. rewrite Hlower. apply rstrip_with_idem.
  - intros Hlast. apply rstrip_with_last in Hlast. done.
Qed.

Lemma finditer_from_match (k : nat) (s m : text) :
  m ∈ Re.finditer_from k s → ∃ t, Re.match_url t = Some m.
Proof.
  revert k. induction s as [|c s IH]; intros k; [by intros ?%elem_of_nil|].
  cbn [Re.finditer_from]. destruct k as [|k]; [|apply IH].
  destruct (Re.match_url (c :: s)) as [m'|] eqn:Hm; [|apply IH].
  intros [->|Hin]%elem_of_cons; [eauto|by eapply IH].
Qed.

Lemma url_class_lower_not_slash (c : ascii) :
  Re.url_class c = true → Ascii.eqb "/" (Py.lower_char c) = false.
Proof. by_cases_on_char c. Qed.

Lemma match_canonical (t m : text) :
  Re.match_url t = Some m → canonical m = Py.lower m.
Proof.
  intros (_ & _ & _ & m' & c & -> & Hc)%match_url_inv.
  unfold canonical, Py.rstrip_char. apply rstrip_with_fixed. intros d.
  unfold Py.lower. rewrite fmap_app, fmap_cons, fmap_nil, last_snoc.
  intros [= <-]. by apply url_class_lower_not_slash.
Qed.

(** X8.  A match of the pattern never ends with a slash, so on the matches
    found in the README and in a row the canonical form is the lower-case
    form: there [rstrip] removes nothing. *)
Theorem match_needs_no_rstrip (s : text) :
  Forall (λ m, canonical m = Py.lower m) (Re.finditer s)
  ∧ urls_in s = list_to_set (Py.lower <$> Re.finditer s)
  ∧ ∀ m, Re.search s = Some m → canonical m = Py.lower m.
Proof.
  assert (Forall (λ m, canonical m = Py.lower m) (Re.finditer s)) as Hall.
  { apply Forall_forall. intros m [t Ht]%finditer_from_match.
    by eapply match_canonical. }
  split; [done|]. split.
  - unfold urls_in. f_equal. by apply Forall_fmap_ext.
  - intros m Hm. rewrite search_head in Hm.
    apply head_Some_elem_of in Hm.
    by apply (proj1 (Forall_forall _ _) Hall).
Qed.

(** ** The rows that are read *)

Lemma parse_table_rows_markers (readme_content : text) (row : text) :
  row ∈ parse_table_rows readme_content →
  ∃ s e, Py.find readme_content MARKER_START = Z.of_nat s
         ∧ Py.find readme_content MARKER_END = Z.of_nat e.
Proof.
  intros Hrow.
  destruct (find_cases readme_content MARKER_START) as [[Hs _]|(s & Hs & _)].
  { unfold parse_table_rows in Hrow. rewrite Hs in Hrow.
    by apply elem_of_nil in Hrow. }
  destruct (find_cases readme_content MARKER_END) as [[He _]|(e & He & _)].
  { unfold parse_table_rows in Hrow. rewrite He, orb_true_r in Hrow.
    by apply elem_of_nil in Hrow. }
  eauto.
Qed.

Lemma is_table_row_starts (line : text) :
  is_table_row line = true ↔
  Py.startswith line (lit "|") = true
  ∧ Py.startswith line (lit "| Name") = false
  ∧ Py.startswith line (lit "|---") = false.
Proof.
  unfold is_table_row.
  destruct (Py.startswith line (lit "| Name")),
    (Py.startswith line (lit "|---")), (Py.startswith line (lit "|"));
    cbn; intuition congruence.
Qed.

(** X9.  Every row that is read starts with a pipe, is neither the header
    line nor the separator line, has no white space at either end and is on
    one line; it is a piece of the README that lies before the end marker,
    and does not contain the end marker. *)
Theorem parse_table_rows_shape (readme_content row : text) :
  row ∈ parse_table_rows readme_content →
  Py.startswith row (lit "|") = true
  ∧ Py.startswith row (lit "| Name") = false
  ∧ Py.startswith row (lit "|---") = false
  ∧ Py.stripped row
  ∧ ("010"%char ∉ row)
  ∧ ¬ Py.contains row MARKER_END
  ∧ ∃ j, Py.occurs_at readme_content row j
         ∧ Z.of_nat (j + length row) ≤ Py.find readme_content MARKER_END.
Proof.
  intros Hrow.
  destruct (parse_table_rows_markers _ _ Hrow) as (s & e & Hs & He).
  pose proof (existing_row_line _ _ _ Hs He _ Hrow) as [Hline _].
  apply is_table_row_starts in Hline as (Hpipe & Hname & Hsep).
  split; [done|]. split; [done|]. split; [done|].
  split; [by eapply existing_row_stripped|].
  split; [by eapply existing_row_one_line|].
  split; [by eapply existing_row_no_end|].
  assert (row ≠ []) as Hne by (by intros ->).
  assert (Py.contains row row) as Hself.
  { exists 0%nat, [], []. by rewrite app_nil_r. }
  eapply existing_row_contains in Hself; [|exact Hs|exact He|exact Hrow].
  apply contains_slice in Hself as (j & Hj & Hlen); [|done].
  exists j. split; [done|]. rewrite He. lia.
Qed.

Lemma parse_table_rows_shape_witness :
  Py.startswith Examples.foo_row (lit "|") = true
  ∧ Py.startswith Examples.foo_row (lit "| Name") = false
  ∧ Py.startswith Examples.foo_row (lit "|---") = false
  ∧ Py.stripped Examples.foo_row
  ∧ ("010"%char ∉ Examples.foo_row)
  ∧ ¬ Py.contains Examples.foo_row MARKER_END
  ∧ ∃ j, Py.occurs_at Examples.readme Examples.foo_row j
         ∧ Z.of_nat (j + length Examples.foo_row)
           ≤ Py.find Examples.readme MARKER_END.
Proof.
  apply (parse_table_rows_shape Examples.readme Examples.foo_row).
  apply (bool_decide_unpack _). by vm_compute.
Defined.

(** X10.  Every URL found in a row that is read is in the set of existing
    URLs, so no new repository has the URL of a row of the README, before
    or after the refresh of the row. *)
Theorem row_urls_are_existing (readme_content : text) (all_repos : dict)
    (row : text) :
  row ∈ parse_table_rows readme_content →
  let st := update_readme readme_content all_repos in
  urls_in row ⊆ parse_existing_entries readme_content
  ∧ ∀ r, r ∈ new_repos st →
      (canonical (html_url r) ∉ urls_in row)
      ∧ canonical (html_url r)
        ∉ urls_in (update_row_stars row (repos_by_url st)).
Proof.
  intros Hrow st.
  pose proof (existing_rows_urls _ _ Hrow) as Hsub.
  split; [done|]. intros r Hr.
  apply new_repos_elem in Hr as (_ & _ & _ & Hnew).
  split; intros Hin; apply Hnew, Hsub; [done|].
  by apply (update_row_stars_urls row (repos_by_url st)).
Qed.

Lemma row_urls_are_existing_witness :
  urls_in Examples.foo_row ⊆ parse_existing_entries Examples.readme
  ∧ ∀ r, r ∈ new_repos (update_readme Examples.readme Examples.all_repos) →
      (canonical (html_url r) ∉ urls_in Examples.foo_row)
      ∧ canonical (html_url r)
        ∉ urls_in (update_row_stars Examples.foo_row
                     (repos_by_url
                        (update_readme Examples.readme Examples.all_repos))).
Proof.
  apply (row_urls_are_existing Examples.readme Examples.all_repos
           Examples.foo_row).
  apply (bool_decide_unpack _). by vm_compute.
Defined.

(** ** [int] reads what [str] writes *)

Lemma isdecimal_char (c : ascii) :
  Py.isdecimal c = true →
  Ascii.eqb c "+" = false ∧ Ascii.eqb c "-" = false
  ∧ Ascii.eqb "_" c = false ∧ Py.c_isspace c = false
  ∧ Py.isspace c = false ∧ (Py.ord c <? 128)%N = true.
Proof. destruct c as [[] [] [] [] [] [] [] []]; vm_compute; try done. Qed.

Lemma scan_digits_all (ds : text) :
  Forall (λ c, Py.isdecimal c = true) ds →
  Py.scan_digits false ds = Some (ds, []).
Proof.
  induction 1 as [|c ds Hc _ IH]; [done|].
  cbn [Py.scan_digits]. by rewrite Hc, IH.
Qed.

(** [int] of a non-empty string of decimal digits, with or without a minus
    sign. *)
Lemma int_digits (ds : text) :
  Forall (λ c, Py.isdecimal c = true) ds → ds ≠ [] →
  Py.int ds = Some (Py.digits_value ds)
  ∧ Py.int ("-"%char :: ds) = Some (- Py.digits_value ds).
Proof.
  intros Hds Hne.
  assert (Py.isascii ds = true) as Hascii.
  { unfold Py.isascii. apply forallb_forall. intros c Hc%list_elem_of_In.
    rewrite Forall_forall in Hds. by apply isdecimal_char, Hds. }
  destruct ds as [|c t]; [done|].
  pose proof (Forall_inv Hds) as Hc.
  destruct (isdecimal_char c Hc) as (Hplus & Hminus & Hus & Hsp & _ & _).
  split.
  - unfold Py.int. rewrite Hascii. cbn [Py.lstrip_with]. rewrite Hsp.
    rewrite Hplus, Hminus. change (lit "_") with ["_"%char].
    cbn [Py.startswith]. rewrite Hus. cbn [andb].
    rewrite scan_digits_all by done. cbn [Py.lstrip_with].
    f_equal; lia.
  - unfold Py.int. change (Py.isascii ("-"%char :: c :: t))
      with (Py.isascii (c :: t)). rewrite Hascii.
    cbn [Py.lstrip_with]. change (Py.c_isspace "-") with false.
    cbn [Ascii.eqb Bool.eqb]. change (lit "_") with ["_"%char].
    cbn [Py.startswith]. rewrite Hus. cbn [andb].
    rewrite scan_digits_all by done. cbn [Py.lstrip_with].
    f_equal; lia.
Qed.

Lemma digits_value_acc (d : Decimal.uint) (acc : positive) :
  fold_left (λ acc c, 10 * acc + (Z.of_N (Py.ord c) - 48))
    (list_ascii_of_string (NilEmpty.string_of_uint d)) (Z.pos acc)
  = Z.pos (Pos.of_uint_acc d acc).
Proof.
  revert acc. induction d; intros acc; [done|..];
    cbn [NilEmpty.string_of_uint list_ascii_of_string fold_left
         Pos.of_uint_acc];
    rewrite <- IHd; f_equal;
    match goal with
    | |- context [Z.of_N (Py.ord ?c)] =>
        let v := eval vm_compute in (Z.of_N (Py.ord c)) in
        change (Z.of_N (Py.ord c)) with v
    end; lia.
Qed.

Lemma digits_value_uint (d : Decimal.uint) :
  Py.digits_value (list_ascii_of_string (NilEmpty.string_of_uint d))
  = Z.of_uint d.
Proof.
  unfold Py.digits_value, Z.of_uint.
  induction d; [done|..];
    cbn [NilEmpty.string_of_uint list_ascii_of_string fold_left Pos.of_uint];
    try apply IHd; apply (digits_value_acc d).
Qed.

Lemma digits_value_nilzero (d : Decimal.uint) :
  Py.digits_value (list_ascii_of_string (NilZero.string_of_uint d))
  = Z.of_uint d
  ∧ Forall (λ c, Py.isdecimal c = true)
      (list_ascii_of_string (NilZero.string_of_uint d))
  ∧ list_ascii_of_string (NilZero.string_of_uint d) ≠ [].
Proof.
  destruct d; try (split; [apply digits_value_uint|];
                   split; [apply uint_chars|done]).
  split; [done|]. split; [by repeat constructor|done].
Qed.

(** [int(str(n))] is [n]. *)
Lemma int_str (n : Z) : Py.int (Py.str n) = Some n.
Proof.
  rewrite <- (DecimalZ.of_to n) at 2.
  unfold Py.str, lit, NilZero.string_of_int, Z.of_int.
  destruct (Z.to_int n) as [d|d];
    destruct (digits_value_nilzero d) as (Hval & Hds & Hne);
    destruct (int_digits _ Hds Hne) as [Hpos Hneg].
  - by rewrite Hpos, Hval.
  - cbn [list_ascii_of_string]. by rewrite Hneg, Hval.
Qed.

(** ** The stars column, written and read *)

Lemma remove_char_absent (a : ascii) (s : text) :
  a ∉ s → Py.remove_char a s = s.
Proof.
  unfold Py.remove_char. induction s as [|c s IH]; [done|].
  intros [Hc Hs]%not_elem_of_cons.
  rewrite filter_cons_True by done. by rewrite IH.
Qed.

Lemma str_stripped (n : Z) : Py.stripped (Py.str n) ∧ Py.str n ≠ [].
Proof.
  pose proof (str_chars n) as Hall. rewrite Forall_forall in Hall.
  assert (∀ c, c ∈ Py.str n → Py.isspace c = false) as Hns.
  { intros c [Hc| ->]%Hall; [by apply isdecimal_char|done]. }
  split; [split; intros c Hc; apply Hns|].
  - by apply head_Some_elem_of.
  - by apply last_Some_elem_of.
  - intros Hnil. pose proof (int_str n) as Hint. by rewrite Hnil in Hint.
Qed.

(** The stars column as [build_table_row] and [update_row_stars] write it
    is read back as the number that was written. *)
Lemma stars_field_read (n : Z) :
  int (Py.remove_char "," (Py.strip (lit " " ++ Py.str n ++ lit " "))) = Ok n.
Proof.
  destruct (str_stripped n) as [Hstripped Hne].
  rewrite strip_padded by (done || by repeat constructor).
  rewrite remove_char_absent.
  - unfold int. by rewrite int_str.
  - intros Hin. pose proof (str_chars n) as Hall.
    rewrite Forall_forall in Hall. by destruct (Hall _ Hin).
Qed.

Lemma extract_stars_field (row : text) (n : Z) :
  Py.split "|" row !! 3%nat = Some (lit " " ++ Py.str n ++ lit " ") →
  extract_stars_from_row row = Ok n ∧ stars_key row = n.
Proof.
  intros Hpart. assert (extract_stars_from_row row = Ok n) as Hok.
  { unfold extract_stars_from_row. cbv zeta.
    pose proof (lookup_lt_Some _ _ _ Hpart) as Hlen.
    rewrite (proj2 (Nat.leb_le 4 _)) by lia.
    unfold getitem. rewrite Hpart. unfold bind.
    by rewrite stars_field_read. }
  split; [done|]. unfold stars_key. by rewrite Hok.
Qed.

Lemma build_table_row_parts (r : repo) :
  "|"%char ∉ name r → "|"%char ∉ html_url r →
  Py.split "|" (build_table_row r)
  = [[]; lit " [" ++ name r ++ lit "](" ++ html_url r ++ lit ") ";
     lit " " ++ render_description r ++ lit " ";
     lit " " ++ Py.str (stargazers_count r) ++ lit " "; []].
Proof.
  intros Hname Hurl. rewrite build_table_row_join.
  apply split_join; [done|].
  repeat constructor; try apply not_elem_of_nil.
  - unfold lit. cbn [list_ascii_of_string].
    rewrite !not_elem_of_app, !not_elem_of_cons.
    repeat split; try done; apply not_elem_of_nil.
  - unfold lit. cbn [list_ascii_of_string].
    rewrite !not_elem_of_app, !not_elem_of_cons.
    pose proof (render_description_no_pipe r).
    repeat split; try done; apply not_elem_of_nil.
  - by apply field_without.
Qed.

(** X11.  A row built for a repository whose name and URL have no pipe
    splits into five parts, the columns being the link, the description
    and the stars, and [extract_stars_from_row] reads from it the star
    count of the repository. *)
Theorem built_row_stars (r : repo) :
  "|"%char ∉ name r → "|"%char ∉ html_url r →
  Py.split "|" (build_table_row r)
  = [[]; lit " [" ++ name r ++ lit "](" ++ html_url r ++ lit ") ";
     lit " " ++ render_description r ++ lit " ";
     lit " " ++ Py.str (stargazers_count r) ++ lit " "; []]
  ∧ extract_stars_from_row (build_table_row r) = Ok (stargazers_count r)
  ∧ stars_key (build_table_row r) = stargazers_count r.
Proof.
  intros Hname Hurl.
  pose proof (build_table_row_parts r Hname Hurl) as Hparts.
  split; [done|]. apply extract_stars_field. by rewrite Hparts.
Qed.

Lemma built_row_stars_witness :
  Py.split "|" (build_table_row Examples.bar)
  = [[]; lit " [bar](https://github.com/b/bar) "; lit " Bar - thing ";
     lit " 700 "; []]
  ∧ extract_stars_from_row (build_table_row Examples.bar) = Ok 700
  ∧ stars_key (build_table_row Examples.bar) = 700.
Proof.
  apply (built_row_stars Examples.bar);
    apply (bool_decide_unpack _); by vm_compute.
Defined.

(** X12.  When a row is refreshed, that is when its first URL has fresh data
    and it has at least five parts, the star value read from the refreshed
    row, which is its sort key, is the fresh star count. *)
Theorem refreshed_row_stars (row : text) (by_url : gmap text repo)
    (url : text) (r : repo) :
  Re.search row = Some url →
  by_url !! canonical url = Some r →
  (5 ≤ length (Py.split "|" row))%nat →
  extract_stars_from_row (update_row_stars row by_url)
  = Ok (stargazers_count r)
  ∧ stars_key (update_row_stars row by_url) = stargazers_count r.
Proof.
  intros Hurl Hr Hlen. apply extract_stars_field.
  unfold update_row_stars. rewrite Hurl, Hr.
  rewrite (proj2 (Nat.leb_le _ _) Hlen).
  pose proof (refreshed_split row (stargazers_count r) Hlen) as Hsplit.
  rewrite Hsplit. apply list_lookup_insert_eq. lia.
Qed.

Lemma refreshed_row_stars_witness :
  extract_stars_from_row (update_row_stars Examples.foo_row Examples.by_url)
  = Ok 600
  ∧ stars_key (update_row_stars Examples.foo_row Examples.by_url) = 600.
Proof.
  apply (refreshed_row_stars Examples.foo_row Examples.by_url
           (lit "https://github.com/a/foo") Examples.foo);
    [by vm_compute | by vm_compute | vm_compute; lia].
Defined.

(** X13.  Refreshing a row a second time from the same data changes nothing
    more, when no repository URL is found in the stars column of the
    row. *)
Theorem update_row_stars_idempotent (row : text) (by_url : gmap text repo) :
  stars_without_url row = true →
  update_row_stars (update_row_stars row by_url) by_url
  = update_row_stars row by_url.
Proof.
  intros Hstars%bool_decide_eq_true.
  destruct (update_row_stars_cases row by_url)
    as [Heq|(m & r & Hm & Hr & Hlen & Heq)]; rewrite Heq; [by rewrite Heq|].
  pose proof (refreshed_finditer row (stargazers_count r) Hlen Hstars)
    as Hfind.
  unfold update_row_stars at 1.
  rewrite search_head, Hfind, <- search_head, Hm, Hr.
  pose proof (refreshed_split row (stargazers_count r) Hlen) as Hsplit.
  rewrite Hsplit, length_insert.
  rewrite (proj2 (Nat.leb_le _ _) Hlen). by rewrite list_insert_insert_eq.
Qed.

Lemma update_row_stars_idempotent_witness :
  update_row_stars (update_row_stars Examples.foo_row Examples.by_url)
    Examples.by_url
  = update_row_stars Examples.foo_row Examples.by_url.
Proof.
  apply (update_row_stars_idempotent Examples.foo_row Examples.by_url).
  by vm_compute.
Defined.

(** X14.  Refreshing the row built for a repository gives the row that
    is built for the same repository with the fresh star count. *)
Theorem built_row_refreshed (r fresh r' : repo) (by_url : gmap text repo) :
  github_named r = true →
  by_url !! canonical (html_url r) = Some fresh →
  name r' = name r → html_url r' = html_url r →
  description r' = description r →
  stargazers_count r' = stargazers_count fresh →
  update_row_stars (build_table_row r) by_url = build_table_row r'.
Proof.
  intros Hnamed Hfresh Hname Hurl Hdesc Hcount. unfold update_row_stars.
  rewrite build_table_row_search, Hfresh, build_table_row_split by done.
  cbn [length Nat.leb]. rewrite (build_table_row_join r').
  unfold render_description. rewrite Hname, Hurl, Hdesc, Hcount. done.
Qed.

Lemma built_row_refreshed_witness :
  update_row_stars (build_table_row Examples.foo) Examples.by_url_mirror
  = build_table_row Examples.foo_650.
Proof.
  apply (built_row_refreshed Examples.foo Examples.foo_mirror
           Examples.foo_650 Examples.by_url_mirror); reflexivity.
Defined.

(** ** A written section, read back *)
Section ReadBack.
Context (before after : text) (rows : list text).
Hypothesis Hrows : ∀ row, row ∈ rows → readable row.
Hypothesis Hstart : Py.find before MARKER_START = -1.
Hypothesis Hend : Py.find before MARKER_END = -1.

Let document : text := before ++ build_section rows ++ after.

Lemma document_parts :
  document
  = before ++ MARKER_START ++ section_body rows ++ MARKER_END ++ after.
Proof. subst document. rewrite build_section_body. by list_norm. Qed.

Lemma document_find_start :
  Py.find document MARKER_START = Z.of_nat (length before).
Proof.
  apply find_found, find_nat_complete. rewrite document_parts. split.
  - by eexists before, _.
  - intros j Hj. destruct (decide (length before ≤ j)%nat) as [|Hlt]; [done|].
    exfalso. revert Hj.
    change MARKER_START with ("<"%char :: lit "!-- NANO_LIST_START -->").
    cbn [app]. intros Hj.
    apply occurs_at_before in Hj; [| |lia].
    + apply find_missing in Hstart. by eapply find_nat_None.
    + by vm_compute; intros H;
        repeat (apply elem_of_cons in H as [H|H]; [done|]);
        apply elem_of_nil in H.
Qed.

Lemma document_find_end :
  Py.find document MARKER_END
  = Z.of_nat (length before + length MARKER_START
              + length (section_body rows)).
Proof.
  apply find_found, find_nat_complete. rewrite document_parts. split.
  - exists (before ++ MARKER_START ++ section_body rows), after.
    split; [by list_norm|]. rewrite !length_app. lia.
  - intros j Hj.
    destruct (decide (length before + length MARKER_START
                      + length (section_body rows) ≤ j)%nat) as [|Hlt];
      [done|].
    exfalso. destruct marker_end_head as [Hhead Htail].
    rewrite !app_assoc, <- (app_assoc _ MARKER_END) in Hj.
    rewrite Hhead in Hj. cbn [app] in Hj.
    apply occurs_at_before in Hj; [|done|rewrite !length_app; lia].
    rewrite <- Hhead in Hj.
    destruct (decide (j < length before)%nat) as [Hjs|Hjs].
    + rewrite <- app_assoc in Hj.
      change MARKER_START with ("<"%char :: lit "!-- NANO_LIST_START -->")
        in Hj.
      cbn [app] in Hj. rewrite Hhead in Hj.
      apply occurs_at_before in Hj; [|done|lia].
      rewrite <- Hhead in Hj.
      apply find_missing in Hend. by eapply find_nat_None.
    + rewrite <- app_assoc in Hj. apply occurs_at_suffix in Hj; [|lia].
      assert (Py.contains (MARKER_START ++ section_body rows) MARKER_END)
        as Hc by (eexists; exact Hj).
      apply section_body_end in Hc as (row & Hrow & Hc).
      by apply Hrows in Hrow as (_ & _ & _ & Hno).
Qed.

Lemma document_rows : parse_table_rows document = rows.
Proof.
  rewrite (parse_table_rows_found _ _ _ document_find_start
             document_find_end).
  rewrite document_parts.
  rewrite <- length_app, (app_assoc before), slice_middle.
  apply section_body_rows. intros row Hrow%Hrows.
  split; [apply Hrow | split; apply Hrow].
Qed.

Lemma urls_in_no_colon (s : text) : ":"%char ∉ s → urls_in s = ∅.
Proof. intros Hs. unfold urls_in. by rewrite finditer_no_colon. Qed.

Lemma document_urls :
  parse_existing_entries document = ⋃ (urls_in <$> rows).
Proof.
  rewrite (parse_existing_entries_found _ _ _ document_find_start
             document_find_end).
  rewrite document_parts, <- Nat.add_assoc, <- length_app.
  rewrite (app_assoc MARKER_START (section_body rows)), slice_middle.
  unfold section_body. rewrite table_header_lines.
  rewrite <- !app_assoc. cbn [app]. rewrite <- !app_assoc. cbn [app].
  rewrite !urls_in_cut, urls_in_join by done.
  rewrite !urls_in_no_colon.
  - by rewrite !union_empty_l_L, union_empty_r_L.
  - apply not_elem_of_nil.
  - by vm_compute; intros H;
      repeat (apply elem_of_cons in H as [H|H]; [done|]);
      apply elem_of_nil in H.
  - by vm_compute; intros H;
      repeat (apply elem_of_cons in H as [H|H]; [done|]);
      apply elem_of_nil in H.
  - by vm_compute; intros H;
      repeat (apply elem_of_cons in H as [H|H]; [done|]);
      apply elem_of_nil in H.
Qed.
End ReadBack.

(** X15.  A section built from rows that are readable, put after a text
    without markers, is read back as it was built: [parse_table_rows] gives
    the rows, in their order, and [parse_existing_entries] gives the URLs
    found in the rows and no other. *)
Theorem section_read_back (before after : text) (rows : list text) :
  (∀ row, row ∈ rows → readable row) →
  Py.find before MARKER_START = -1 →
  Py.find before MARKER_END = -1 →
  let document := before ++ build_section rows ++ after in
  parse_table_rows document = rows
  ∧ parse_existing_entries document = ⋃ (urls_in <$> rows)
  ∧ Py.find document MARKER_START = Z.of_nat (length before)
  ∧ Py.find document MARKER_END
    = Z.of_nat (length before + length MARKER_START
                + length (section_body rows)).
Proof.
  intros Hrows Hstart Hend document.
  split; [by apply document_rows|].
  split; [by apply document_urls|].
  split; [by apply document_find_start|by apply document_find_end].
Qed.

Lemma section_read_back_witness :
  parse_table_rows
    (lit "# Title" ++ build_section [Examples.foo_row] ++ lit "tail")
  = [Examples.foo_row]
  ∧ parse_existing_entries
      (lit "# Title" ++ build_section [Examples.foo_row] ++ lit "tail")
    = ⋃ (urls_in <$> [Examples.foo_row])
  ∧ Py.find (lit "# Title" ++ build_section [Examples.foo_row] ++ lit "tail")
      MARKER_START
    = Z.of_nat (length (lit "# Title"))
  ∧ Py.find (lit "# Title" ++ build_section [Examples.foo_row] ++ lit "tail")
      MARKER_END
    = Z.of_nat (length (lit "# Title") + length MARKER_START
                + length (section_body [Examples.foo_row])).
Proof.
  apply (section_read_back (lit "# Title") (lit "tail") [Examples.foo_row]);
    [|by vm_compute|by vm_compute].
  intros row ->%list_elem_of_singleton.
  split; [by vm_compute|]. split; [by split; intros c [= <-]|].
  split; [apply (bool_decide_unpack _); by vm_compute|].
  apply not_contains_find. by vm_compute.
Defined.

(** ** What a run writes, read by the next run *)

Lemma find_take (s sub : text) (i k : nat) :
  sub ≠ [] → Py.find s sub = Z.of_nat i → (k ≤ i)%nat →
  Py.find (take k s) sub = -1.
Proof.
  intros Hsub Hfind Hk. apply find_missing.
  destruct (Py.find_nat (take k s) sub) as [j|] eqn:Hj; [|done]. exfalso.
  apply find_nat_sound in Hj as [Hocc _].
  pose proof (occurs_at_length _ _ _ Hocc) as Hlen.
  rewrite length_take in Hlen.
  apply (occurs_at_app_r _ (drop k s)) in Hocc. rewrite take_drop in Hocc.
  apply find_of_nat in Hfind as [_ Hmin]. apply Hmin in Hocc.
  destruct sub; [done|]. cbn [length] in Hlen. lia.
Qed.

(** X17.  What a run writes to the file, the next run reads.  Let the
    README, as it is read from its file in text mode, have its markers in
    order, and let the repositories be named as GitHub names them, with
    one-line rows.  Then the text that is read back from the file after
    the run is the README that the run wrote: its rows are the rows
    written, its existing URLs are the URLs found in these rows, and its
    start marker is where it was. *)
Theorem written_rows_read_back (windows : bool) (stored : text)
    (all_repos : dict) :
  let readme_content := read_text stored in
  markers_in_order readme_content = true →
  forallb github_named all_repos.*2 = true →
  forallb one_line_row all_repos.*2 = true →
  let st := update_readme readme_content all_repos in
  let reread := read_text (write_text (os_linesep windows) (new_readme st)) in
  reread = new_readme st
  ∧ parse_table_rows reread = all_rows st
  ∧ parse_existing_entries reread = ⋃ (urls_in <$> all_rows st)
  ∧ Py.find reread MARKER_START = Py.find readme_content MARKER_START.
Proof.
  intros readme_content Hmarkers Hnamed Hline st reread.
  destruct (markers_in_order_found _ Hmarkers) as (s & e & Hs & He & Hle).
  assert (∀ r, r ∈ all_repos.*2 → github_named r = true) as Hnamed'
    by (intros r; apply forallb_elem, Hnamed).
  assert (∀ r, r ∈ all_repos.*2 → one_line_row r = true) as Hline'
    by (intros r; apply forallb_elem, Hline).
  assert (reread = new_readme st) as Hread.
  { apply read_write_text.
    apply (new_readme_no_cr readme_content all_repos s e Hs He Hnamed' Hline').
    apply read_text_no_cr. }
  split; [done|]. rewrite Hread. clear Hread reread.
  destruct (update_readme_fields readme_content all_repos)
    as (_ & _ & _ & _ & _ & Hsec & Hnew).
  fold st in Hsec, Hnew.
  rewrite Hs, He, <- Nat2Z.inj_add, slice_to, slice_from, Hsec in Hnew.
  assert (∀ row, row ∈ all_rows st → readable row) as Hrows
    by (by apply (all_rows_readable readme_content all_repos s e Hs He)).
  assert (Py.find (take s readme_content) MARKER_START = -1) as Hstart
    by (by eapply find_take).
  assert (Py.find (take s readme_content) MARKER_END = -1) as Hend
    by (by eapply find_take).
  rewrite Hnew.
  split; [by apply document_rows|]. split; [by apply document_urls|].
  rewrite document_find_start, Hs by done. f_equal.
  apply find_of_nat in Hs as [Hocc%occurs_at_length _].
  rewrite length_take. lia.
Qed.

Lemma written_rows_read_back_witness :
  read_text
    (write_text (os_linesep true)
       (new_readme
          (update_readme (read_text Examples.readme_crlf) Examples.found)))
  = new_readme (update_readme (read_text Examples.readme_crlf) Examples.found)
  ∧ parse_table_rows
      (read_text
         (write_text (os_linesep true)
            (new_readme
               (update_readme (read_text Examples.readme_crlf)
                  Examples.found))))
    = all_rows (update_readme (read_text Examples.readme_crlf) Examples.found)
  ∧ parse_existing_entries
      (read_text
         (write_text (os_linesep true)
            (new_readme
               (update_readme (read_text Examples.readme_crlf)
                  Examples.found))))
    = ⋃ (urls_in
           <$> all_rows
                 (update_readme (read_text Examples.readme_crlf)
                    Examples.found))
  ∧ Py.find
      (read_text
         (write_text (os_linesep true)
            (new_readme
               (update_readme (read_text Examples.readme_crlf)
                  Examples.found))))
      MARKER_START
    = Py.find (read_text Examples.readme_crlf) MARKER_START.
Proof.
  by apply (written_rows_read_back true Examples.readme_crlf Examples.found);
    vm_compute.
Defined.

(** ** The outputs *)

Lemma append_file_twice (path d1 d2 : text) (fs : files) :
  append_file path d2 (append_file path d1 fs)
  = append_file path (d1 ++ d2) fs.
Proof.
  unfold append_file. rewrite lookup_insert_eq, insert_insert_eq.
  cbn [default]. by rewrite app_assoc.
Qed.

Lemma set_github_output_line (environ : gmap text text)
    (path key value : text) (fs : files) :
  environ !! lit "GITHUB_OUTPUT" = Some path → path ≠ [] →
  "010"%char ∉ value →
  set_github_output environ key value fs
  = append_file path (key ++ "="%char :: value ++ ["010"%char]) fs.
Proof.
  intros Henv Hpath Hvalue. unfold set_github_output. rewrite Henv.
  cbn [default]. destruct path; [done|].
  by rewrite bool_decide_eq_false_2.
Qed.

Lemma set_github_output_lines (environ : gmap text text)
    (path key value : text) (fs : files) :
  environ !! lit "GITHUB_OUTPUT" = Some path → path ≠ [] →
  "010"%char ∈ value →
  set_github_output environ key value fs
  = append_file path
      (key ++ lit "<<EOF" ++ "010"%char :: value
       ++ "010"%char :: lit "EOF" ++ ["010"%char]) fs.
Proof.
  intros Henv Hpath Hvalue. unfold set_github_output. rewrite Henv.
  cbn [default]. destruct path; [done|].
  by rewrite bool_decide_eq_true_2.
Qed.

Lemma str_one_line (n : Z) : "010"%char ∉ Py.str n.
Proof.
  intros Hin. pose proof (str_chars n) as Hall.
  rewrite Forall_forall in Hall. by destruct (Hall _ Hin).
Qed.

Lemma services_line_one_line (r : repo) :
  "010"%char ∉ full_name r → "010"%char ∉ html_url r →
  "010"%char ∉ services_line r.
Proof.
  intros Hname Hurl. unfold services_line, lit. cbn [list_ascii_of_string].
  rewrite !not_elem_of_app, !not_elem_of_cons.
  pose proof (str_one_line (stargazers_count r)).
  repeat split; try done; apply not_elem_of_nil.
Qed.

Lemma services_line_head (r : repo) :
  ∃ rest, services_line r = "-"%char :: rest.
Proof. by eexists. Qed.

(** X16.  When [GITHUB_OUTPUT] names a file, the end of [main] appends to it
    the line of [new_count], which is the number of new repositories, and
    after it the entry of [new_services], and touches no other file.  The
    entry is the line [new_services=None] when there is no new repository,
    one line when there is one, whose names are on one line, and the form
    between two [EOF] delimiters when there are two or more.  When
    [GITHUB_OUTPUT] is not set, or is empty, nothing is written. *)
Theorem outputs_written (environ : gmap text text) (st : run) (fs : files) :
  (default [] (environ !! lit "GITHUB_OUTPUT") = [] →
   set_outputs environ st fs = fs)
  ∧ ∀ path, environ !! lit "GITHUB_OUTPUT" = Some path → path ≠ [] →
      ∃ entry,
        set_outputs environ st fs
        = <[path := default [] (fs !! path)
                    ++ (lit "new_count="
                        ++ Py.str (Z.of_nat (length (new_repos st)))
                        ++ ["010"%char])
                    ++ entry]> fs
        ∧ (new_repos st = [] →
           entry = lit "new_services=None" ++ ["010"%char])
        ∧ (∀ r, new_repos st = [r] →
             "010"%char ∉ full_name r → "010"%char ∉ html_url r →
             entry = lit "new_services=" ++ services_line r ++ ["010"%char])
        ∧ ((2 ≤ length (new_repos st))%nat →
           entry = lit "new_services<<EOF"
                   ++ "010"%char
                      :: Py.join "010" (services_line <$> new_repos st)
                   ++ "010"%char :: lit "EOF" ++ ["010"%char]).
Proof.
  split.
  { intros Hnone. unfold set_outputs, set_github_output. by rewrite Hnone. }
  intros path Henv Hpath. unfold set_outputs. cbv zeta.
  rewrite (set_github_output_line environ path (lit "new_count"))
    by (done || apply str_one_line).
  destruct (new_repos st) as [|r [|r' repos]] eqn:Hnew.
  - cbn [fmap list_fmap Py.join].
    rewrite (set_github_output_line environ path)
      by (done || apply (bool_decide_unpack _); by vm_compute).
    rewrite append_file_twice. eexists. split; [reflexivity|].
    split; [done|]. split; [done|]. cbn [length]. lia.
  - cbn [fmap list_fmap Py.join].
    destruct (services_line_head r) as [rest Hrest].
    assert (match services_line r with
            | _ :: _ => services_line r
            | [] => lit "None"
            end = services_line r) as -> by (by rewrite Hrest).
    destruct (decide ("010"%char ∈ services_line r)) as [Hin|Hnot].
    + rewrite (set_github_output_lines environ path) by done.
      rewrite append_file_twice. eexists. split; [reflexivity|].
      split; [done|]. split; [|cbn [length]; lia].
      intros r0 [= <-] Hname Hurl.
      by destruct (services_line_one_line r Hname Hurl).
    + rewrite (set_github_output_line environ path) by done.
      rewrite append_file_twice. eexists. split; [reflexivity|].
      split; [done|]. split; [|cbn [length]; lia].
      by intros r0 [= <-] _ _.
  - set (list_ := Py.join "010" (services_line <$> r :: r' :: repos)).
    assert (∃ rest, list_ = "-"%char :: rest) as [rest Hrest].
    { subst list_. cbn [fmap list_fmap Py.join].
      destruct (services_line_head r) as [rest ->]. by eexists. }
    assert ("010"%char ∈ list_) as Hin.
    { subst list_. cbn [fmap list_fmap Py.join].
      apply elem_of_app. right. by left. }
    assert (match list_ with
            | _ :: _ => list_
            | [] => lit "None"
            end = list_) as -> by (by rewrite Hrest).
    rewrite (set_github_output_lines environ path) by done.
    rewrite append_file_twice. eexists. split; [reflexivity|].
    split; [done|]. split; [done|]. done.
Qed.

Lemma outputs_written_witness :
  set_outputs Examples.environ
    (update_readme Examples.readme Examples.found) ∅ !! lit "/tmp/out"
  = Some (lit "new_count=1" ++ Examples.nl
          ++ lit "new_services=- [b/bar](https://github.com/b/bar) (700 stars)"
          ++ Examples.nl).
Proof.
  destruct (proj2 (outputs_written Examples.environ
                     (update_readme Examples.readme Examples.found) ∅)
              (lit "/tmp/out") eq_refl ltac:(done))
    as (entry & -> & _ & Hone & _).
  rewrite lookup_insert_eq, lookup_empty.
  rewrite (Hone Examples.bar);
    [done | by vm_compute
     | apply (bool_decide_unpack _); by vm_compute
     | apply (bool_decide_unpack _); by vm_compute].
Defined.
